(** * GGHydro: acoustic capture and A-weighted level measurement

    A shallow embedding of the recorder and analyzer cores of the GGHydro
    suite, with the properties of its specification stated over it.

    - [Py], [PyStr], [PyNum], [NumPy]: Python exceptions, text as
      sequences of code points, floats as real numbers with the
      non-finite values apart.
    - [Binary64]   the rounding, overflow and underflow of binary64
                   arithmetic, for the properties that depend on them.
    - [Utils]      app/utils.py: token sanitising, file name template,
                   collision increment.
    - [NiDaqmx]    the behaviour of the acquisition driver that the
                   recorder relies on.
    - [NiRecorder] app/ni_recorder.py: level estimate and capture routine;
                   [NiRecorder64]: the level estimate in binary64.
    - [DaqWorker]  daq_worker.py: the older capture thread.
    - [Models], [RecorderWorker], [MainWindow]: app/models.py,
                   app/recorder_worker.py and the start of a recording in
                   app/main_window.py.
    - [Cx], [SciPy]: complex numbers and the SciPy calls of the analyzer.
    - [Analyzer]   GGHydroSoundAnalyzer/main.py: filter design and LAeq;
                   [AnalyzerLib]: the same two routines over any
                   behaviour of the SciPy calls, errors and warnings
                   included.
    - [TdmsChannel] the sampling rate that the analyzer reads from the
                   properties of a channel.
    - [SpecWording]: the rules as the specification words them, for
                   comparison with the code. *)

From Stdlib Require Import Ascii String DecimalString DecimalNat.
From Stdlib Require Import Reals Zfloor Machin Lra Psatz.
From Stdlib Require Import Bool Arith ZArith NArith Lia List FinFun.
Import ListNotations.

(* ================================================================== *)
(** * Definitions *)
(* ================================================================== *)

(** ** Python exceptions *)

Module Py.

Inductive exn :=
| ValueError (msg : string)
| ZeroDivisionError (msg : string)
| DaqError (msg : string).

(** What a call does: return a value or raise. *)
Inductive result (A : Type) :=
| Ok (a : A)
| Raise (e : exn).
Arguments Ok {A} a.
Arguments Raise {A} e.

Definition bind {A B : Type} (m : result A) (k : A -> result B) : result B :=
  match m with
  | Ok a => k a
  | Raise e => Raise e
  end.

End Py.

(** ** Python text *)

Module PyStr.

(** A Python [str] is a sequence of Unicode code points. *)
Definition char := N.
Definition str := list char.

Definition lit (s : string) : str := map N_of_ascii (list_ascii_of_string s).

Definition SPACE : char := 32%N.

(** [str.isspace] on one character, which is also what [\s] matches in a
    [str] pattern and what [str.strip()] removes: the code points CPython
    lists as whitespace. *)
Definition py_isspace (c : char) : bool :=
  ((9 <=? c) && (c <=? 13) || (28 <=? c) && (c <=? 32)
   || (c =? 133) || (c =? 160) || (c =? 5760)
   || (8192 <=? c) && (c <=? 8202)
   || (c =? 8232) || (c =? 8233) || (c =? 8239) || (c =? 8287)
   || (c =? 12288))%N.

Fixpoint lstrip (s : str) : str :=
  match s with
  | [] => []
  | c :: r => if py_isspace c then lstrip r else s
  end.

Definition rstrip (s : str) : str := rev (lstrip (rev s)).

(** [s.strip()]: whitespace removed at both ends. *)
Definition strip (s : str) : str := rstrip (lstrip s).

(** [re.sub] of the pattern [\s+] by one space: every maximal run of whitespace becomes one
    space.  [in_run] tells that the previous character was whitespace. *)
Fixpoint sub_ws_runs (in_run : bool) (s : str) : str :=
  match s with
  | [] => []
  | c :: r =>
      if py_isspace c
      then (if in_run then sub_ws_runs true r else SPACE :: sub_ws_runs true r)
      else c :: sub_ws_runs false r
  end.

(** [re.sub] of a character class [cls] by the empty string. *)
Definition sub_class_empty (cls : char -> bool) (s : str) : str :=
  filter (fun c => negb (cls c)) s.

(** [s[:n]] with Python's meaning of a negative bound. *)
Definition slice_to (n : Z) (s : str) : str :=
  if (n <? 0)%Z
  then firstn (Z.to_nat (Z.of_nat (length s) + n)) s
  else firstn (Z.to_nat n) s.

(** [str(n)] for a non-negative integer. *)
Definition str_of_nat (n : nat) : str :=
  lit (NilEmpty.string_of_uint (Nat.to_uint n)).

(** Zero-padded decimal of at least [w] digits, as [%02d] / [%04d]. *)
Definition zero_pad (w : nat) (n : nat) : str :=
  let d := str_of_nat n in
  repeat 48%N (w - length d) ++ d.

End PyStr.

(** ** app/utils.py *)

Module Utils.
Import Py PyStr.

(** The character class of the second substitution: the nine characters
    less-than, greater-than, colon, double quote, slash, backslash, bar,
    question mark, star, and the control characters U+0000 to U+001F. *)
Definition windows_illegal (c : char) : bool :=
  ((c =? 60) || (c =? 62) || (c =? 58) || (c =? 34) || (c =? 47)
   || (c =? 92) || (c =? 124) || (c =? 63) || (c =? 42) || (c <=? 31))%N.

(** [sanitize_token(text, max_len)]; [None] stands for Python's [None],
    which the code replaces by the empty string. *)
Definition sanitize_token_len (text : option str) (max_len : Z) : str :=
  let text := strip (match text with Some t => t | None => [] end) in
  let text := sub_ws_runs false text in
  let text := sub_class_empty windows_illegal text in
  let text := strip text in
  match text with
  | [] => lit "NA"
  | _ => slice_to max_len text
  end.

Definition sanitize_token (text : str) : str :=
  sanitize_token_len (Some text) 60.

(** The calendar date read from the clock by [datetime.now()]. *)
Record date := { year : nat; month : nat; day : nat }.

(** [today_yyyy_mm_dd()], given the clock's date, in the format
    year-month-day with four, two and two digits. *)
Definition today_yyyy_mm_dd (today : date) : str :=
  zero_pad 4 (year today) ++ lit "-" ++ zero_pad 2 (month today)
  ++ lit "-" ++ zero_pad 2 (day today).

Definition build_tdms_filename (today : date)
    (project unit unit_state location : str) : str :=
  today_yyyy_mm_dd today ++ lit " - " ++ project ++ lit " - " ++ unit
  ++ lit " - " ++ unit_state ++ lit " - " ++ location ++ lit ".tdms".

(** The file name as [start_recording] builds it (main_window.py): the
    four user tokens go through [sanitize_token] first. *)
Definition recording_filename (today : date)
    (project unit state loc : str) : str :=
  let proj_tok := sanitize_token project in
  let unit_tok := sanitize_token unit in
  let state_tok := sanitize_token state in
  let loc_tok := sanitize_token loc in
  build_tdms_filename today proj_tok unit_tok state_tok loc_tok.

(** *** Paths and the file system *)

(** A [pathlib.Path], split into the directory part and the final
    component ([path.name]). *)
Record path := { parent : list str; name : str }.

Definition char_eqb : char -> char -> bool := N.eqb.

Fixpoint str_eqb (a b : str) : bool :=
  match a, b with
  | [], [] => true
  | x :: a', y :: b' => char_eqb x y && str_eqb a' b'
  | _, _ => false
  end.

Fixpoint parts_eqb (a b : list str) : bool :=
  match a, b with
  | [], [] => true
  | x :: a', y :: b' => str_eqb x y && parts_eqb a' b'
  | _, _ => false
  end.

Definition path_eqb (p q : path) : bool :=
  parts_eqb (parent p) (parent q) && str_eqb (name p) (name q).

(** The file system at the time of the call: the finitely many paths that
    exist. *)
Definition filesystem := list path.

(** [path.exists()] *)
Definition path_exists (fs : filesystem) (p : path) : bool :=
  existsb (path_eqb p) fs.

(** [name.rfind('.')]: index of the last dot, if any. *)
Fixpoint rfind_dot (s : str) : option nat :=
  match s with
  | [] => None
  | c :: r =>
      match rfind_dot r with
      | Some i => Some (S i)
      | None => if (c =? 46)%N then Some 0 else None
      end
  end.

(** Where [path.stem] ends and [path.suffix] begins: at the last dot when
    it is neither the first nor the last character, else at the end. *)
Definition split_point (nm : str) : nat :=
  match rfind_dot nm with
  | Some i => if (0 <? i) && (i <? length nm - 1) then i else length nm
  | None => length nm
  end.

Definition stem (p : path) : str := firstn (split_point (name p)) (name p).
Definition suffix (p : path) : str := skipn (split_point (name p)) (name p).

(** [path.with_name(new)]; pathlib refuses a path without a final
    component. *)
Definition with_name (p : path) (new : str) : result path :=
  match name p with
  | [] => Raise (ValueError "has an empty name")
  | _ => Ok {| parent := parent p; name := new |}
  end.

(** The name tried for counter [n]: the stem, a space, the counter in
    parentheses, the suffix. *)
Definition candidate_name (p : path) (n : nat) : str :=
  stem p ++ lit " (" ++ str_of_nat n ++ lit ")" ++ suffix p.

(** The [while True] loop of [increment_path], started at counter [n];
    [fuel] bounds the number of iterations the model follows, [None] means
    the bound is reached before the loop returns. *)
Fixpoint increment_loop (fs : filesystem) (p : path) (fuel n : nat)
  : option (result path) :=
  match fuel with
  | O => None
  | S fuel' =>
      match with_name p (candidate_name p n) with
      | Raise e => Some (Raise e)
      | Ok candidate =>
          if negb (path_exists fs candidate)
          then Some (Ok candidate)
          else increment_loop fs p fuel' (S n)
      end
  end.

Definition increment_path_fuel (fs : filesystem) (p : path) (fuel : nat)
  : option (result path) :=
  if negb (path_exists fs p) then Some (Ok p)
  else increment_loop fs p fuel 2.

(** One more iteration than there are existing paths always suffices
    (see [increment_loop_enough]). *)
Definition increment_path (fs : filesystem) (p : path) : option (result path) :=
  increment_path_fuel fs p (S (length fs)).

End Utils.

(** ** Python numbers *)

Module PyNum.
Import Py.
Local Open Scope R_scope.

(** A Python or NumPy float: a finite value, an infinity, or not-a-number.
    Finite values are real numbers.  The operations of this module and of
    [NumPy] are exact; those of [Binary64] round and overflow. *)
Inductive float :=
| Fin (r : R)
| PInf
| NInf
| NaN.

(** [round(x)] on a finite float: the nearest integer, a tie goes to the
    even neighbour. *)
Definition py_round (x : R) : Z :=
  let f := Zfloor x in
  let r := x - IZR f in
  if Rlt_dec r (1 / 2) then f
  else if Rlt_dec (1 / 2) r then (f + 1)%Z
  else if Z.even f then f else (f + 1)%Z.

(** [int(x)] on a finite float: truncation toward zero. *)
Definition py_int (x : R) : Z :=
  if Rle_dec 0 x then Zfloor x else (- Zfloor (- x))%Z.

(** [max(a, b)] keeps [a] unless [b] is greater. *)
Definition py_max (a b : R) : R := if Rlt_dec a b then b else a.

Definition log10 (x : R) : R := ln x / ln 10.

(** A gain as a level in decibel. *)
Definition dB (g : R) : R := 20 * log10 g.

(** [math.log10(x)] raises outside its domain. *)
Definition math_log10 (x : R) : result R :=
  if Rlt_dec 0 x then Ok (log10 x) else Raise (ValueError "math domain error").

(** [a / b] on Python floats. *)
Definition py_div (a b : R) : result R :=
  if Req_dec_T b 0 then Raise (ZeroDivisionError "float division by zero")
  else Ok (a / b).

End PyNum.

(** ** Binary64 arithmetic

    Where a property depends on the rounding, the overflow or the
    underflow of Python's floats, the arithmetic is that of IEEE 754
    binary64: a result is the real result rounded to the nearest number
    with 53 significant bits and an exponent of at least -1074, a tie
    going to the even neighbour, and it is an infinity when the rounded
    magnitude exceeds the largest finite number.  The sign of a zero is
    not kept. *)

Module Binary64.
Import Py PyNum.
Local Open Scope R_scope.

(** The exponent of the binade of [x]: the floor of its binary logarithm. *)
Definition mag (x : R) : Z := Zfloor (ln (Rabs x) / ln 2).

(** The exponent of the unit in the last place at [x]. *)
Definition ulp_exp (x : R) : Z := Z.max (mag x - 52) (-1074).

Definition ulp (x : R) : R := powerRZ 2 (ulp_exp x).

(** Rounding to nearest, ties to even, with the exponent unbounded above. *)
Definition nearest (x : R) : R := IZR (py_round (x / ulp x)) * ulp x.

(** [sys.float_info.max]. *)
Definition MAX : R := (2 ^ 53 - 1) * 2 ^ 971.

Definition round (x : R) : float :=
  let r := nearest x in
  if Rlt_dec MAX r then PInf
  else if Rlt_dec r (- MAX) then NInf
  else Fin r.

Definition inf_of_sign (positive : bool) : float :=
  if positive then PInf else NInf.

Definition is_pos (r : R) : bool := if Rlt_dec 0 r then true else false.

(** [a / b] on Python floats: a zero divisor raises, whatever [a] is. *)
Definition div (a b : float) : result float :=
  match b with
  | Fin y =>
      if Req_dec_T y 0
      then Raise (ZeroDivisionError "float division by zero")
      else
        Ok match a with
           | Fin x => round (x / y)
           | PInf => inf_of_sign (is_pos y)
           | NInf => inf_of_sign (negb (is_pos y))
           | NaN => NaN
           end
  | PInf | NInf =>
      Ok match a with
         | Fin _ => Fin 0
         | _ => NaN
         end
  | NaN => Ok NaN
  end.

(** [a * b] on Python floats. *)
Definition mul (a b : float) : float :=
  match a, b with
  | NaN, _ | _, NaN => NaN
  | Fin x, Fin y => round (x * y)
  | Fin x, PInf | PInf, Fin x =>
      if Req_dec_T x 0 then NaN else inf_of_sign (is_pos x)
  | Fin x, NInf | NInf, Fin x =>
      if Req_dec_T x 0 then NaN else inf_of_sign (negb (is_pos x))
  | PInf, PInf | NInf, NInf => PInf
  | PInf, NInf | NInf, PInf => NInf
  end.

(** [a < b]; false when either is not-a-number. *)
Definition lt (a b : float) : bool :=
  match a, b with
  | NaN, _ | _, NaN => false
  | _, NInf | PInf, _ => false
  | NInf, _ | _, PInf => true
  | Fin x, Fin y => if Rlt_dec x y then true else false
  end.

(** [a <= b]; false when either is not-a-number. *)
Definition le (a b : float) : bool :=
  match a, b with
  | NaN, _ | _, NaN => false
  | NInf, _ | _, PInf => true
  | _, NInf | PInf, _ => false
  | Fin x, Fin y => if Rle_dec x y then true else false
  end.

(** [max(a, b)] keeps [a] unless [b > a]. *)
Definition max (a b : float) : float := if lt a b then b else a.

(** [math.log10(x)]: not-a-number and plus infinity pass through, any
    other argument that is not positive raises; the C library's result is
    taken as correctly rounded. *)
Definition math_log10 (x : float) : result float :=
  match x with
  | NaN => Ok NaN
  | PInf => Ok PInf
  | NInf => Raise (ValueError "math domain error")
  | Fin r =>
      if Rlt_dec 0 r then Ok (round (log10 r))
      else Raise (ValueError "math domain error")
  end.

End Binary64.

(** ** The acquisition driver

    The NI-DAQmx driver is not part of the repository.  This is the
    behaviour of a finite acquisition with native TDMS logging that the
    recorder relies on: the task acquires at most the configured number of
    samples per channel, reports done once it has them all, and every
    acquired sample is written to the container, which the logging
    operation has emptied or kept.  Driver faults are not modelled: every
    call is taken to succeed, as it does on a valid configuration. *)

Module NiDaqmx.
Import PyStr.
Local Open Scope Z_scope.

Inductive LoggingOperation :=
| OPEN
| OPEN_OR_CREATE
| CREATE_OR_REPLACE
| CREATE.

(** What the outside can observe of a capture: the driver calls, in
    order, and the signals the worker emits. *)
Inductive event :=
| Task_create
| Add_ai_microphone_chan (physical_channel : str) (max_snd_press_level : R)
    (current_excit_val : R)
| Set_ai_coupling_AC
| Set_ai_microphone_sensitivity (sens : R)
| Cfg_samp_clk_timing_finite (rate : Z) (samps_per_chan : Z)
| Configure_logging (path : str) (group_name : str) (op : LoggingOperation)
| Task_start
| Task_stop
| Is_task_done
| Wait_until_done (timeout : R)
| Task_close
| Emit_elapsed (seconds : R)
| Emit_finished (filename : str).

(** [CREATE] and [CREATE_OR_REPLACE] start the container anew; [OPEN] and
    [OPEN_OR_CREATE] append to what the file holds. *)
Definition starts_anew (op : LoggingOperation) : bool :=
  match op with
  | CREATE_OR_REPLACE | CREATE => true
  | OPEN | OPEN_OR_CREATE => false
  end.

Record world := {
  events : list event;        (* newest first *)
  samps_per_chan : Z;         (* length of the finite acquisition *)
  acquired : Z;               (* total_samp_per_chan_acquired *)
  logging : bool;             (* native logging configured *)
  logged : Z;                 (* samples in the container's channel *)
  started : bool;
  now : R                     (* time.time() *)
}.

Definition log_event (e : event) (w : world) : world :=
  {| events := e :: events w; samps_per_chan := samps_per_chan w;
     acquired := acquired w; logging := logging w; logged := logged w;
     started := started w; now := now w |}.

(** The effect of a driver call on the task. *)
Definition do_call (e : event) (w : world) : world :=
  let w := log_event e w in
  match e with
  | Task_create =>
      {| events := events w; samps_per_chan := 0; acquired := 0;
         logging := false; logged := logged w; started := false; now := now w |}
  | Cfg_samp_clk_timing_finite _ n =>
      {| events := events w; samps_per_chan := n; acquired := acquired w;
         logging := logging w; logged := logged w; started := started w;
         now := now w |}
  | Configure_logging _ _ op =>
      {| events := events w; samps_per_chan := samps_per_chan w;
         acquired := acquired w; logging := true;
         logged := if starts_anew op then 0 else logged w;
         started := started w; now := now w |}
  | Task_start =>
      {| events := events w; samps_per_chan := samps_per_chan w;
         acquired := acquired w; logging := logging w; logged := logged w;
         started := true; now := now w |}
  | Task_stop =>
      {| events := events w; samps_per_chan := samps_per_chan w;
         acquired := acquired w; logging := logging w; logged := logged w;
         started := false; now := now w |}
  | _ => w
  end.

(** [task.is_task_done()] of a finite acquisition. *)
Definition is_done (w : world) : bool := samps_per_chan w <=? acquired w.

(** Time passes for [dt] seconds while the device delivers up to [k] more
    samples; a started task takes them until it has its configured
    number, and logs each one it takes. *)
Definition pass_time (dt : R) (k : Z) (w : world) : world :=
  let target := Z.max (acquired w)
                  (Z.min (samps_per_chan w) (acquired w + Z.max 0 k)) in
  let got := if started w then target else acquired w in
  {| events := events w; samps_per_chan := samps_per_chan w;
     acquired := got;
     logging := logging w;
     logged := if logging w then logged w + (got - acquired w) else logged w;
     started := started w;
     now := (now w + dt)%R |}.

(** One turn of a polling loop as the environment sees it: whether the
    stop request is set when the loop looks, and how many samples the
    device delivers during the following sleep. *)
Record tick := { stop_set : bool; arriving : Z }.

End NiDaqmx.

(** ** app/ni_recorder.py *)

Module NiRecorder.
Import Py PyStr PyNum NiDaqmx.
Local Open Scope R_scope.

Definition SAMPLE_RATE : Z := 25600.

Definition pa_to_db_spl_ref (p_pa pref : R) : result R :=
  let p_pa := py_max p_pa 1e-12 in
  bind (py_div p_pa pref) (fun q =>
  bind (math_log10 q) (fun l =>
  Ok (20 * l))).

(** [pa_to_db_spl(p_pa)] with the default reference of 20 micropascal. *)
Definition pa_to_db_spl (p_pa : R) : result R := pa_to_db_spl_ref p_pa 20e-6.

Definition estimate_max_spl_db (max_input_volts sensitivity_mV_per_Pa : R)
  : result R :=
  let sens_v_per_pa := sensitivity_mV_per_Pa / 1000 in
  if Rle_dec sens_v_per_pa 0 then Ok 140
  else
    bind (py_div max_input_volts sens_v_per_pa) (fun pmax_pa =>
    pa_to_db_spl pmax_pa).

(** The [while True] loop: stop request first, then completion, then a
    sleep of 20 ms.  [None]: the schedule of the environment ends while
    the loop is still polling. *)
Fixpoint poll (has_stop_event : bool) (ticks : list tick) (w : world)
  : option world :=
  match ticks with
  | [] => None
  | t :: rest =>
      if has_stop_event && stop_set t
      then Some (do_call Task_stop w)
      else
        let w := do_call Is_task_done w in
        if is_done w then Some w
        else poll has_stop_event rest (pass_time 0.02 (arriving t) w)
  end.

(** [record_microphone_to_tdms]; the result is the elapsed time or the
    exception, with the world it leaves. *)
Definition record_microphone_to_tdms
    (physical_channel tdms_path : str)
    (sensitivity_mV_per_Pa duration_s : R)
    (has_stop_event : bool) (group_name : str)
    (max_input_volts_for_estimate : R) (logging_operation : LoggingOperation)
    (ticks : list tick) (w : world) : option (result R * world) :=
  let total_samples := py_round (IZR SAMPLE_RATE * duration_s) in
  if (total_samples <=? 0)%Z
  then Some (Raise (ValueError "Duration too small; total_samples <= 0"), w)
  else
    match estimate_max_spl_db max_input_volts_for_estimate
            sensitivity_mV_per_Pa with
    | Raise e => Some (Raise e, w)
    | Ok max_spl_db =>
        let w := do_call Task_create w in
        let w := do_call (Add_ai_microphone_chan physical_channel
                            max_spl_db 0.004) w in
        let w := do_call Set_ai_coupling_AC w in
        let w := do_call (Set_ai_microphone_sensitivity
                            sensitivity_mV_per_Pa) w in
        let w := do_call (Cfg_samp_clk_timing_finite SAMPLE_RATE
                            total_samples) w in
        let w := do_call (Configure_logging tdms_path group_name
                            logging_operation) w in
        let w := do_call Task_start w in
        let t0 := now w in
        match poll has_stop_event ticks w with
        | None => None
        | Some w =>
            let t1 := now w in
            Some (Ok (t1 - t0), do_call Task_close w)
        end
    end.

End NiRecorder.

(** ** app/ni_recorder.py, the level estimate in binary64 *)

Module NiRecorder64.
Import Py PyNum Binary64.
Local Open Scope R_scope.

Definition pa_to_db_spl_ref (p_pa pref : float) : result float :=
  let p_pa := max p_pa (round 1e-12) in
  bind (div p_pa pref) (fun q =>
  bind (math_log10 q) (fun l =>
  Ok (mul (Fin 20) l))).

(** [pa_to_db_spl(p_pa)] with the default reference of 20 micropascal. *)
Definition pa_to_db_spl (p_pa : float) : result float :=
  pa_to_db_spl_ref p_pa (round 20e-6).

Definition estimate_max_spl_db (max_input_volts sensitivity_mV_per_Pa : float)
  : result float :=
  bind (div sensitivity_mV_per_Pa (Fin 1000)) (fun sens_v_per_pa =>
  if le sens_v_per_pa (Fin 0) then Ok (Fin 140)
  else
    bind (div max_input_volts sens_v_per_pa) (fun pmax_pa =>
    pa_to_db_spl pmax_pa)).

End NiRecorder64.

(** ** daq_worker.py *)

Module DaqWorker.
Import Py PyStr PyNum NiDaqmx.
Local Open Scope R_scope.

Definition SAMPLE_RATE : Z := 25600.

(** The loop of [run]: while the task is not done and the worker is still
    [running], emit the elapsed time and sleep 50 ms. *)
Fixpoint poll (ticks : list tick) (w : world) : option world :=
  match ticks with
  | [] => None
  | t :: rest =>
      let w := do_call Is_task_done w in
      if is_done w then Some w
      else if stop_set t then Some w
      else
        let w := log_event
                   (Emit_elapsed (IZR (acquired w) / IZR SAMPLE_RATE)) w in
        poll rest (pass_time 0.05 (arriving t) w)
  end.

(** [DAQWorker.run]; [late] is what the device still delivers while
    [wait_until_done] blocks.  The creation of the recordings folder, which
    precedes the driver calls, is left out, and the product of the
    duration and the rate is the exact one. *)
Definition run (channel : str) (sensitivity_mV_per_Pa duration_sec : R)
    (filepath filename : str) (ticks : list tick) (late : Z) (w : world)
  : option (result unit * world) :=
  let total_samples := py_int (duration_sec * IZR SAMPLE_RATE) in
  let w := do_call Task_create w in
  match py_div 5 sensitivity_mV_per_Pa with
  | Raise e => Some (Raise e, do_call Task_close w)
  | Ok max_level =>
      let w := do_call (Add_ai_microphone_chan channel max_level 0.004) w in
      let w := do_call Set_ai_coupling_AC w in
      let w := do_call (Set_ai_microphone_sensitivity
                          sensitivity_mV_per_Pa) w in
      let w := do_call (Cfg_samp_clk_timing_finite SAMPLE_RATE
                          total_samples) w in
      let w := do_call (Configure_logging filepath (lit "RawRecord")
                          CREATE_OR_REPLACE) w in
      let w := do_call Task_start w in
      match poll ticks w with
      | None => None
      | Some w =>
          let w := do_call (Wait_until_done (duration_sec + 2)) w in
          let w := pass_time 0 late w in
          if is_done w then
            let w := log_event
                       (Emit_elapsed (IZR (acquired w) / IZR SAMPLE_RATE)) w in
            let w := do_call Task_close w in
            Some (Ok tt, log_event (Emit_finished filename) w)
          else
            Some (Raise (DaqError "wait_until_done timed out"),
                  do_call Task_close w)
      end
  end.

End DaqWorker.

(** ** app/models.py *)

Module Models.
Import PyStr.

Record MicConfig := {
  physical_channel : str;
  sensitivity_mV_per_Pa : R;
  microphone_id : str
}.

Record RecordMeta := {
  unit : str;
  unit_state : str;
  location : str;
  duration_s : R
}.

(** The fields of [RecordResult] carry the prefix [result_], three of
    them having the names of fields of [RecordMeta]. *)
Record RecordResult := {
  result_tdms_path : str;
  result_duration_s : R;
  result_timestamp_iso : str;
  result_unit_state : str;
  result_location : str
}.

End Models.

(** ** app/recorder_worker.py *)

Module RecorderWorker.
Import Py PyStr NiDaqmx Models.

(** The three Qt signals of the worker. *)
Inductive signal :=
| status (text : string)
| finished (r : RecordResult)
| error (msg : string).

(** [str(e)] *)
Definition str_of_exn (e : exn) : string :=
  match e with
  | ValueError msg | ZeroDivisionError msg | DaqError msg => msg
  end.

(** [RecorderWorker.run]: the signals it emits, oldest first, and the
    world it leaves.  [tdms_path] is the path as text, [timestamp] what
    [iso_timestamp_seconds] reads from the clock when the capture is
    over. *)
Definition run (mic_cfg : MicConfig) (record_meta : RecordMeta)
    (has_stop_event : bool) (tdms_path : str)
    (logging_operation : LoggingOperation) (timestamp : str)
    (ticks : list tick) (w : world) : option (list signal * world) :=
  match NiRecorder.record_microphone_to_tdms
          (physical_channel mic_cfg) tdms_path
          (sensitivity_mV_per_Pa mic_cfg) (duration_s record_meta)
          has_stop_event (lit "RawRecord") 5 logging_operation ticks w with
  | None => None
  | Some (Ok elapsed, w) =>
      let result := {| result_tdms_path := tdms_path;
                       result_duration_s := elapsed;
                       result_timestamp_iso := timestamp;
                       result_unit_state := unit_state record_meta;
                       result_location := location record_meta |} in
      Some ([status "Recording"; status "Idle"; finished result], w)
  | Some (Raise e, w) =>
      Some ([status "Recording"; status "Idle"; error (str_of_exn e)], w)
  end.

End RecorderWorker.

(** ** app/main_window.py: what [start_recording] decides *)

Module MainWindow.
Import Py PyStr Utils NiDaqmx.
Import Models (MicConfig, Build_MicConfig, physical_channel,
               sensitivity_mV_per_Pa, microphone_id).

(** The widgets that [start_recording] reads. *)
Record form := {
  le_project : str;
  le_unit : str;
  le_state : str;
  le_location : str;
  sb_duration : R;
  le_path : str;
  cb_channel : str;
  sb_sens : R;
  le_mic_id : str
}.

(** The button clicked in the dialog of [_ask_file_exists]; the dialog can
    also be closed without any of the three. *)
Inductive button :=
| btn_increment
| btn_overwrite
| btn_cancel
| no_button.

Definition _ask_file_exists (clicked : button) : string :=
  match clicked with
  | btn_increment => "increment"
  | btn_overwrite => "overwrite"
  | _ => "cancel"
  end.

(** What the method finds around it: the date, the folder that the
    storage text resolves to and how it prints, whether that folder
    exists, the answer to the question whether to create it, the message
    of the error if creating it fails, the files that exist, and the
    button clicked if the file dialog is shown. *)
Record surroundings := {
  today : date;
  base_dir : list str;
  base_dir_text : str;
  base_dir_exists : bool;
  create_folder : bool;
  mkdir_error : option str;
  files : filesystem;
  clicked : button
}.

(** What the worker thread is started with: the microphone
    configuration, the duration of the record, the target file and the
    logging operation.  The descriptive fields of the record, which the
    worker only passes on, are left out. *)
Record launch := {
  mic_cfg : MicConfig;
  duration_s : R;
  tdms_path : path;
  logging_operation : LoggingOperation
}.

Inductive outcome :=
| Error_box (title : string) (msg : str)   (* [self._error], then return *)
| Returned                                 (* return, nothing started *)
| Raised (e : exn)
| Started (l : launch).

Definition is_empty (s : str) : bool :=
  match s with [] => true | _ => false end.

(** [s.startswith("(")] *)
Definition startswith_paren (s : str) : bool :=
  match s with c :: _ => (c =? 40)%N | [] => false end.

Definition missing (msg : string) : option outcome :=
  Some (Error_box "Missing info" (lit msg)).

(** [start_recording], up to the start of the worker thread.  The
    settings it stores and the widgets it updates are left out, and so is
    the call of [ensure_dir] on the folder that is there by then; [None]
    stands for a collision loop that the model stops following. *)
Definition start_recording (f : form) (s : surroundings) : option outcome :=
  let project := strip (le_project f) in
  let unit := strip (le_unit f) in
  let state := strip (le_state f) in
  let loc := strip (le_location f) in
  let duration := sb_duration f in
  let storage := strip (le_path f) in
  if is_empty project then missing "Project Name is required."
  else if is_empty unit then missing "Unit Number is required."
  else if is_empty state || is_empty loc
  then missing "Unit State and Location are required."
  else if is_empty storage then missing "Storage Path is required."
  else
    let ch := strip (cb_channel f) in
    if is_empty ch || startswith_paren ch
    then missing "Select a valid NI channel (e.g., cDAQ1Mod1/ai0)."
    else
      let folder : option outcome :=
        if base_dir_exists s then None
        else if negb (create_folder s) then Some Returned
        else
          match mkdir_error s with
          | Some e =>
              Some (Error_box "Cannot create folder"
                      (base_dir_text s ++ [10; 10]%N ++ e))
          | None => None
          end in
      match folder with
      | Some o => Some o
      | None =>
          let filename := recording_filename (today s) project unit state loc in
          let tdms_path := {| parent := base_dir s; name := filename |} in
          let logging_operation := CREATE_OR_REPLACE in
          let target : option (result (option path)) :=
            if path_exists (files s) tdms_path then
              let choice := _ask_file_exists (clicked s) in
              if String.eqb choice "cancel" then Some (Ok None)
              else if String.eqb choice "increment" then
                match increment_path (files s) tdms_path with
                | None => None
                | Some (Raise e) => Some (Raise e)
                | Some (Ok p) => Some (Ok (Some p))
                end
              else Some (Ok (Some tdms_path))
            else Some (Ok (Some tdms_path)) in
          match target with
          | None => None
          | Some (Raise e) => Some (Raised e)
          | Some (Ok None) => Some Returned
          | Some (Ok (Some p)) =>
              let mic_cfg :=
                {| physical_channel := ch;
                   sensitivity_mV_per_Pa := sb_sens f;
                   microphone_id := strip (le_mic_id f) |} in
              Some (Started
                      {| mic_cfg := mic_cfg;
                         duration_s := duration;
                         tdms_path := p;
                         logging_operation := logging_operation |})
          end
      end.

End MainWindow.

(** ** NumPy arrays of floats *)

Module NumPy.
Import Py PyNum.
Local Open Scope R_scope.

(** Arithmetic of float64 with its non-finite values; signed zeros are
    not told apart. *)

Definition is_pos (r : R) : bool := if Rlt_dec 0 r then true else false.
Definition is_zero (r : R) : bool := if Req_dec_T r 0 then true else false.
Definition inf_of_sign (positive : bool) : float :=
  if positive then PInf else NInf.

Definition isfinite (v : float) : bool :=
  match v with Fin _ => true | _ => false end.

Definition fneg (v : float) : float :=
  match v with
  | Fin r => Fin (- r)
  | PInf => NInf
  | NInf => PInf
  | NaN => NaN
  end.

Definition fadd (a b : float) : float :=
  match a, b with
  | NaN, _ | _, NaN => NaN
  | Fin x, Fin y => Fin (x + y)
  | PInf, NInf | NInf, PInf => NaN
  | PInf, _ | _, PInf => PInf
  | NInf, _ | _, NInf => NInf
  end.

Definition fsub (a b : float) : float := fadd a (fneg b).

Definition fmul (a b : float) : float :=
  match a, b with
  | NaN, _ | _, NaN => NaN
  | Fin x, Fin y => Fin (x * y)
  | Fin x, PInf | PInf, Fin x =>
      if is_zero x then NaN else inf_of_sign (is_pos x)
  | Fin x, NInf | NInf, Fin x =>
      if is_zero x then NaN else inf_of_sign (negb (is_pos x))
  | PInf, PInf | NInf, NInf => PInf
  | PInf, NInf | NInf, PInf => NInf
  end.

Definition fdiv (a b : float) : float :=
  match a, b with
  | NaN, _ | _, NaN => NaN
  | Fin x, Fin y =>
      if is_zero y
      then (if is_zero x then NaN else inf_of_sign (is_pos x))
      else Fin (x / y)
  | Fin _, _ => Fin 0
  | PInf, Fin y => inf_of_sign (is_zero y || is_pos y)
  | NInf, Fin y => inf_of_sign (negb (is_zero y || is_pos y))
  | _, _ => NaN
  end.

(** [np.sqrt] *)
Definition fsqrt (v : float) : float :=
  match v with
  | Fin r => if Rlt_dec r 0 then NaN else Fin (sqrt r)
  | PInf => PInf
  | _ => NaN
  end.

(** [np.log10]: minus infinity at zero, not-a-number below. *)
Definition flog10 (v : float) : float :=
  match v with
  | Fin r => if Rlt_dec 0 r then Fin (log10 r)
             else if is_zero r then NInf else NaN
  | PInf => PInf
  | _ => NaN
  end.

(** [a <= b]; false whenever a not-a-number is involved. *)
Definition fle (a b : float) : bool :=
  match a, b with
  | NaN, _ | _, NaN => false
  | Fin x, Fin y => if Rle_dec x y then true else false
  | NInf, _ => true
  | _, PInf => true
  | _, _ => false
  end.

Definition ndarray := list float.

(** [np.nan_to_num(a, nan=0.0, posinf=0.0, neginf=0.0)] *)
Definition nan_to_num (a : ndarray) : ndarray :=
  map (fun v => match v with Fin r => Fin r | _ => Fin 0 end) a.

Definition fsum (a : ndarray) : float := fold_left fadd a (Fin 0).

(** [np.mean(a)] *)
Definition mean (a : ndarray) : float :=
  fdiv (fsum a) (Fin (INR (length a))).

End NumPy.

(** ** Complex numbers, for frequency responses *)

Module Cx.
Local Open Scope R_scope.

Definition C : Type := R * R.
Definition re (z : C) : R := fst z.
Definition im (z : C) : R := snd z.
Definition RtoC (x : R) : C := (x, 0).
Definition Ci : C := (0, 1).
Definition Cadd (a b : C) : C := (re a + re b, im a + im b).
Definition Copp (a : C) : C := (- re a, - im a).
Definition Csub (a b : C) : C := Cadd a (Copp b).
Definition Cmul (a b : C) : C :=
  (re a * re b - im a * im b, re a * im b + im a * re b).
(** Squared modulus. *)
Definition Cnorm2 (a : C) : R := re a * re a + im a * im a.
Definition Cinv (a : C) : C := (re a / Cnorm2 a, - im a / Cnorm2 a).
Definition Cdiv (a b : C) : C := Cmul a (Cinv b).
Definition Cmod (a : C) : R := sqrt (Cnorm2 a).
Fixpoint Cpow (a : C) (n : nat) : C :=
  match n with
  | O => RtoC 1
  | S n' => Cmul a (Cpow a n')
  end.
(** The point of the unit circle at angle [w]. *)
Definition cis (w : R) : C := (cos w, sin w).

(** [np.polyval(p, z)] for real coefficients, highest power first. *)
Definition polyval (p : list R) (z : C) : C :=
  fold_left (fun acc c => Cadd (Cmul acc z) (RtoC c)) p (RtoC 0).

End Cx.

(** ** The parts of SciPy the analyzer calls

    SciPy is not part of the repository.  Polynomials are coefficient
    lists with the highest power first, as NumPy has them. *)

Module SciPy.
Import Cx.
Local Open Scope R_scope.

Fixpoint padd_low (p q : list R) : list R :=
  match p, q with
  | [], _ => q
  | _, [] => p
  | a :: p', b :: q' => (a + b) :: padd_low p' q'
  end.

(** Product of two polynomials given lowest power first. *)
Fixpoint pmul_low (p q : list R) : list R :=
  match p with
  | [] => []
  | a :: p' => padd_low (map (Rmult a) q) (0 :: pmul_low p' q)
  end.

Fixpoint ppow_low (p : list R) (n : nat) : list R :=
  match n with
  | O => [1]
  | S n' => pmul_low p (ppow_low p n')
  end.

(** [np.polymul(p, q)] *)
Definition polymul (p q : list R) : list R :=
  rev (pmul_low (rev p) (rev q)).

(** The sum over [j] of [c_j (2 fs)^(i+j) (z-1)^(i+j) (z+1)^(M-i-j)] as a
    polynomial in [z], lowest power first: the substitution
    [s = 2 fs (z-1)/(z+1)] in a polynomial with coefficients [c] (lowest
    first, starting at power [i]), cleared of its denominator
    [(z+1)^M]. *)
Fixpoint bilinear_low (c : list R) (i M : nat) (fs : R) : list R :=
  match c with
  | [] => []
  | cj :: rest =>
      padd_low
        (map (Rmult (cj * (2 * fs) ^ i))
             (pmul_low (ppow_low [-1; 1] i) (ppow_low [1; 1] (M - i))))
        (bilinear_low rest (S i) M fs)
  end.

(** [signal.bilinear(b, a, fs)]: the digital transfer function, both
    polynomials normalised by the leading denominator coefficient. *)
Definition bilinear (b a : list R) (fs : R) : list R * list R :=
  let M := Nat.max (length b - 1) (length a - 1) in
  let bprime := rev (bilinear_low (rev b) 0 M fs) in
  let aprime := rev (bilinear_low (rev a) 0 M fs) in
  let a0 := hd 0 aprime in
  (map (fun c => c / a0) bprime, map (fun c => c / a0) aprime).

(** A cascade of second-order sections.  [signal.tf2sos] only regroups
    the factors of a transfer function into sections of order two; the
    cascade is kept as the transfer function it realises, which
    determines its frequency response. *)
Record sections := { num : list R; den : list R }.

Definition tf2sos (b a : list R) : sections := {| num := b; den := a |}.

(** The frequency response of a cascade at the point [z] of the unit
    circle. *)
Definition response (sos : sections) (z : C) : C :=
  Cdiv (polyval (num sos) z) (polyval (den sos) z).

(** The gain of a cascade at the frequency [f] (in Hz) when it runs at
    the sample rate [fs]: the modulus of its response at the angle
    [2 pi f / fs]. *)
Definition gain (sos : sections) (fs f : R) : R :=
  Cmod (response sos (cis (2 * PI * f / fs))).

End SciPy.

(** ** GGHydroSoundAnalyzer/main.py *)

Module Analyzer.
Import Py PyNum NumPy SciPy.
Local Open Scope R_scope.

(** What a call leaves behind: its result, and what it reported on the
    way (warnings, printed or logged messages). *)
Record outcome (A : Type) := {
  returned : result A;
  reported : list string
}.
Arguments returned {A} o.
Arguments reported {A} o.

Definition ret {A : Type} (a : A) : outcome A :=
  {| returned := Ok a; reported := [] |}.
Definition raise {A : Type} (e : exn) : outcome A :=
  {| returned := Raise e; reported := [] |}.
Definition tell (msg : string) : outcome unit :=
  {| returned := Ok tt; reported := [msg] |}.
Definition and_then {A B : Type} (m : outcome A) (k : A -> outcome B)
  : outcome B :=
  match returned m with
  | Ok a => {| returned := returned (k a);
               reported := reported m ++ reported (k a) |}
  | Raise e => {| returned := Raise e; reported := reported m |}
  end.
Definition lift {A : Type} (r : result A) : outcome A :=
  {| returned := r; reported := [] |}.

(** Reference sound pressure, 20 micropascal. *)
Definition P0 : R := 20e-6.

Definition f1 : R := 20.598997.
Definition f2 : R := 107.65265.
Definition f3 : R := 737.86223.
Definition f4 : R := 12194.217.
Definition A1000 : R := 1.9997.

Definition NUM : list R :=
  [(2 * PI * f4) ^ 2 * Rpower 10 (A1000 / 20); 0; 0; 0; 0].

Definition DEN : list R :=
  polymul [1; 4 * PI * f4; (2 * PI * f4) ^ 2]
    (polymul [1; 4 * PI * f1; (2 * PI * f1) ^ 2]
       (polymul [1; 2 * PI * f3] [1; 2 * PI * f2])).

Definition design_a_weighting_sos (fs : R) : outcome sections :=
  if Rle_dec fs 0
  then raise (ValueError "Sampling frequency must be positive.")
  else
    let (b_z, a_z) := bilinear NUM DEN fs in
    ret (tf2sos b_z a_z).

Section WithFilter.

(** [signal.sosfiltfilt(sos, x)]: zero-phase filtering of [x] by the
    cascade; SciPy raises when [x] is not longer than its padding. *)
Variable sosfiltfilt : sections -> ndarray -> result ndarray.

Definition compute_la_eq (pressure_pa : ndarray) (fs : R) : outcome float :=
  if (length pressure_pa =? 0)%nat
  then raise (ValueError "Empty signal.")
  else
    let pressure_pa :=
      if negb (forallb isfinite pressure_pa)
      then nan_to_num pressure_pa
      else pressure_pa in
    let x := map (fun v => fsub v (mean pressure_pa)) pressure_pa in
    and_then (design_a_weighting_sos fs) (fun sos =>
    and_then (lift (sosfiltfilt sos x)) (fun x_a =>
    let p_rms_a := fsqrt (mean (map (fun v => fmul v v) x_a)) in
    if fle p_rms_a (Fin 0)
    then ret NInf
    else ret (fmul (Fin 20) (flog10 (fdiv p_rms_a (Fin P0)))))).

(** *** The same routine over a store of arrays

    Python passes arrays by reference.  Here the arrays live in a store
    and names hold references, so that it shows which arrays a call
    writes: every NumPy operation of the routine allocates its result. *)

Definition ref := nat.
Definition store := list ndarray.

Definition read (st : store) (r : ref) : ndarray := nth r st [].
Definition alloc (a : ndarray) (st : store) : ref * store :=
  (length st, st ++ [a]).

Definition compute_la_eq_in (st : store) (pressure_pa : ref) (fs : R)
  : outcome float * store :=
  if (length (read st pressure_pa) =? 0)%nat
  then (raise (ValueError "Empty signal."), st)
  else
    (* the local name is rebound to the copy; the caller's array stays *)
    let (pressure_pa, st) :=
      if negb (forallb isfinite (read st pressure_pa))
      then alloc (nan_to_num (read st pressure_pa)) st
      else (pressure_pa, st) in
    let (x, st) :=
      alloc (map (fun v => fsub v (mean (read st pressure_pa)))
                 (read st pressure_pa)) st in
    match returned (design_a_weighting_sos fs) with
    | Raise e => (raise e, st)
    | Ok sos =>
        match sosfiltfilt sos (read st x) with
        | Raise e => (raise e, st)
        | Ok filtered =>
            let (x_a, st) := alloc filtered st in
            let (squares, st) :=
              alloc (map (fun v => fmul v v) (read st x_a)) st in
            let p_rms_a := fsqrt (mean (read st squares)) in
            if fle p_rms_a (Fin 0)
            then (ret NInf, st)
            else (ret (fmul (Fin 20) (flog10 (fdiv p_rms_a (Fin P0)))), st)
        end
    end.

End WithFilter.

(** *** One filter to run the routine with

    Forward and backward pass of the direct-form recurrence of the
    transfer function, without padding: an instance of the zero-phase
    filtering that SciPy provides, used to run the routine on examples. *)

(** One output sample: [sum b_k x[n-k] - sum_(k>0) a_k y[n-k]], for a
    transfer function normalised to [a_0 = 1], with the past inputs [xs]
    and outputs [ys] newest first. *)
Fixpoint dot (c : list R) (v : ndarray) : float :=
  match c, v with
  | k :: c', s :: v' => fadd (fmul (Fin k) s) (dot c' v')
  | _, _ => Fin 0
  end.

Fixpoint lfilter_from (b a : list R) (xs ys : ndarray) (x : ndarray)
  : ndarray :=
  match x with
  | [] => []
  | s :: rest =>
      let xs := s :: xs in
      let y := fsub (dot b xs) (dot (tl a) ys) in
      y :: lfilter_from b a xs (y :: ys) rest
  end.

Definition lfilter (sos : sections) (x : ndarray) : ndarray :=
  lfilter_from (num sos) (den sos) [] [] x.

Definition direct_filtfilt (sos : sections) (x : ndarray) : result ndarray :=
  Ok (rev (lfilter sos (rev (lfilter sos x)))).

End Analyzer.

(** ** GGHydroSoundAnalyzer/main.py over any SciPy

    SciPy is not part of the repository, and its calls fail and warn in
    ways that [SciPy] above does not show: the bilinear transform and the
    conversion to sections break down at extreme sample rates, and the
    filtering rejects an input that is not longer than its padding.  Here
    are the two routines again, with the three SciPy calls as parameters
    that may raise and may report. *)

Module AnalyzerLib.
Import Py PyNum NumPy SciPy Analyzer.
Local Open Scope R_scope.

Section WithSciPy.

Variable bilinear : list R -> list R -> R -> outcome (list R * list R).
Variable tf2sos : list R -> list R -> outcome sections.
Variable sosfiltfilt : sections -> ndarray -> outcome ndarray.

Definition design_a_weighting_sos (fs : R) : outcome sections :=
  if Rle_dec fs 0
  then raise (ValueError "Sampling frequency must be positive.")
  else
    and_then (bilinear NUM DEN fs) (fun ba =>
    let b_z := fst ba in
    let a_z := snd ba in
    tf2sos b_z a_z).

Definition compute_la_eq (pressure_pa : ndarray) (fs : R) : outcome float :=
  if (length pressure_pa =? 0)%nat
  then raise (ValueError "Empty signal.")
  else
    let pressure_pa :=
      if negb (forallb isfinite pressure_pa)
      then nan_to_num pressure_pa
      else pressure_pa in
    let x := map (fun v => fsub v (mean pressure_pa)) pressure_pa in
    and_then (design_a_weighting_sos fs) (fun sos =>
    and_then (sosfiltfilt sos x) (fun x_a =>
    let p_rms_a := fsqrt (mean (map (fun v => fmul v v) x_a)) in
    if fle p_rms_a (Fin 0)
    then ret NInf
    else ret (fmul (Fin 20) (flog10 (fdiv p_rms_a (Fin P0)))))).

End WithSciPy.

(** *** SciPy where it succeeds

    The transform and the conversion of [SciPy], which return and report
    nothing, and a filter that, like [signal.sosfiltfilt] with its default
    padding for three sections, rejects an input of 21 samples or fewer
    and otherwise runs the forward and backward pass. *)

Definition quiet_bilinear (b a : list R) (fs : R)
  : outcome (list R * list R) := ret (SciPy.bilinear b a fs).

Definition quiet_tf2sos (b a : list R) : outcome sections :=
  ret (SciPy.tf2sos b a).

Definition PADLEN : nat := 21.

Definition too_short : exn :=
  ValueError
    "The length of the input vector x must be greater than padlen, which is 21.".

Definition padded_filtfilt (sos : sections) (x : ndarray) : outcome ndarray :=
  if (length x <=? PADLEN)%nat
  then raise too_short
  else lift (direct_filtfilt sos x).

End AnalyzerLib.

(** ** GGHydroSoundAnalyzer/main.py: the sampling rate of a channel *)

Module TdmsChannel.
Import Py PyNum NumPy.
Local Open Scope string_scope.

(** A property value, as far as [float(...)] tells values apart: one that
    converts to a float, or one on which the conversion raises. *)
Inductive value :=
| Number (v : float)
| Other.

(** [float(v)]; [None] when it raises. *)
Definition py_float (v : value) : option float :=
  match v with
  | Number x => Some x
  | Other => None
  end.

(** The [properties] of a channel: a dictionary with text keys, as the
    list of its items. *)
Definition properties := list (string * value).

(** [props[key]], defined when [key in props]. *)
Fixpoint lookup (key : string) (props : properties) : option value :=
  match props with
  | [] => None
  | (k, v) :: rest => if String.eqb k key then Some v else lookup key rest
  end.

(** The truth value of a float: false only for zero. *)
Definition truthy (x : float) : bool :=
  match x with
  | Fin r => negb (is_zero r)
  | _ => true
  end.

(** [x > 0] *)
Definition positive (x : float) : bool :=
  match x with
  | Fin r => is_pos r
  | PInf => true
  | _ => false
  end.

Definition dt_keys : list string :=
  ["wf_increment"; "dt"; "Waveform dt"; "wf dt"].

Definition fs_keys : list string :=
  ["fs"; "sampling_rate"; "SamplingRate"; "sample_rate";
   "wf_samples_per_second"].

(** The first loop: [dt] is the first value under one of the keys that
    converts, and the loop breaks there; [None] when there is none. *)
Fixpoint first_dt (keys : list string) (props : properties) : option float :=
  match keys with
  | [] => None
  | key :: rest =>
      match lookup key props with
      | Some v =>
          match py_float v with
          | Some dt => Some dt
          | None => first_dt rest props
          end
      | None => first_dt rest props
      end
  end.

(** The second loop: the first value under one of the keys that converts
    and is positive is returned. *)
Fixpoint first_fs (keys : list string) (props : properties) : option float :=
  match keys with
  | [] => None
  | key :: rest =>
      match lookup key props with
      | Some v =>
          match py_float v with
          | Some fs => if positive fs then Some fs else first_fs rest props
          | None => first_fs rest props
          end
      | None => first_fs rest props
      end
  end.

(** [try_get_sampling_rate_from_tdms_channel(ch)], given the properties
    of the channel; [None] is Python's [None]. *)
Definition try_get_sampling_rate_from_tdms_channel (props : properties)
  : option float :=
  let dt := first_dt dt_keys props in
  match dt with
  | Some d =>
      if truthy d && positive d then Some (fdiv (Fin 1) d)
      else first_fs fs_keys props
  | None => first_fs fs_keys props
  end.

End TdmsChannel.

(** ** The file name rule as the specification words it *)

Module SpecWording.
Import PyStr Utils.

(** The specification lists the steps of the token sanitising in this
    order: remove the illegal and control characters, collapse internal
    whitespace to single spaces, strip surrounding whitespace, truncate,
    and replace an empty token by the placeholder. *)
Definition sanitize_as_worded (text : str) : str :=
  let text := sub_class_empty windows_illegal text in
  let text := sub_ws_runs false text in
  let text := strip text in
  let text := slice_to 60 text in
  match text with
  | [] => lit "NA"
  | _ => text
  end.

Definition filename_as_worded (today : date)
    (project unit state loc : str) : str :=
  today_yyyy_mm_dd today ++ lit " - " ++ sanitize_as_worded project
  ++ lit " - " ++ sanitize_as_worded unit
  ++ lit " - " ++ sanitize_as_worded state
  ++ lit " - " ++ sanitize_as_worded loc ++ lit ".tdms".

Section Reference.
Local Open Scope R_scope.

(** The standard A-weighting reference curve, which the specification
    names without giving it: the curve of IEC 61672-1 as a gain at the
    frequency [f] in Hz, with the four corner frequencies and the 1 kHz
    alignment constant that the code uses. *)
Definition a_weighting_gain (f : R) : R :=
  let f1 := Analyzer.f1 in
  let f2 := Analyzer.f2 in
  let f3 := Analyzer.f3 in
  let f4 := Analyzer.f4 in
  Rpower 10 (Analyzer.A1000 / 20) * (f4 ^ 2 * f ^ 4)
  / ((f ^ 2 + f1 ^ 2) * sqrt (f ^ 2 + f2 ^ 2) * sqrt (f ^ 2 + f3 ^ 2)
     * (f ^ 2 + f4 ^ 2)).

(** The accuracy that the specification asks of the filter designed for
    the sample rate [fs]: within 0.3 dB of the reference curve from 20 Hz
    to 10 kHz, within 0.05 dB of 0 dB at 1000 Hz, and within 2 dB of
    minus 50 dB at 20 Hz. *)
Definition meets_accuracy (fs : R) : Prop :=
  forall sos,
    Analyzer.returned (Analyzer.design_a_weighting_sos fs) = Py.Ok sos ->
    (forall f, 20 <= f <= 10000 ->
       Rabs (PyNum.dB (SciPy.gain sos fs f) - PyNum.dB (a_weighting_gain f))
       <= 0.3) /\
    Rabs (PyNum.dB (SciPy.gain sos fs 1000)) <= 0.05 /\
    Rabs (PyNum.dB (SciPy.gain sos fs 20) + 50) <= 2.

End Reference.

(** The level computation in the words of the specification: replace the
    non-finite samples by zero, counting them and reporting the count;
    subtract the arithmetic mean; filter with the designed cascade,
    forward and backward; take the root mean square; return the sentinel
    when it is zero, and otherwise 20 log10 of its ratio to the reference
    pressure of 20 micropascal.  [report] tells whether the count is
    reported. *)
Section Level.
Import Py PyNum NumPy SciPy Analyzer.
Local Open Scope R_scope.

Variable sosfiltfilt : sections -> ndarray -> result ndarray.

Definition replaced_count (samples : ndarray) : nat :=
  length (filter (fun v => negb (isfinite v)) samples).

Definition sanitized_values (samples : ndarray) : list R :=
  map (fun v => match v with Fin r => r | _ => 0 end) samples.

Definition replaced_report (n : nat) : string :=
  ("non-finite samples replaced: "
   ++ NilEmpty.string_of_uint (Nat.to_uint n))%string.

Definition arithmetic_mean (v : list R) : R :=
  fold_left Rplus v 0 / INR (length v).

Definition rms_is_zero (rms : float) : bool :=
  match rms with Fin r => is_zero r | _ => false end.

Definition level_pipeline (report : bool) (samples : ndarray) (fs : R)
  : outcome float :=
  let clean := sanitized_values samples in
  and_then (if report then tell (replaced_report (replaced_count samples))
            else ret tt) (fun _ =>
  let centred := map (fun v => Fin (v - arithmetic_mean clean)) clean in
  and_then (design_a_weighting_sos fs) (fun sos =>
  and_then (lift (sosfiltfilt sos centred)) (fun filtered =>
  let rms := fsqrt (mean (map (fun v => fmul v v) filtered)) in
  if rms_is_zero rms
  then ret NInf
  else ret (fmul (Fin 20) (flog10 (fdiv rms (Fin 20e-6))))))).

Definition level_as_worded : ndarray -> R -> outcome float :=
  level_pipeline true.

End Level.

End SpecWording.

(* ================================================================== *)
(** * Properties *)
(* ================================================================== *)

(** ** Collision increment (app/utils.py, [increment_path]) *)

Module IncrementFacts.
Import Py PyStr Utils.

Lemma str_eqb_eq (a b : str) : str_eqb a b = true <-> a = b.
Proof.
  revert b; induction a as [|x a IH]; intros [|y b]; simpl;
    try (split; [discriminate | discriminate]); try tauto.
  unfold char_eqb. rewrite andb_true_iff, N.eqb_eq, IH.
  split; [intros [-> ->]; reflexivity | intros H; inversion H; auto].
Qed.

Lemma parts_eqb_eq (a b : list str) : parts_eqb a b = true <-> a = b.
Proof.
  revert b; induction a as [|x a IH]; intros [|y b]; simpl;
    try (split; [discriminate | discriminate]); try tauto.
  rewrite andb_true_iff, str_eqb_eq, IH.
  split; [intros [-> ->]; reflexivity | intros H; inversion H; auto].
Qed.

Lemma path_eqb_eq (p q : path) : path_eqb p q = true <-> p = q.
Proof.
  unfold path_eqb. rewrite andb_true_iff, parts_eqb_eq, str_eqb_eq.
  destruct p, q; simpl. split.
  - intros [-> ->]; reflexivity.
  - intros H; inversion H; auto.
Qed.

Lemma path_exists_In (fs : filesystem) (p : path) :
  path_exists fs p = true <-> In p fs.
Proof.
  unfold path_exists. rewrite existsb_exists. split.
  - intros [q [Hq He]]. apply path_eqb_eq in He. subst; exact Hq.
  - intros H. exists p. split; [exact H | apply path_eqb_eq; reflexivity].
Qed.

Lemma lit_inj (s t : string) : lit s = lit t -> s = t.
Proof.
  unfold lit. intros H.
  rewrite <- (string_of_list_ascii_of_string s),
          <- (string_of_list_ascii_of_string t).
  f_equal.
  revert H. generalize (list_ascii_of_string s) (list_ascii_of_string t).
  induction l as [|a l IH]; intros [|b l']; simpl; try discriminate; auto.
  intros H. inversion H as [[Hab Hl]]. f_equal; auto.
  rewrite <- (ascii_N_embedding a), <- (ascii_N_embedding b), Hab.
  reflexivity.
Qed.

Lemma str_of_nat_inj (n m : nat) : str_of_nat n = str_of_nat m -> n = m.
Proof.
  unfold str_of_nat. intros H. apply lit_inj in H.
  apply Unsigned.to_uint_inj.
  assert (E : Some (Nat.to_uint n) = Some (Nat.to_uint m)).
  { rewrite <- (NilEmpty.usu (Nat.to_uint n)),
            <- (NilEmpty.usu (Nat.to_uint m)), H. reflexivity. }
  inversion E; reflexivity.
Qed.

Lemma candidate_name_inj (p : path) (n m : nat) :
  candidate_name p n = candidate_name p m -> n = m.
Proof.
  unfold candidate_name. intros H.
  apply app_inv_head in H. apply app_inv_head in H.
  rewrite !app_assoc in H. apply app_inv_tail in H. apply app_inv_tail in H.
  apply str_of_nat_inj; exact H.
Qed.

Section Loop.
Variable fs : filesystem.
Variable p : path.
Hypothesis named : name p <> [].

(** The candidate path for counter [n]. *)
Let candidate (n : nat) : path :=
  {| parent := parent p; name := candidate_name p n |}.

Lemma with_name_candidate (n : nat) :
  with_name p (candidate_name p n) = Ok (candidate n).
Proof. unfold with_name. destruct (name p); [contradiction|reflexivity]. Qed.

Lemma candidate_inj (n m : nat) : candidate n = candidate m -> n = m.
Proof.
  intros H. apply candidate_name_inj with (p := p).
  change (name (candidate n) = name (candidate m)). rewrite H; reflexivity.
Qed.

(** Among [S (length fs)] consecutive counters one names a free path. *)
Lemma free_candidate_exists (n : nat) :
  exists k, k <= length fs /\ path_exists fs (candidate (n + k)) = false.
Proof.
  set (cands := map candidate (seq n (S (length fs)))).
  destruct (Forall_Exists_dec (fun q => path_exists fs q = true)
              (fun q => bool_dec (path_exists fs q) true) cands) as [Hall|Hex].
  - exfalso.
    assert (Hnd : NoDup cands).
    { apply Injective_map_NoDup; [|apply seq_NoDup].
      intros a b; apply candidate_inj. }
    assert (Hincl : incl cands fs).
    { intros q Hq. rewrite Forall_forall in Hall.
      apply path_exists_In, Hall, Hq. }
    pose proof (NoDup_incl_length Hnd Hincl) as Hlen.
    unfold cands in Hlen. rewrite length_map, length_seq in Hlen. lia.
  - apply Exists_exists in Hex. destruct Hex as [q [Hq Hfree]].
    unfold cands in Hq. apply in_map_iff in Hq.
    destruct Hq as [m [<- Hm]]. apply in_seq in Hm.
    exists (m - n). split; [lia|].
    replace (n + (m - n)) with m by lia.
    destruct (path_exists fs (candidate m)); [contradiction Hfree|]; reflexivity.
Qed.

(** The loop returns the first free candidate at or after its counter, as
    soon as the fuel reaches it. *)
Lemma increment_loop_first_free (k : nat) : forall fuel n,
  k < fuel ->
  path_exists fs (candidate (n + k)) = false ->
  (forall j, j < k -> path_exists fs (candidate (n + j)) = true) ->
  increment_loop fs p fuel n = Some (Ok (candidate (n + k))).
Proof.
  induction k as [|k IH]; intros fuel n Hfuel Hfree Hbusy;
    (destruct fuel as [|fuel]; [lia|]); simpl;
    rewrite with_name_candidate.
  - rewrite Nat.add_0_r in Hfree. rewrite Hfree. simpl.
    rewrite Nat.add_0_r. reflexivity.
  - pose proof (Hbusy 0 ltac:(lia)) as H0. rewrite Nat.add_0_r in H0.
    rewrite H0. simpl.
    rewrite (IH fuel (S n)).
    + do 3 f_equal. lia.
    + lia.
    + replace (S n + k) with (n + S k) by lia. exact Hfree.
    + intros j Hj. replace (S n + j) with (n + S j) by lia.
      apply Hbusy. lia.
Qed.

(** A free candidate being known, there is a first one. *)
Lemma first_free_candidate (n : nat) : forall k,
  path_exists fs (candidate (n + k)) = false ->
  exists k0, k0 <= k /\ path_exists fs (candidate (n + k0)) = false /\
             forall j, j < k0 -> path_exists fs (candidate (n + j)) = true.
Proof.
  induction k as [k IH] using lt_wf_ind. intros Hfree.
  destruct (Forall_Exists_dec (fun j => path_exists fs (candidate (n + j)) = true)
              (fun j => bool_dec (path_exists fs (candidate (n + j))) true)
              (seq 0 k)) as [Hall|Hex].
  - exists k. split; [lia|]. split; [exact Hfree|].
    intros j Hj. rewrite Forall_forall in Hall. apply Hall, in_seq. lia.
  - apply Exists_exists in Hex. destruct Hex as [j [Hj Hjfree]].
    apply in_seq in Hj.
    destruct (IH j ltac:(lia)) as [k0 [Hle [Hf Hb]]].
    { destruct (path_exists fs (candidate (n + j))); [contradiction Hjfree|];
        reflexivity. }
    exists k0. split; [lia|]. split; assumption.
Qed.

Lemma increment_loop_enough (fuel : nat) :
  length fs < fuel ->
  exists k, path_exists fs (candidate (2 + k)) = false /\
            (forall j, j < k -> path_exists fs (candidate (2 + j)) = true) /\
            increment_loop fs p fuel 2 = Some (Ok (candidate (2 + k))).
Proof.
  intros Hfuel.
  destruct (free_candidate_exists 2) as [k [Hk Hfree]].
  destruct (first_free_candidate 2 k Hfree) as [k0 [Hle [Hf Hb]]].
  exists k0. split; [exact Hf|]. split; [exact Hb|].
  apply increment_loop_first_free; [lia | exact Hf | exact Hb].
Qed.

End Loop.

(** C7. [increment_path] returns a path that does not exist yet: the path
    itself when it is free, and otherwise the candidate [stem (N)suffix]
    with the smallest counter [N >= 2] whose candidate is free.  The loop
    terminates: the model's iteration bound is never reached, and any
    larger bound gives the same answer. *)
Theorem increment_path_smallest_free (fs : filesystem) (p : path) :
  (path_exists fs p = false -> increment_path fs p = Some (Ok p)) /\
  (path_exists fs p = true -> name p <> [] ->
   exists N,
     2 <= N /\
     let chosen := {| parent := parent p;
                      name := stem p ++ lit " (" ++ str_of_nat N ++ lit ")"
                              ++ suffix p |} in
     increment_path fs p = Some (Ok chosen) /\
     path_exists fs chosen = false /\
     (forall M, 2 <= M < N ->
        path_exists fs {| parent := parent p;
                          name := stem p ++ lit " (" ++ str_of_nat M
                                  ++ lit ")" ++ suffix p |} = true) /\
     (forall fuel, length fs < fuel ->
        increment_path_fuel fs p fuel = Some (Ok chosen))).
Proof.
  unfold increment_path, increment_path_fuel. split.
  - intros ->. reflexivity.
  - intros Hex Hname. rewrite Hex. simpl negb. cbv iota.
    destruct (increment_loop_enough fs p Hname (S (length fs)))
      as [k [Hfree [Hbusy Hloop]]]; [lia|].
    exists (2 + k). split; [lia|]. cbv zeta.
    split; [exact Hloop|]. split; [exact Hfree|]. split.
    + intros M HM.
      assert (E : M = 2 + (M - 2)) by lia.
      rewrite E. apply (Hbusy (M - 2)). lia.
    + intros fuel Hfuel.
      destruct (increment_loop_enough fs p Hname fuel Hfuel)
        as [k' [Hfree' [Hbusy' Hloop']]].
      rewrite Hloop'.
      destruct (Nat.lt_trichotomy k k') as [Hlt|[Heq|Hgt]];
        [|subst k'; reflexivity|].
      * rewrite (Hbusy' k Hlt) in Hfree. discriminate.
      * rewrite (Hbusy k' Hgt) in Hfree'. discriminate.
Qed.

Definition demo_dir : list str := [lit "recordings"].
Definition demo_file : path :=
  {| parent := demo_dir; name := lit "2025-01-15 - PIT5 - U1 - Full Load - G1.tdms" |}.
Definition demo_fs : filesystem :=
  [ demo_file;
    {| parent := demo_dir;
       name := lit "2025-01-15 - PIT5 - U1 - Full Load - G1 (2).tdms" |} ].

Lemma increment_path_smallest_free_witness :
  name demo_file <> [] /\
  path_exists demo_fs demo_file = true /\
  exists N,
    2 <= N /\
    let chosen := {| parent := parent demo_file;
                     name := stem demo_file ++ lit " (" ++ str_of_nat N
                             ++ lit ")" ++ suffix demo_file |} in
    increment_path demo_fs demo_file = Some (Ok chosen) /\
    path_exists demo_fs chosen = false /\
    (forall M, 2 <= M < N ->
       path_exists demo_fs
         {| parent := parent demo_file;
            name := stem demo_file ++ lit " (" ++ str_of_nat M
                    ++ lit ")" ++ suffix demo_file |} = true) /\
    (forall fuel, length demo_fs < fuel ->
       increment_path_fuel demo_fs demo_file fuel = Some (Ok chosen)).
Proof.
  split; [discriminate|]. split; [reflexivity|].
  apply (proj2 (increment_path_smallest_free demo_fs demo_file)).
  - reflexivity.
  - discriminate.
Defined.

Example increment_path_demo :
  increment_path demo_fs demo_file =
    Some (Ok {| parent := demo_dir;
                 name := lit "2025-01-15 - PIT5 - U1 - Full Load - G1 (3).tdms" |}).
Proof. vm_compute. reflexivity. Qed.

End IncrementFacts.

(** ** File name template (app/utils.py, [sanitize_token],
       [build_tdms_filename]) *)

Module FilenameFacts.
Import PyStr Utils SpecWording.

(** No two adjacent whitespace characters. *)
Fixpoint no_ws_pair (s : str) : bool :=
  match s with
  | [] => true
  | a :: r =>
      match r with
      | [] => true
      | b :: _ => negb (py_isspace a && py_isspace b) && no_ws_pair r
      end
  end.

(** What holds of the token [r] that [sanitize_token] makes of [t]. *)
Record sanitized (t r : str) : Prop := {
  san_legal : Forall (fun c => windows_illegal c = false) r;
  san_length : 1 <= length r <= 60;
  san_spaces : forall c, In c r -> py_isspace c = true -> c = SPACE;
  san_head : forall c r', r = c :: r' -> py_isspace c = false;
  san_single :
    (forall c, In c t -> py_isspace c = false -> windows_illegal c = false) ->
    no_ws_pair r = true
}.

Lemma lstrip_suffix (s : str) : exists ws, s = ws ++ lstrip s.
Proof.
  induction s as [|c s [ws IH]]; simpl.
  - exists []; reflexivity.
  - destruct (py_isspace c).
    + exists (c :: ws). simpl. f_equal. exact IH.
    + exists []. reflexivity.
Qed.

Lemma rstrip_prefix (s : str) : exists ws, s = rstrip s ++ ws.
Proof.
  unfold rstrip. destruct (lstrip_suffix (rev s)) as [ws E].
  exists (rev ws). rewrite <- rev_app_distr, <- E, rev_involutive.
  reflexivity.
Qed.

Lemma strip_infix (s : str) : exists a b, s = a ++ strip s ++ b.
Proof.
  unfold strip. destruct (lstrip_suffix s) as [a Ea].
  destruct (rstrip_prefix (lstrip s)) as [b Eb].
  exists a, b. rewrite <- Eb. exact Ea.
Qed.

Lemma strip_In (s : str) (c : char) : In c (strip s) -> In c s.
Proof.
  destruct (strip_infix s) as [a [b E]]. intros H.
  rewrite E. apply in_or_app. right. apply in_or_app. left. exact H.
Qed.

Lemma lstrip_head (s : str) (c : char) (r : str) :
  lstrip s = c :: r -> py_isspace c = false.
Proof.
  induction s as [|x s IH]; simpl; [discriminate|].
  destruct (py_isspace x) eqn:Hx; [exact IH|].
  intros H; inversion H; subst; exact Hx.
Qed.

Lemma strip_head (s : str) (c : char) (r : str) :
  strip s = c :: r -> py_isspace c = false.
Proof.
  unfold strip. intros H.
  destruct (rstrip_prefix (lstrip s)) as [b Eb]. rewrite H in Eb.
  simpl in Eb. exact (lstrip_head s c (r ++ b) Eb).
Qed.

Lemma sub_ws_runs_In (f : bool) (s : str) (c : char) :
  In c (sub_ws_runs f s) ->
  c = SPACE \/ (In c s /\ py_isspace c = false).
Proof.
  revert f; induction s as [|x s IH]; intros f; simpl; [tauto|].
  destruct (py_isspace x) eqn:Hx.
  - destruct f; simpl.
    + intros H. destruct (IH _ H) as [->|[Hin Hc]]; auto.
    + intros [<-|H]; [auto|]. destruct (IH _ H) as [->|[Hin Hc]]; auto.
  - simpl. intros [<-|H]; [auto|].
    destruct (IH _ H) as [->|[Hin Hc]]; auto.
Qed.

Lemma no_ws_pair_cons (a : char) (s : str) :
  no_ws_pair (a :: s) = true -> no_ws_pair s = true.
Proof.
  simpl. destruct s as [|b s]; [reflexivity|].
  rewrite andb_true_iff. tauto.
Qed.

Lemma no_ws_pair_suffix (a s : str) :
  no_ws_pair (a ++ s) = true -> no_ws_pair s = true.
Proof.
  induction a as [|x a IH]; simpl app; [tauto|].
  intros H. apply IH. exact (no_ws_pair_cons _ _ H).
Qed.

Lemma no_ws_pair_prefix (s b : str) :
  no_ws_pair (s ++ b) = true -> no_ws_pair s = true.
Proof.
  induction s as [|x s IH]; [reflexivity|].
  destruct s as [|y s]; [reflexivity|].
  change ((x :: y :: s) ++ b) with (x :: (y :: s) ++ b).
  change (no_ws_pair (x :: (y :: s) ++ b))
    with (negb (py_isspace x && py_isspace y) && no_ws_pair ((y :: s) ++ b)).
  change (no_ws_pair (x :: y :: s))
    with (negb (py_isspace x && py_isspace y) && no_ws_pair (y :: s)).
  rewrite !andb_true_iff. intros [H1 H2]. split; [exact H1|apply IH, H2].
Qed.

Lemma no_ws_pair_strip (s : str) :
  no_ws_pair s = true -> no_ws_pair (strip s) = true.
Proof.
  destruct (strip_infix s) as [a [b E]]. intros H. rewrite E in H.
  apply no_ws_pair_suffix in H. apply no_ws_pair_prefix in H. exact H.
Qed.

Lemma no_ws_pair_firstn (n : nat) (s : str) :
  no_ws_pair s = true -> no_ws_pair (firstn n s) = true.
Proof.
  intros H. rewrite <- (firstn_skipn n s) in H.
  exact (no_ws_pair_prefix _ _ H).
Qed.

(** After the whitespace substitution no two whitespace characters are
    adjacent, and inside a run the output does not start with one. *)
Lemma sub_ws_runs_no_pair (s : str) : forall f,
  no_ws_pair (sub_ws_runs f s) = true /\
  (f = true -> forall c r, sub_ws_runs f s = c :: r -> py_isspace c = false).
Proof.
  induction s as [|x s IH]; intros f; simpl.
  - split; [reflexivity|discriminate].
  - destruct (py_isspace x) eqn:Hx.
    + destruct (IH true) as [Hp Hh]. destruct f.
      * split; [exact Hp|]. intros _. apply Hh. reflexivity.
      * split; [|discriminate].
        destruct (sub_ws_runs true s) as [|b r] eqn:E; [reflexivity|].
        change (negb (py_isspace SPACE && py_isspace b)
                && no_ws_pair (b :: r) = true).
        rewrite (Hh eq_refl b r eq_refl), andb_false_r. exact Hp.
    + destruct (IH false) as [Hp _]. split.
      * destruct (sub_ws_runs false s) as [|b r] eqn:E; [reflexivity|].
        change (negb (py_isspace x && py_isspace b)
                && no_ws_pair (b :: r) = true).
        rewrite Hx. exact Hp.
      * intros _ c r H. inversion H; subst. exact Hx.
Qed.

Lemma filter_all (f : char -> bool) (s : str) :
  (forall c, In c s -> f c = true) -> filter f s = s.
Proof.
  induction s as [|x s IH]; simpl; [reflexivity|].
  intros H. rewrite (H x (or_introl eq_refl)). f_equal.
  apply IH. intros c Hc. apply H. right; exact Hc.
Qed.

Lemma filter_legal (s : str) :
  Forall (fun c => windows_illegal c = false) (sub_class_empty windows_illegal s).
Proof.
  apply Forall_forall. intros c Hc. unfold sub_class_empty in Hc.
  apply filter_In in Hc. destruct Hc as [_ Hc].
  destruct (windows_illegal c); [discriminate|reflexivity].
Qed.

Lemma sanitize_token_unfold (t : str) :
  sanitize_token t =
    match strip (sub_class_empty windows_illegal
                   (sub_ws_runs false (strip t))) with
    | [] => lit "NA"
    | c :: r => firstn 60 (c :: r)
    end.
Proof.
  unfold sanitize_token, sanitize_token_len.
  destruct (strip _); reflexivity.
Qed.

Lemma sanitize_token_sanitized (t : str) : sanitized t (sanitize_token t).
Proof.
  rewrite sanitize_token_unfold.
  set (collapsed := sub_ws_runs false (strip t)).
  set (kept := sub_class_empty windows_illegal collapsed).
  assert (Hin : forall c, In c (strip kept) -> In c collapsed).
  { intros c Hc. apply strip_In in Hc. unfold kept, sub_class_empty in Hc.
    apply filter_In in Hc. tauto. }
  assert (Hleg : forall c, In c (strip kept) -> windows_illegal c = false).
  { intros c Hc. apply strip_In in Hc.
    pose proof (filter_legal collapsed) as Hl.
    rewrite Forall_forall in Hl. apply Hl. exact Hc. }
  assert (Hhd : forall c r, strip kept = c :: r -> py_isspace c = false)
    by (apply strip_head).
  assert (Hpair :
    (forall c, In c t -> py_isspace c = false -> windows_illegal c = false) ->
    no_ws_pair (strip kept) = true).
  { intros Hlegal. apply no_ws_pair_strip.
    unfold kept, sub_class_empty. rewrite filter_all.
    - apply (sub_ws_runs_no_pair (strip t) false).
    - intros c Hc. apply sub_ws_runs_In in Hc.
      destruct Hc as [->|[Hc Hn]]; [reflexivity|].
      rewrite (Hlegal c (strip_In t c Hc) Hn). reflexivity. }
  destruct (strip kept) as [|c0 r0].
  - constructor.
    + repeat constructor.
    + simpl. lia.
    + intros c [<-|[<-|[]]]; discriminate.
    + intros c r' H. inversion H. reflexivity.
    + reflexivity.
  - assert (Hsub : forall c, In c (firstn 60 (c0 :: r0)) -> In c (c0 :: r0)).
    { intros c Hc. rewrite <- (firstn_skipn 60 (c0 :: r0)).
      apply in_or_app. left. exact Hc. }
    constructor.
    + apply Forall_forall. intros c Hc. apply Hleg, Hsub, Hc.
    + rewrite length_firstn. simpl length. lia.
    + intros c Hc Hs. apply Hsub, Hin, sub_ws_runs_In in Hc.
      destruct Hc as [->|[_ Hn]]; [reflexivity|congruence].
    + intros c r' H. simpl in H. inversion H; subst.
      exact (Hhd c r0 eq_refl).
    + intros Hlegal. apply no_ws_pair_firstn, Hpair, Hlegal.
Qed.

Definition jan15 : date := {| year := 2025; month := 1; day := 15 |}.

(** C6.  The file name builder replaces the whitespace runs before it
    removes the illegal characters, and not after, as the specification
    words the sanitising: a removed character that stood between two
    spaces leaves both.  For the project [a < b] the code gives a name
    with two adjacent spaces, [2025-01-15 - a  b - U1 - Full Load -
    G1.tdms], where the worded rule gives one.  The PIT5 example comes
    out as specified. *)
Theorem recording_filename_not_as_worded :
  recording_filename jan15 (lit "a < b") (lit "U1") (lit "Full Load") (lit "G1")
    = lit "2025-01-15 - a  b - U1 - Full Load - G1.tdms"
  /\ filename_as_worded jan15 (lit "a < b") (lit "U1") (lit "Full Load") (lit "G1")
    = lit "2025-01-15 - a b - U1 - Full Load - G1.tdms"
  /\ recording_filename jan15 (lit "a < b") (lit "U1") (lit "Full Load") (lit "G1")
     <> filename_as_worded jan15 (lit "a < b") (lit "U1") (lit "Full Load") (lit "G1")
  /\ recording_filename jan15 (lit "PIT5") (lit "U1") (lit "Full Load") (lit "G1")
     = lit "2025-01-15 - PIT5 - U1 - Full Load - G1.tdms".
Proof.
  split; [vm_compute; reflexivity|]. split; [vm_compute; reflexivity|].
  split; [vm_compute; discriminate|]. vm_compute. reflexivity.
Qed.

End FilenameFacts.

(** ** Rounding and the level estimate *)

Module NumFacts.
Import Py PyNum.
Local Open Scope R_scope.

Lemma Rabs_le_inv (a b : R) : Rabs a <= b -> - b <= a <= b.
Proof. unfold Rabs. destruct (Rcase_abs a); lra. Qed.

Lemma py_round_near (x : R) : Rabs (IZR (py_round x) - x) <= 1 / 2.
Proof.
  unfold py_round. pose proof (Zfloor_bound x) as [Hl Hu].
  destruct (Rlt_dec (x - IZR (Zfloor x)) (1 / 2)) as [H|H].
  - apply Rabs_le. lra.
  - assert (Hup : Rabs (IZR (Zfloor x + 1) - x) <= 1 / 2)
      by (rewrite plus_IZR; apply Rabs_le; lra).
    destruct (Rlt_dec (1 / 2) (x - IZR (Zfloor x))) as [H'|H'];
      [exact Hup|].
    destruct (Z.even (Zfloor x)); [apply Rabs_le; lra | exact Hup].
Qed.

Lemma py_round_floor (x : R) :
  py_round x = Zfloor x \/ py_round x = (Zfloor x + 1)%Z.
Proof.
  unfold py_round.
  destruct (Rlt_dec _ _); [auto|]. destruct (Rlt_dec _ _); [auto|].
  destruct (Z.even _); auto.
Qed.

(** A product rounds to at most zero exactly when it is at most one half. *)
Lemma py_round_nonpos (x : R) : (py_round x <= 0)%Z <-> x <= 1 / 2.
Proof.
  split.
  - intros H. apply IZR_le in H.
    pose proof (py_round_near x) as Hn. apply Rabs_le_inv in Hn. lra.
  - intros H. pose proof (Zfloor_bound x) as [Hl Hu].
    destruct (Z_le_gt_dec (Zfloor x) (-1)) as [Hneg|Hpos].
    + destruct (py_round_floor x) as [-> | ->]; lia.
    + assert (Hf : Zfloor x = 0%Z).
      { assert (IZR (Zfloor x) < 1) by lra.
        apply lt_IZR in H0. lia. }
      unfold py_round. rewrite Hf. simpl IZR.
      destruct (Rlt_dec (x - 0) (1 / 2)); [lia|].
      destruct (Rlt_dec (1 / 2) (x - 0)); [lra|]. simpl. lia.
Qed.

Lemma py_round_value (x : R) (z : Z) :
  Rabs (x - IZR z) < 1 / 2 -> py_round x = z.
Proof.
  intros H. apply Rabs_def2 in H. destruct H as [H1 H2].
  pose proof (py_round_near x) as Hr. apply Rabs_le_inv in Hr.
  assert (Ha : IZR (py_round x) - IZR z < 1) by lra.
  assert (Hb : IZR z - IZR (py_round x) < 1) by lra.
  rewrite <- minus_IZR in Ha, Hb. apply lt_IZR in Ha, Hb. lia.
Qed.



Lemma ln10_pos : 0 < ln 10.
Proof. rewrite <- ln_1. apply ln_increasing; lra. Qed.

Lemma log10_le (x y : R) : 0 < x -> x <= y -> log10 x <= log10 y.
Proof.
  intros Hx Hxy. unfold log10, Rdiv.
  apply Rmult_le_compat_r.
  - left. apply Rinv_0_lt_compat, ln10_pos.
  - destruct Hxy as [Hlt| ->]; [left; apply ln_increasing; assumption|right; reflexivity].
Qed.

Lemma py_max_floor (a b : R) : b <= py_max a b /\ a <= py_max a b.
Proof. unfold py_max. destruct (Rlt_dec a b); lra. Qed.

End NumFacts.

Module EstimateFacts.
Import Py PyNum NiRecorder NumFacts.
Local Open Scope R_scope.

(** The floor of the estimate: the level of the clamp pressure. *)
Definition spl_floor : R := 20 * log10 (1e-12 / 20e-6).

Lemma pa_to_db_spl_ok (p : R) :
  pa_to_db_spl p = Ok (20 * log10 (py_max p 1e-12 / 20e-6)) /\
  spl_floor <= 20 * log10 (py_max p 1e-12 / 20e-6).
Proof.
  pose proof (py_max_floor p 1e-12) as [Hc _].
  assert (Hq : 1e-12 / 20e-6 <= py_max p 1e-12 / 20e-6).
  { unfold Rdiv. apply Rmult_le_compat_r; [lra|exact Hc]. }
  assert (Hpos : 0 < 1e-12 / 20e-6) by lra.
  split.
  - unfold pa_to_db_spl, pa_to_db_spl_ref, py_div, math_log10.
    destruct (Req_dec_T 20e-6 0) as [E|_]; [lra|]. simpl.
    destruct (Rlt_dec 0 (py_max p 1e-12 / 20e-6)) as [_|N]; [reflexivity|].
    exfalso; apply N; lra.
  - unfold spl_floor. apply Rmult_le_compat_l; [lra|].
    apply log10_le; assumption.
Qed.

Lemma estimate_max_spl_db_ok (v s : R) :
  exists r, estimate_max_spl_db v s = Ok r /\
            (s <= 0 -> r = 140) /\
            (0 < s -> r = 20 * log10 (py_max (v / (s / 1000)) 1e-12 / 20e-6)
                      /\ spl_floor <= r).
Proof.
  unfold estimate_max_spl_db.
  destruct (Rle_dec (s / 1000) 0) as [Hle|Hgt].
  - exists 140. split; [reflexivity|]. split; [reflexivity|]. intros; lra.
  - assert (Hs : 0 < s) by lra.
    unfold py_div. destruct (Req_dec_T (s / 1000) 0) as [E|_]; [lra|].
    simpl. destruct (pa_to_db_spl_ok (v / (s / 1000))) as [E Hfl].
    eexists. split; [exact E|]. split; [intros; lra|].
    intros _. split; [reflexivity|exact Hfl].
Qed.

End EstimateFacts.

(** ** The level estimate in binary64 (app/ni_recorder.py) *)

Module Binary64Facts.
Import Py PyNum NumFacts Binary64.
Local Open Scope R_scope.









Lemma py_round_0 : py_round 0 = 0%Z.
Proof. apply py_round_value. rewrite Rminus_diag, Rabs_R0. lra. Qed.

Lemma nearest_0 : nearest 0 = 0.
Proof.
  unfold nearest. replace (0 / ulp 0) with 0
    by (unfold Rdiv; rewrite Rmult_0_l; reflexivity).
  rewrite py_round_0. apply Rmult_0_l.
Qed.








Lemma MAX_value : 2 ^ 1023 < MAX < 2 ^ 1024.
Proof. unfold MAX. split; lra. Qed.




End Binary64Facts.

Module FloatEstimateFacts.
Import Py PyNum NumFacts Binary64 Binary64Facts NiRecorder64.
Local Open Scope R_scope.




Definition pref : R := nearest 20e-6.












Lemma round_0 : round 0 = Fin 0.
Proof.
  pose proof MAX_value as [Ml Mu].
  assert (P : 0 < 2 ^ 1023) by (apply pow_lt; lra).
  unfold round. rewrite nearest_0.
  destruct (Rlt_dec MAX 0); [lra|]. destruct (Rlt_dec 0 (- MAX)); [lra|].
  reflexivity.
Qed.










End FloatEstimateFacts.


(** ** Capture (app/ni_recorder.py and daq_worker.py) *)

Module CaptureFacts.
Import Py PyStr PyNum NiDaqmx NumFacts EstimateFacts.
Local Open Scope R_scope.

#[local] Arguments do_call : simpl never.
#[local] Arguments log_event : simpl never.
#[local] Arguments pass_time : simpl never.
#[local] Arguments is_done : simpl never.

(** Evaluation of the driver model, leaving the real numbers alone. *)
Ltac run_driver :=
  cbv -[IZR Rplus Rminus Rmult Rdiv Rinv Ropp Rlt Rle Z.le Z.lt].

(** What the container holds before a capture adds to it: nothing when
    the logging operation starts it anew, its former content when the
    operation appends. *)
Definition kept (op : LoggingOperation) (w : world) : Z :=
  if starts_anew op then 0 else logged w.

(** A task set up for a finite acquisition of [n] samples with logging,
    whose container holds [base] samples and what has been acquired. *)
Record armed (base n : Z) (w : world) : Prop := {
  armed_length : samps_per_chan w = n;
  armed_logging : logging w = true;
  armed_logged : logged w = (base + acquired w)%Z;
  armed_started : started w = true;
  armed_bound : (acquired w <= n)%Z
}.

Lemma armed_log_event (base n : Z) (e : event) (w : world) :
  armed base n w -> armed base n (log_event e w).
Proof. intros [H1 H2 H3 H4 H5]. constructor; assumption. Qed.

Lemma armed_is_task_done (base n : Z) (w : world) :
  armed base n w -> armed base n (do_call Is_task_done w).
Proof. intros H. exact (armed_log_event base n Is_task_done w H). Qed.

Lemma armed_pass_time (base n : Z) (dt : R) (k : Z) (w : world) :
  armed base n w -> armed base n (pass_time dt k w).
Proof.
  intros [H1 H2 H3 H4 H5]. constructor; unfold pass_time; simpl;
    rewrite ?H2, ?H4; try assumption; lia.
Qed.

Lemma armed_done (base n : Z) (w : world) :
  armed base n w -> is_done w = true -> logged w = (base + n)%Z.
Proof.
  intros [H1 H2 H3 H4 H5] Hd. unfold is_done in Hd.
  apply Z.leb_le in Hd. lia.
Qed.



Lemma ni_poll_length (ev : bool) (ticks : list tick) :
  forall w w', NiRecorder.poll ev ticks w = Some w' ->
               samps_per_chan w' = samps_per_chan w.
Proof.
  induction ticks as [|t rest IH]; intros w w'; simpl; [discriminate|].
  destruct (ev && stop_set t).
  - intros H; inversion H; reflexivity.
  - destruct (is_done (do_call Is_task_done w)).
    + intros H; inversion H; reflexivity.
    + intros H. apply IH in H. rewrite H. reflexivity.
Qed.


(** The calls up to [task.start()] leave the task armed. *)
Lemma setup_armed (n : Z) (w : world) (ch path grp : str) (lvl sens : R)
    (rate : Z) (op : LoggingOperation) :
  (0 <= n)%Z ->
  armed (kept op w) n
    (do_call Task_start
      (do_call (Configure_logging path grp op)
        (do_call (Cfg_samp_clk_timing_finite rate n)
          (do_call (Set_ai_microphone_sensitivity sens)
            (do_call Set_ai_coupling_AC
              (do_call (Add_ai_microphone_chan ch lvl 0.004)
                (do_call Task_create w))))))).
Proof.
  intros Hn. constructor; try reflexivity; [|exact Hn].
  unfold kept. cbv -[Z.add]. destruct op; lia.
Qed.

Lemma events_log_event (e : event) (w : world) :
  events (log_event e w) = e :: events w.
Proof. reflexivity. Qed.

Lemma events_do_call (e : event) (w : world) :
  events (do_call e w) = e :: events w.
Proof. destruct e; reflexivity. Qed.

Lemma events_pass_time (dt : R) (k : Z) (w : world) :
  events (pass_time dt k w) = events w.
Proof. reflexivity. Qed.

(** Polling only adds events. *)
Lemma ni_poll_events (ev : bool) (ticks : list tick) :
  forall w w', NiRecorder.poll ev ticks w = Some w' ->
               exists more, events w' = more ++ events w.
Proof.
  induction ticks as [|t rest IH]; intros w w'; simpl; [discriminate|].
  destruct (ev && stop_set t).
  - intros H; inversion H; subst. exists [Task_stop].
    rewrite events_do_call. reflexivity.
  - destruct (is_done (do_call Is_task_done w)).
    + intros H; inversion H; subst. exists [Is_task_done].
      rewrite events_do_call. reflexivity.
    + intros H. apply IH in H. destruct H as [more E].
      rewrite events_pass_time, events_do_call in E.
      exists (more ++ [Is_task_done]). rewrite E, <- app_assoc. reflexivity.
Qed.

Definition too_small : exn :=
  ValueError "Duration too small; total_samples <= 0".

(** C8 (as amended).  The capture routine rounds 25600 x duration to the
    nearest integer and rejects the request exactly when that is not
    positive, that is when the duration is at most half a sample period.
    A rejected request raises the error and leaves the world as it was:
    no driver call has been made.  A longer duration is not rejected, and
    whenever the routine then returns, the task has been created. *)
Theorem record_rejects_before_hardware
    (ch path : str) (sens duration : R) (ev : bool) (grp : str) (vmax : R)
    (op : LoggingOperation) (ticks : list tick) (w : world) :
  let outcome := NiRecorder.record_microphone_to_tdms
                   ch path sens duration ev grp vmax op ticks w in
  (25600 * duration <= 1 / 2 -> outcome = Some (Raise too_small, w)) /\
  ((exists e w', outcome = Some (Raise e, w')) -> 25600 * duration <= 1 / 2) /\
  (1 / 2 < 25600 * duration ->
   forall r w', outcome = Some (r, w') ->
     exists t, r = Ok t /\ In Task_create (events w')).
Proof.
  cbv zeta. unfold NiRecorder.record_microphone_to_tdms.
  change (IZR NiRecorder.SAMPLE_RATE) with 25600.
  destruct (py_round (25600 * duration) <=? 0)%Z eqn:Hr.
  - apply Z.leb_le, py_round_nonpos in Hr.
    split; [reflexivity|]. split; [intros; exact Hr|]. intros; lra.
  - apply Z.leb_gt in Hr.
    assert (Hd : ~ 25600 * duration <= 1 / 2)
      by (intros H; apply py_round_nonpos in H; lia).
    destruct (estimate_max_spl_db_ok vmax sens) as [lvl [E _]].
    rewrite E.
    split; [intros; lra|].
    destruct (NiRecorder.poll ev ticks _) as [wp|] eqn:Hp.
    + split; [intros [e [w' H]]; discriminate|].
      intros _ r w' H. inversion H; subst. eexists; split; [reflexivity|].
      rewrite events_do_call. right.
      apply ni_poll_events in Hp. destruct Hp as [more Hm]. rewrite Hm.
      apply in_or_app. right. rewrite !events_do_call. simpl. tauto.
    + split; [intros [e [w' H]]; discriminate|].
      intros _ r w' H. discriminate.
Qed.

(** A world in which nothing has happened yet. *)
Definition idle : world :=
  {| events := []; samps_per_chan := 0; acquired := 0; logging := false;
     logged := 0; started := false; now := 0 |}.

Definition quiet (k : Z) : tick := {| stop_set := false; arriving := k |}.

(** Three quarters of a sample period, at the default settings. *)
Definition short_capture : option (result R * world) :=
  NiRecorder.record_microphone_to_tdms (lit "cDAQ1Mod1/ai0") (lit "out.tdms")
    50 (3 / 102400) true (lit "RawRecord") 5 CREATE_OR_REPLACE
    [quiet 1; quiet 0] idle.

Lemma short_capture_runs :
  exists t w', short_capture = Some (Ok t, w') /\
               In Task_create (events w') /\ In Task_start (events w') /\
               logged w' = 1%Z.
Proof.
  unfold short_capture, NiRecorder.record_microphone_to_tdms.
  change (IZR NiRecorder.SAMPLE_RATE) with 25600.
  rewrite (py_round_value (25600 * (3 / 102400)) 1)
    by (apply Rabs_def1; lra).
  destruct (estimate_max_spl_db_ok 5 50) as [lvl [E _]]. rewrite E.
  run_driver.
  do 2 eexists. split; [reflexivity|]. simpl. tauto.
Qed.

(** A duration of three quarters of a sample period does not cover one
    sample period, and yet it is accepted: the task is created and
    started, and one sample is recorded. *)
Lemma record_accepts_under_one_period :
  3 / 102400 < 1 / 25600 /\
  exists t w', short_capture = Some (Ok t, w') /\
               In Task_create (events w') /\ In Task_start (events w') /\
               logged w' = 1%Z.
Proof. split; [lra|exact short_capture_runs]. Qed.

Lemma record_rejects_before_hardware_witness :
  25600 * 0 <= 1 / 2 /\
  NiRecorder.record_microphone_to_tdms (lit "cDAQ1Mod1/ai0") (lit "out.tdms")
    50 0 true (lit "RawRecord") 5 CREATE_OR_REPLACE [quiet 1] idle
  = Some (Raise too_small, idle) /\
  1 / 2 < 25600 * (3 / 102400) /\
  (forall r w', short_capture = Some (r, w') ->
     exists t, r = Ok t /\ In Task_create (events w')).
Proof.
  split; [lra|]. split.
  - apply (proj1 (record_rejects_before_hardware
                    (lit "cDAQ1Mod1/ai0") (lit "out.tdms") 50 0 true
                    (lit "RawRecord") 5 CREATE_OR_REPLACE [quiet 1] idle)).
    lra.
  - split; [lra|].
    apply (proj2 (proj2 (record_rejects_before_hardware
                    (lit "cDAQ1Mod1/ai0") (lit "out.tdms") 50 (3 / 102400)
                    true (lit "RawRecord") 5 CREATE_OR_REPLACE
                    [quiet 1; quiet 0] idle))).
    lra.
Defined.

(** Three sample periods, delivered two samples at a time. *)
Definition three_samples : option (result R * world) :=
  NiRecorder.record_microphone_to_tdms (lit "cDAQ1Mod1/ai0") (lit "out.tdms")
    50 (3 / 25600) true (lit "RawRecord") 5 CREATE_OR_REPLACE
    [quiet 2; quiet 2; quiet 0] idle.

Lemma three_samples_runs :
  exists t w', three_samples = Some (Ok t, w') /\ logged w' = 3%Z.
Proof.
  unfold three_samples, NiRecorder.record_microphone_to_tdms.
  change (IZR NiRecorder.SAMPLE_RATE) with 25600.
  rewrite (py_round_value (25600 * (3 / 25600)) 3)
    by (apply Rabs_def1; lra).
  destruct (estimate_max_spl_db_ok 5 50) as [lvl [E _]]. rewrite E.
  run_driver.
  do 2 eexists. split; reflexivity.
Qed.






End CaptureFacts.

(** ** Level computation (GGHydroSoundAnalyzer/main.py) *)

Module LevelFacts.
Import Py PyNum NumPy SciPy Analyzer SpecWording.
Local Open Scope R_scope.

Lemma fsum_fin (v : list R) : forall a,
  fold_left fadd (map Fin v) (Fin a) = Fin (fold_left Rplus v a).
Proof. induction v as [|x v IH]; intros a; simpl; [reflexivity|apply IH]. Qed.

Lemma mean_fin (v : list R) :
  v <> [] -> mean (map Fin v) = Fin (arithmetic_mean v).
Proof.
  intros Hv. unfold mean, fsum, arithmetic_mean.
  rewrite fsum_fin, length_map. unfold fdiv, is_zero.
  destruct (Req_dec_T (INR (length v)) 0) as [E|_]; [|reflexivity].
  exfalso. destruct v as [|x v]; [contradiction|].
  change 0 with (INR 0) in E. apply INR_eq in E. discriminate.
Qed.

Lemma nan_to_num_fin (x : ndarray) :
  nan_to_num x = map Fin (sanitized_values x).
Proof.
  unfold nan_to_num, sanitized_values. rewrite map_map.
  apply map_ext. intros [r| | |]; reflexivity.
Qed.

Lemma all_finite_fin (x : ndarray) :
  forallb isfinite x = true -> x = map Fin (sanitized_values x).
Proof.
  induction x as [|v x IH]; simpl; [reflexivity|].
  rewrite andb_true_iff. intros [Hv Hx]. rewrite <- (IH Hx).
  destruct v; try discriminate. reflexivity.
Qed.

(** What the routine works on after its guard on non-finite values. *)
Lemma guarded_input (x : ndarray) :
  (if negb (forallb isfinite x) then nan_to_num x else x)
  = map Fin (sanitized_values x).
Proof.
  destruct (forallb isfinite x) eqn:E; simpl.
  - apply all_finite_fin, E.
  - apply nan_to_num_fin.
Qed.

Lemma fsqrt_sign (v : float) : fle (fsqrt v) (Fin 0) = rms_is_zero (fsqrt v).
Proof.
  destruct v as [r| | |]; simpl; try reflexivity.
  destruct (Rlt_dec r 0) as [Hneg|Hpos]; simpl; [reflexivity|].
  pose proof (sqrt_pos r) as Hs. unfold is_zero.
  destruct (Rle_dec (sqrt r) 0), (Req_dec_T (sqrt r) 0); try reflexivity; lra.
Qed.

Section WithFilter.
Variable sosfiltfilt : sections -> ndarray -> result ndarray.

Lemma length_zero_iff (x : ndarray) : (length x =? 0)%nat = true <-> x = [].
Proof. destruct x; simpl; split; intros H; try reflexivity; discriminate. Qed.

(** The routine, once past its guards, step by step in real numbers. *)
Lemma compute_la_eq_steps (x : ndarray) (fs : R) :
  x <> [] ->
  compute_la_eq sosfiltfilt x fs = level_pipeline sosfiltfilt false x fs.
Proof.
  intros Hx. unfold compute_la_eq, level_pipeline.
  destruct (length x =? 0)%nat eqn:E;
    [apply length_zero_iff in E; contradiction|].
  rewrite guarded_input.
  assert (Hs : sanitized_values x <> []).
  { unfold sanitized_values. destruct x; [contradiction|discriminate]. }
  rewrite (mean_fin _ Hs), map_map.
  unfold and_then at 1. simpl returned. simpl reported.
  unfold and_then at 3. simpl returned. simpl reported.
  destruct (design_a_weighting_sos fs) as [[sos|e] msgs];
    unfold and_then; simpl; [|reflexivity].
  destruct (sosfiltfilt sos _) as [y|e]; simpl; [|reflexivity].
  rewrite fsqrt_sign. unfold P0.
  destruct (rms_is_zero _); reflexivity.
Qed.

Lemma design_reports_nothing (fs : R) : reported (design_a_weighting_sos fs) = [].
Proof.
  unfold design_a_weighting_sos.
  destruct (Rle_dec fs 0); [reflexivity|].
  destruct (bilinear NUM DEN fs). reflexivity.
Qed.

Lemma design_returns (fs : R) :
  0 < fs -> exists sos, design_a_weighting_sos fs = ret sos.
Proof.
  intros Hfs. unfold design_a_weighting_sos.
  destruct (Rle_dec fs 0); [lra|].
  destruct (bilinear NUM DEN fs) as [b a]. eexists. reflexivity.
Qed.

Lemma compute_reports_nothing (x : ndarray) (fs : R) :
  reported (compute_la_eq sosfiltfilt x fs) = [].
Proof.
  unfold compute_la_eq.
  destruct (length x =? 0)%nat; [reflexivity|].
  unfold and_then.
  pose proof (design_reports_nothing fs) as Hd.
  destruct (design_a_weighting_sos fs) as [[sos|e] msgs]; simpl in *;
    [|exact Hd].
  subst msgs. simpl.
  destruct (sosfiltfilt sos _) as [y|e]; simpl; [|reflexivity].
  destruct (fle _ _); reflexivity.
Qed.

End WithFilter.

(** C2 (as amended).  For a non-empty array and a positive sample rate
    the routine is the worded pipeline without the report: the non-finite
    samples are replaced by zero, the arithmetic mean is subtracted, the
    designed cascade is applied forward and backward, and the root mean
    square of the result gives the sentinel when it is zero and otherwise
    20 log10 of its ratio to 20 micropascal.  Nothing is counted or
    reported. *)
Theorem compute_la_eq_pipeline
    (sosfiltfilt : sections -> ndarray -> result ndarray)
    (samples : ndarray) (fs : R) :
  samples <> [] -> 0 < fs ->
  compute_la_eq sosfiltfilt samples fs
    = level_pipeline sosfiltfilt false samples fs /\
  reported (compute_la_eq sosfiltfilt samples fs) = [] /\
  P0 = 20e-6.
Proof.
  intros Hx Hfs. split; [apply compute_la_eq_steps, Hx|].
  split; [apply compute_reports_nothing|reflexivity].
Qed.

Lemma compute_la_eq_pipeline_witness :
  [Fin 1; NaN] <> [] /\ 0 < 48000 /\
  compute_la_eq direct_filtfilt [Fin 1; NaN] 48000
    = level_pipeline direct_filtfilt false [Fin 1; NaN] 48000.
Proof.
  split; [discriminate|]. split; [lra|].
  apply (compute_la_eq_pipeline direct_filtfilt [Fin 1; NaN] 48000).
  - discriminate.
  - lra.
Defined.

(** One replaced sample: the worded pipeline reports the count, the
    routine reports nothing. *)
Lemma compute_la_eq_reports_no_count :
  reported (level_as_worded direct_filtfilt [Fin 1; NaN] 48000) <> [] /\
  reported (compute_la_eq direct_filtfilt [Fin 1; NaN] 48000) = [] /\
  compute_la_eq direct_filtfilt [Fin 1; NaN] 48000
    <> level_as_worded direct_filtfilt [Fin 1; NaN] 48000.
Proof.
  assert (Hw : reported (level_as_worded direct_filtfilt [Fin 1; NaN] 48000)
               <> []).
  { unfold level_as_worded, level_pipeline.
    unfold and_then at 1. simpl. discriminate. }
  pose proof (compute_reports_nothing direct_filtfilt [Fin 1; NaN] 48000) as Hc.
  split; [exact Hw|]. split; [exact Hc|].
  intros E. rewrite E in Hc. contradiction.
Qed.

(** *** Errors *)

Definition empty_signal : exn := ValueError "Empty signal.".
Definition bad_rate : exn := ValueError "Sampling frequency must be positive.".

Definition zeros (n : nat) : ndarray := repeat (Fin 0) n.

(** Every sample is a zero or is not finite. *)
Definition silent (x : ndarray) : Prop :=
  Forall (fun v => v = Fin 0 \/ isfinite v = false) x.

Lemma silent_sanitized (x : ndarray) :
  silent x -> sanitized_values x = repeat 0 (length x).
Proof.
  induction 1 as [|v x Hv _ IH]; simpl; [reflexivity|].
  rewrite IH. f_equal.
  destruct Hv as [->|Hv]; [reflexivity|]. destruct v; try reflexivity.
  discriminate.
Qed.

Lemma sum_zeros (n : nat) : forall a, fold_left Rplus (repeat 0 n) a = a.
Proof.
  induction n as [|n IH]; intros a; simpl; [reflexivity|].
  rewrite IH. ring.
Qed.

Lemma centred_zeros (n : nat) :
  map (fun v => Fin (v - arithmetic_mean (repeat 0 n))) (repeat 0 n) = zeros n.
Proof.
  assert (Hm : arithmetic_mean (repeat 0 n) = 0).
  { unfold arithmetic_mean. rewrite sum_zeros. unfold Rdiv. ring. }
  rewrite Hm. unfold zeros. clear Hm.
  induction n as [|n IH]; simpl; [reflexivity|].
  rewrite IH. do 2 f_equal. ring.
Qed.

Lemma squares_zeros (n : nat) :
  map (fun v => fmul v v) (zeros n) = zeros n.
Proof.
  unfold zeros. induction n as [|n IH]; simpl; [reflexivity|].
  rewrite IH. do 2 f_equal. ring.
Qed.

Lemma rms_zeros (n : nat) :
  n <> O -> fsqrt (mean (zeros n)) = Fin 0.
Proof.
  intros Hn. unfold zeros.
  change (repeat (Fin 0) n) with (repeat (Fin 0) n).
  assert (E : repeat (Fin 0) n = map Fin (repeat 0 n)).
  { induction n as [|m IH]; simpl; [reflexivity|].
    destruct m; [reflexivity|]. rewrite IH by discriminate. reflexivity. }
  rewrite E, mean_fin by (destruct n; [contradiction|discriminate]).
  unfold arithmetic_mean. rewrite sum_zeros. simpl.
  destruct (Rlt_dec (0 / INR (length (repeat 0 n))) 0) as [H|_].
  - unfold Rdiv in H. rewrite Rmult_0_l in H. lra.
  - unfold Rdiv. rewrite Rmult_0_l, sqrt_0. reflexivity.
Qed.

Lemma dot_zeros (c : list R) : forall v,
  Forall (fun s => s = Fin 0) v -> dot c v = Fin 0.
Proof.
  induction c as [|k c IH]; intros v Hv; [reflexivity|].
  destruct Hv as [|s v Hs Hv]; [reflexivity|]. subst s. simpl.
  rewrite (IH v Hv). simpl. f_equal. ring.
Qed.

Lemma lfilter_from_zeros (b a : list R) (n : nat) : forall xs ys,
  Forall (fun s => s = Fin 0) xs -> Forall (fun s => s = Fin 0) ys ->
  lfilter_from b a xs ys (zeros n) = zeros n.
Proof.
  induction n as [|n IH]; intros xs ys Hx Hy; [reflexivity|].
  unfold zeros. simpl repeat. cbn [lfilter_from].
  assert (Hx' : Forall (fun s => s = Fin 0) (Fin 0 :: xs))
    by (constructor; [reflexivity|exact Hx]).
  rewrite (dot_zeros b _ Hx'), (dot_zeros (tl a) _ Hy).
  assert (E : fsub (Fin 0) (Fin 0) = Fin 0) by (simpl; f_equal; ring).
  rewrite E. f_equal. apply IH; [exact Hx'|].
  constructor; [reflexivity|exact Hy].
Qed.

Lemma rev_zeros (n : nat) : rev (zeros n) = zeros n.
Proof.
  unfold zeros. induction n as [|n IH]; simpl; [reflexivity|].
  rewrite IH. clear IH. induction n as [|n IH]; simpl; [reflexivity|].
  f_equal. exact IH.
Qed.

Lemma direct_filtfilt_zeros (sos : sections) (n : nat) (y : ndarray) :
  direct_filtfilt sos (zeros n) = Ok y -> y = zeros n.
Proof.
  unfold direct_filtfilt, lfilter. intros H. inversion H; subst. clear H.
  rewrite (lfilter_from_zeros _ _ n [] []) by constructor.
  rewrite rev_zeros.
  rewrite (lfilter_from_zeros _ _ n [] []) by constructor.
  apply rev_zeros.
Qed.

(** *** The argument array is left alone *)

Lemma read_old (st extra : store) (r : ref) :
  (r < length st)%nat -> read (st ++ extra) r = read st r.
Proof. intros H. unfold read. apply app_nth1, H. Qed.

Lemma read_new (st : store) (a : ndarray) :
  read (st ++ [a]) (length st) = a.
Proof. unfold read. rewrite app_nth2, Nat.sub_diag by lia. reflexivity. Qed.

(** C10. The routine does not write to its argument: after the call every
    array that existed before it, the argument among them, holds the
    values it held; the store has only grown by the arrays the call
    allocated.  The result is the one of the routine on the values of the
    argument. *)
Theorem compute_la_eq_preserves_argument
    (sosfiltfilt : sections -> ndarray -> result ndarray)
    (st : store) (pressure_pa : ref) (fs : R) :
  (pressure_pa < length st)%nat ->
  let after := snd (compute_la_eq_in sosfiltfilt st pressure_pa fs) in
  read after pressure_pa = read st pressure_pa /\
  (exists fresh, after = st ++ fresh) /\
  (forall r, (r < length st)%nat -> read after r = read st r) /\
  fst (compute_la_eq_in sosfiltfilt st pressure_pa fs)
    = compute_la_eq sosfiltfilt (read st pressure_pa) fs.
Proof.
  intros Hr. cbv zeta.
  assert (H : (exists fresh,
                 snd (compute_la_eq_in sosfiltfilt st pressure_pa fs)
                 = st ++ fresh) /\
              fst (compute_la_eq_in sosfiltfilt st pressure_pa fs)
              = compute_la_eq sosfiltfilt (read st pressure_pa) fs).
  { unfold compute_la_eq_in, compute_la_eq.
    destruct (length (read st pressure_pa) =? 0)%nat.
    { split; [exists []; rewrite app_nil_r|]; reflexivity. }
    set (a := read st pressure_pa).
    assert (Hg : exists st1 p1 fresh1,
      (if negb (forallb isfinite a) then alloc (nan_to_num a) st
       else (pressure_pa, st)) = (p1, st1) /\ st1 = st ++ fresh1 /\
      read st1 p1 = (if negb (forallb isfinite a) then nan_to_num a else a)).
    { destruct (negb (forallb isfinite a)).
      - exists (st ++ [nan_to_num a]), (length st), [nan_to_num a].
        split; [reflexivity|]. split; [reflexivity|apply read_new].
      - exists st, pressure_pa, []. rewrite app_nil_r.
        split; [reflexivity|]. split; reflexivity. }
    destruct Hg as [st1 [p1 [fresh1 [-> [Hst1 Hp1]]]]].
    rewrite Hp1. set (g := if negb (forallb isfinite a) then _ else _).
    unfold alloc. cbv beta iota. rewrite !read_new.
    set (x := map (fun v => fsub v (mean g)) g).
    unfold and_then. rewrite design_reports_nothing.
    destruct (returned (design_a_weighting_sos fs)) as [sos|e].
    2:{ split; [|reflexivity].
        exists (fresh1 ++ [x]). simpl. rewrite Hst1, <- app_assoc.
        reflexivity. }
    simpl returned. simpl reported.
    destruct (sosfiltfilt sos x) as [y|e].
    2:{ split; [|reflexivity].
        exists (fresh1 ++ [x]). simpl. rewrite Hst1, <- app_assoc.
        reflexivity. }
    rewrite !read_new. simpl returned. simpl reported.
    destruct (fle _ _); (split; [|reflexivity]);
      exists (fresh1 ++ [x] ++ [y] ++ [map (fun v => fmul v v) y]);
      simpl; rewrite Hst1, <- !app_assoc; reflexivity. }
  destruct H as [[fresh Hst] Hres].
  split; [rewrite Hst; apply read_old, Hr|].
  split; [exists fresh; exact Hst|].
  split; [|exact Hres].
  intros r Hlt. rewrite Hst. apply read_old, Hlt.
Qed.

Lemma compute_la_eq_preserves_argument_witness :
  (0 < length [[Fin 1; NaN; PInf]])%nat /\
  read (snd (compute_la_eq_in direct_filtfilt [[Fin 1; NaN; PInf]] 0%nat
               48000)) 0%nat
  = [Fin 1; NaN; PInf].
Proof.
  split; [simpl; lia|].
  apply (proj1 (compute_la_eq_preserves_argument direct_filtfilt
                  [[Fin 1; NaN; PInf]] 0%nat 48000 ltac:(simpl; lia))).
Defined.

End LevelFacts.

(** ** Errors and warnings, over any SciPy (GGHydroSoundAnalyzer/main.py) *)

Module ErrorFacts.
Import Py PyNum NumPy SciPy Analyzer SpecWording LevelFacts.
Local Open Scope R_scope.

(** The signal that the routine hands to the filter: the samples with the
    non-finite ones replaced by zero, less their arithmetic mean. *)
Definition centred (x : ndarray) : ndarray :=
  map (fun v => Fin (v - arithmetic_mean (sanitized_values x)))
      (sanitized_values x).

(** What the routine makes of the filtered signal. *)
Definition level_of (x_a : ndarray) : outcome float :=
  let p_rms_a := fsqrt (mean (map (fun v => fmul v v) x_a)) in
  if fle p_rms_a (Fin 0)
  then ret NInf
  else ret (fmul (Fin 20) (flog10 (fdiv p_rms_a (Fin P0)))).

Section AnySciPy.

Variable bilinear : list R -> list R -> R -> outcome (list R * list R).
Variable tf2sos : list R -> list R -> outcome sections.
Variable sosfiltfilt : sections -> ndarray -> outcome ndarray.

Lemma compute_la_eq_core (x : ndarray) (fs : R) :
  x <> [] ->
  AnalyzerLib.compute_la_eq bilinear tf2sos sosfiltfilt x fs
  = and_then (AnalyzerLib.design_a_weighting_sos bilinear tf2sos fs)
      (fun sos => and_then (sosfiltfilt sos (centred x)) level_of).
Proof.
  intros Hx. unfold AnalyzerLib.compute_la_eq.
  destruct (length x =? 0)%nat eqn:E;
    [apply length_zero_iff in E; contradiction|].
  rewrite guarded_input.
  assert (Hs : sanitized_values x <> []).
  { unfold sanitized_values. destruct x; [contradiction|discriminate]. }
  rewrite (mean_fin _ Hs), map_map. reflexivity.
Qed.

Lemma sanitized_nan_to_num (x : ndarray) :
  sanitized_values (nan_to_num x) = sanitized_values x.
Proof.
  unfold sanitized_values, nan_to_num. rewrite map_map.
  apply map_ext. intros [r| | |]; reflexivity.
Qed.

Lemma compute_la_eq_sanitized (x : ndarray) (fs : R) :
  AnalyzerLib.compute_la_eq bilinear tf2sos sosfiltfilt x fs
  = AnalyzerLib.compute_la_eq bilinear tf2sos sosfiltfilt (nan_to_num x) fs.
Proof.
  destruct x as [|v x]; [reflexivity|].
  rewrite !compute_la_eq_core by discriminate.
  unfold centred. rewrite sanitized_nan_to_num. reflexivity.
Qed.

Lemma design_raises (fs : R) (e : exn) :
  0 < fs ->
  returned (AnalyzerLib.design_a_weighting_sos bilinear tf2sos fs) = Raise e ->
  returned (bilinear NUM DEN fs) = Raise e \/
  (exists b a, returned (bilinear NUM DEN fs) = Ok (b, a) /\
               returned (tf2sos b a) = Raise e).
Proof.
  intros Hfs. unfold AnalyzerLib.design_a_weighting_sos.
  destruct (Rle_dec fs 0); [lra|].
  unfold and_then. destruct (returned (bilinear NUM DEN fs)) as [[b a]|e'];
    simpl.
  - intros H. right. exists b, a. split; [reflexivity|exact H].
  - intros H. injection H as ->. left. reflexivity.
Qed.

Lemma centred_silent (x : ndarray) :
  silent x -> centred x = zeros (length x).
Proof.
  intros H. unfold centred. rewrite (silent_sanitized x H).
  apply centred_zeros.
Qed.

Lemma level_of_zeros (n : nat) : n <> 0%nat -> level_of (zeros n) = ret NInf.
Proof.
  intros Hn. unfold level_of. cbv zeta.
  rewrite squares_zeros, (rms_zeros n Hn). simpl.
  destruct (Rle_dec 0 0) as [_|N]; [reflexivity|lra].
Qed.

(** C1 (as amended).  The routine raises on an empty array and on a
    sample rate that is not positive.  Otherwise it raises nothing of its
    own: the non-finite samples are replaced by zero, so that the outcome
    is the one on the array with zeros in their place, and an error can
    only be the one that SciPy raised, in the bilinear transform or the
    conversion to sections of the design, or in the filtering of the
    centred signal by the designed sections.  When every sample is zero or
    not finite, the signal handed to the filter is all zero, and when the
    filter returns the zero signal for it, the result is the sentinel. *)
Theorem compute_la_eq_errors (samples : ndarray) (fs : R) :
  (samples = [] ->
   AnalyzerLib.compute_la_eq bilinear tf2sos sosfiltfilt samples fs
   = raise empty_signal) /\
  (samples <> [] -> fs <= 0 ->
   AnalyzerLib.compute_la_eq bilinear tf2sos sosfiltfilt samples fs
   = raise bad_rate) /\
  AnalyzerLib.compute_la_eq bilinear tf2sos sosfiltfilt samples fs
  = AnalyzerLib.compute_la_eq bilinear tf2sos sosfiltfilt
      (nan_to_num samples) fs /\
  (samples <> [] -> 0 < fs ->
   forall e,
     returned (AnalyzerLib.compute_la_eq bilinear tf2sos sosfiltfilt
                 samples fs) = Raise e ->
     returned (bilinear NUM DEN fs) = Raise e \/
     (exists b a, returned (bilinear NUM DEN fs) = Ok (b, a) /\
                  returned (tf2sos b a) = Raise e) \/
     (exists sos,
        returned (AnalyzerLib.design_a_weighting_sos bilinear tf2sos fs)
        = Ok sos /\
        returned (sosfiltfilt sos (centred samples)) = Raise e)) /\
  (samples <> [] -> silent samples ->
   centred samples = zeros (length samples) /\
   forall sos,
     returned (AnalyzerLib.design_a_weighting_sos bilinear tf2sos fs)
     = Ok sos ->
     returned (sosfiltfilt sos (zeros (length samples)))
     = Ok (zeros (length samples)) ->
     returned (AnalyzerLib.compute_la_eq bilinear tf2sos sosfiltfilt
                 samples fs) = Ok NInf).
Proof.
  split; [|split; [|split; [|split]]].
  - intros ->. reflexivity.
  - intros Hx Hfs. rewrite (compute_la_eq_core samples fs Hx).
    unfold AnalyzerLib.design_a_weighting_sos.
    destruct (Rle_dec fs 0); [reflexivity|lra].
  - apply compute_la_eq_sanitized.
  - intros Hx Hfs e. rewrite (compute_la_eq_core samples fs Hx).
    unfold and_then at 1.
    destruct (returned (AnalyzerLib.design_a_weighting_sos bilinear tf2sos fs))
      as [sos|e'] eqn:Ed; cbn [returned].
    + unfold and_then.
      destruct (returned (sosfiltfilt sos (centred samples))) as [y|e'] eqn:Ef;
        cbn [returned].
      * unfold level_of. cbv zeta. destruct (fle _ _); discriminate.
      * intros H. injection H as ->. right. right. exists sos.
        split; [reflexivity|exact Ef].
    + intros H. injection H as ->.
      destruct (design_raises fs e Hfs Ed) as [Hb|Ht]; [left|right; left];
        assumption.
  - intros Hx Hsil. split; [apply centred_silent, Hsil|].
    intros sos Hsos Hf. rewrite (compute_la_eq_core samples fs Hx).
    rewrite (centred_silent samples Hsil).
    unfold and_then at 1. rewrite Hsos. cbn [returned].
    unfold and_then. rewrite Hf. cbn [returned].
    rewrite level_of_zeros; [reflexivity|].
    destruct samples; [contradiction|discriminate].
Qed.


End AnySciPy.

(** The design over the SciPy that succeeds is the design of [Analyzer]. *)
Lemma quiet_design (fs : R) :
  AnalyzerLib.design_a_weighting_sos
    AnalyzerLib.quiet_bilinear AnalyzerLib.quiet_tf2sos fs
  = design_a_weighting_sos fs.
Proof.
  unfold AnalyzerLib.design_a_weighting_sos, design_a_weighting_sos,
    AnalyzerLib.quiet_bilinear, AnalyzerLib.quiet_tf2sos.
  destruct (Rle_dec fs 0); [reflexivity|].
  destruct (bilinear NUM DEN fs) as [b a]. reflexivity.
Qed.

(** So is the level computation, for a filter that only returns or
    raises. *)
Lemma quiet_compute_la_eq
    (sosfiltfilt : sections -> ndarray -> result ndarray)
    (x : ndarray) (fs : R) :
  AnalyzerLib.compute_la_eq AnalyzerLib.quiet_bilinear
    AnalyzerLib.quiet_tf2sos (fun sos x => lift (sosfiltfilt sos x)) x fs
  = compute_la_eq sosfiltfilt x fs.
Proof.
  unfold AnalyzerLib.compute_la_eq, compute_la_eq.
  rewrite quiet_design. reflexivity.
Qed.

(** An array of 22 samples, zeros and one not-a-number, and one of three. *)
Definition silence22 : ndarray := repeat (Fin 0) 21 ++ [NaN].
Definition silence3 : ndarray := [Fin 0; NaN; Fin 0].

Lemma silent_silence22 : silent silence22.
Proof.
  unfold silent, silence22. apply Forall_app. split.
  - apply Forall_forall. intros v Hv. apply repeat_spec in Hv. left. exact Hv.
  - constructor; [right; reflexivity|constructor].
Qed.

Lemma padded_filtfilt_zeros (sos : sections) (n : nat) :
  (AnalyzerLib.PADLEN < n)%nat ->
  returned (AnalyzerLib.padded_filtfilt sos (zeros n)) = Ok (zeros n).
Proof.
  intros Hn. unfold AnalyzerLib.padded_filtfilt, zeros.
  rewrite repeat_length.
  destruct (n <=? AnalyzerLib.PADLEN)%nat eqn:E;
    [apply Nat.leb_le in E; lia|].
  cbn [lift returned].
  destruct (direct_filtfilt sos (repeat (Fin 0) n)) as [y|e] eqn:Ef.
  - f_equal. exact (direct_filtfilt_zeros sos n y Ef).
  - unfold direct_filtfilt in Ef. discriminate.
Qed.

Lemma length_centred (x : ndarray) : length (centred x) = length x.
Proof. unfold centred, sanitized_values. rewrite !length_map. reflexivity. Qed.

Lemma padded_filtfilt_short (sos : sections) (x : ndarray) :
  (length x <= AnalyzerLib.PADLEN)%nat ->
  AnalyzerLib.padded_filtfilt sos x = raise AnalyzerLib.too_short.
Proof.
  intros H. unfold AnalyzerLib.padded_filtfilt.
  apply Nat.leb_le in H. rewrite H. reflexivity.
Qed.

Lemma compute_la_eq_errors_witness :
  silence22 <> [] /\ silent silence22 /\
  returned (AnalyzerLib.compute_la_eq AnalyzerLib.quiet_bilinear
              AnalyzerLib.quiet_tf2sos AnalyzerLib.padded_filtfilt
              silence22 48000) = Ok NInf /\
  silence3 <> [] /\ 0 < 48000 /\
  returned (AnalyzerLib.compute_la_eq AnalyzerLib.quiet_bilinear
              AnalyzerLib.quiet_tf2sos AnalyzerLib.padded_filtfilt
              silence3 48000) = Raise AnalyzerLib.too_short /\
  AnalyzerLib.compute_la_eq AnalyzerLib.quiet_bilinear
    AnalyzerLib.quiet_tf2sos AnalyzerLib.padded_filtfilt [Fin 1] 0
  = raise bad_rate.
Proof.
  assert (Hne : silence22 <> []) by discriminate.
  assert (Hfs : 0 < 48000) by lra.
  pose proof silent_silence22 as Hsil.
  destruct (design_returns 48000 Hfs) as [sos Hsos].
  assert (Hd : returned (AnalyzerLib.design_a_weighting_sos
                           AnalyzerLib.quiet_bilinear
                           AnalyzerLib.quiet_tf2sos 48000) = Ok sos)
    by (rewrite quiet_design, Hsos; reflexivity).
  split; [exact Hne|]. split; [exact Hsil|]. split.
  { destruct (compute_la_eq_errors AnalyzerLib.quiet_bilinear
                AnalyzerLib.quiet_tf2sos AnalyzerLib.padded_filtfilt
                silence22 48000) as [_ [_ [_ [_ H]]]].
    destruct (H Hne Hsil) as [_ H']. apply (H' sos Hd).
    apply padded_filtfilt_zeros. unfold AnalyzerLib.PADLEN. simpl. lia. }
  assert (Hne3 : silence3 <> []) by discriminate.
  split; [exact Hne3|]. split; [exact Hfs|]. split.
  { destruct (compute_la_eq_errors AnalyzerLib.quiet_bilinear
                AnalyzerLib.quiet_tf2sos AnalyzerLib.padded_filtfilt
                silence3 48000) as [_ [_ [_ [H _]]]].
    assert (Hshort : forall s,
              AnalyzerLib.padded_filtfilt s (centred silence3)
              = raise AnalyzerLib.too_short).
    { intros s. apply padded_filtfilt_short. rewrite length_centred.
      unfold AnalyzerLib.PADLEN. simpl. lia. }
    destruct (returned (AnalyzerLib.compute_la_eq AnalyzerLib.quiet_bilinear
                AnalyzerLib.quiet_tf2sos AnalyzerLib.padded_filtfilt
                silence3 48000)) as [v|e] eqn:E.
    - exfalso. rewrite (compute_la_eq_core _ _ _ silence3 48000 Hne3) in E.
      unfold and_then at 1 in E. rewrite Hd in E. cbn [returned] in E.
      rewrite Hshort in E. discriminate.
    - f_equal.
      destruct (H Hne3 Hfs e eq_refl) as [Hb|[[b [a [_ Ht]]]|[s [_ Hf]]]].
      + discriminate.
      + discriminate.
      + rewrite Hshort in Hf. injection Hf as <-. reflexivity. }
  apply (proj1 (proj2 (compute_la_eq_errors AnalyzerLib.quiet_bilinear
                  AnalyzerLib.quiet_tf2sos AnalyzerLib.padded_filtfilt
                  [Fin 1] 0))).
  - discriminate.
  - lra.
Defined.

(** The empty array makes the routine raise. *)
Lemma compute_la_eq_raises_on_empty :
  returned (AnalyzerLib.compute_la_eq AnalyzerLib.quiet_bilinear
              AnalyzerLib.quiet_tf2sos AnalyzerLib.padded_filtfilt [] 48000)
  = Raise empty_signal /\
  returned (AnalyzerLib.compute_la_eq AnalyzerLib.quiet_bilinear
              AnalyzerLib.quiet_tf2sos AnalyzerLib.padded_filtfilt [] 48000)
  <> Ok NInf.
Proof. split; [reflexivity|discriminate]. Qed.





End ErrorFacts.

(** ** Frequency response of the designed filter *)

Module ResponseFacts.
Import Py PyNum NumPy Cx SciPy Analyzer NumFacts LevelFacts.
Local Open Scope R_scope.

Lemma C_eq (a b : C) : re a = re b -> im a = im b -> a = b.
Proof. destruct a, b; simpl; intros -> ->; reflexivity. Qed.

Ltac cx := intros; apply C_eq; unfold Cadd, Cmul, Csub, Copp, RtoC, re, im;
           simpl; try ring.

Lemma Cnorm2_zero (a : C) : Cnorm2 a = 0 -> a = RtoC 0.
Proof.
  destruct a as [x y]. unfold Cnorm2, RtoC; simpl. intros H.
  assert (x = 0) by nra. assert (y = 0) by nra. subst; reflexivity.
Qed.

Lemma Cinv_l (a : C) : a <> RtoC 0 -> Cmul (Cinv a) a = RtoC 1.
Proof.
  intros Ha.
  assert (Hn : Cnorm2 a <> 0) by (intros E; apply Ha, Cnorm2_zero, E).
  apply C_eq; unfold Cinv, Cmul, RtoC, re, im; simpl;
    unfold Cnorm2, re, im in *; field; exact Hn.
Qed.

Lemma C_ring : ring_theory (RtoC 0) (RtoC 1) Cadd Cmul Csub Copp eq.
Proof. constructor; try (cx; fail). reflexivity. Qed.

Lemma C_field :
  field_theory (RtoC 0) (RtoC 1) Cadd Cmul Csub Copp Cdiv Cinv eq.
Proof.
  constructor.
  - exact C_ring.
  - intros E. inversion E. lra.
  - reflexivity.
  - exact Cinv_l.
Qed.

Add Field Cfield : C_field.


(** Evaluation of a polynomial given lowest power first. *)
Fixpoint eval_low (p : list R) (z : C) : C :=
  match p with
  | [] => RtoC 0
  | a :: r => Cadd (RtoC a) (Cmul z (eval_low r z))
  end.


(** Componentwise proof of an identity between complex expressions. *)
Ltac by_parts :=
  apply C_eq; cbn [eval_low Cpow];
  cbv [Cadd Csub Copp Cmul RtoC re im]; cbn [fst snd]; ring.

Lemma eval_low_app (p q : list R) (z : C) :
  eval_low (p ++ q) z = Cadd (eval_low p z) (Cmul (Cpow z (length p)) (eval_low q z)).
Proof.
  induction p as [|a p IH]; simpl.
  - ring.
  - rewrite IH. ring.
Qed.

Lemma polyval_from (p : list R) (z acc : C) :
  fold_left (fun acc c => Cadd (Cmul acc z) (RtoC c)) p acc
  = Cadd (Cmul acc (Cpow z (length p))) (eval_low (rev p) z).
Proof.
  revert acc. induction p as [|a p IH]; intros acc; simpl.
  - ring.
  - rewrite IH, eval_low_app, length_rev. simpl. ring.
Qed.

Lemma polyval_eval_low (p : list R) (z : C) :
  polyval p z = eval_low (rev p) z.
Proof. unfold polyval. rewrite polyval_from. ring. Qed.

Lemma eval_low_padd (p q : list R) (z : C) :
  eval_low (padd_low p q) z = Cadd (eval_low p z) (eval_low q z).
Proof.
  revert q. induction p as [|a p IH]; intros [|b q]; simpl; try ring.
  rewrite IH. by_parts.
Qed.

Lemma eval_low_scale (k : R) (p : list R) (z : C) :
  eval_low (map (Rmult k) p) z = Cmul (RtoC k) (eval_low p z).
Proof.
  induction p as [|a p IH]; simpl.
  - ring.
  - rewrite IH. by_parts.
Qed.

Lemma eval_low_pmul (p q : list R) (z : C) :
  eval_low (pmul_low p q) z = Cmul (eval_low p z) (eval_low q z).
Proof.
  induction p as [|a p IH]; simpl.
  - ring.
  - rewrite eval_low_padd, eval_low_scale. simpl. rewrite IH.
    by_parts.
Qed.

Lemma eval_low_ppow (p : list R) (n : nat) (z : C) :
  eval_low (ppow_low p n) z = Cpow (eval_low p z) n.
Proof.
  induction n as [|n IH]; simpl.
  - by_parts.
  - rewrite eval_low_pmul, IH. reflexivity.
Qed.

Lemma polyval_polymul (p q : list R) (z : C) :
  polyval (polymul p q) z = Cmul (polyval p z) (polyval q z).
Proof.
  rewrite !polyval_eval_low. unfold polymul.
  rewrite rev_involutive. apply eval_low_pmul.
Qed.

Lemma Cpow_add (z : C) (n m : nat) :
  Cpow z (n + m) = Cmul (Cpow z n) (Cpow z m).
Proof. induction n as [|n IH]; cbn [Cpow Nat.add]; [ring|rewrite IH; ring]. Qed.

Lemma Cpow_mul (a b : C) (n : nat) :
  Cpow (Cmul a b) n = Cmul (Cpow a n) (Cpow b n).
Proof. induction n as [|n IH]; cbn [Cpow]; [ring|rewrite IH; ring]. Qed.

Lemma RtoC_mul (a b : R) : RtoC (a * b) = Cmul (RtoC a) (RtoC b).
Proof. by_parts. Qed.

Lemma RtoC_pow (a : R) (n : nat) : RtoC (a ^ n) = Cpow (RtoC a) n.
Proof.
  induction n as [|n IH]; simpl; [reflexivity|].
  rewrite RtoC_mul, IH. reflexivity.
Qed.

(** The substitution behind the bilinear transform. *)
Section Bilinear.
Variable fs : R.
Variable z : C.
Hypothesis z_not_minus_one : Cadd z (RtoC 1) <> RtoC 0.

Definition warp : C :=
  Cdiv (Cmul (RtoC (2 * fs)) (Csub z (RtoC 1))) (Cadd z (RtoC 1)).

Lemma eval_minus_one : eval_low [-1; 1] z = Csub z (RtoC 1).
Proof. by_parts. Qed.

Lemma eval_plus_one : eval_low [1; 1] z = Cadd z (RtoC 1).
Proof. by_parts. Qed.

Lemma warp_power (i : nat) :
  Cmul (Cpow warp i) (Cpow (Cadd z (RtoC 1)) i)
  = Cmul (Cpow (RtoC (2 * fs)) i) (Cpow (Csub z (RtoC 1)) i).
Proof.
  rewrite <- !Cpow_mul. f_equal. unfold warp. field. exact z_not_minus_one.
Qed.

Lemma bilinear_low_eval (M : nat) (c : list R) : forall i,
  (i + length c <= S M)%nat ->
  eval_low (bilinear_low c i M fs) z
  = Cmul (Cpow (Cadd z (RtoC 1)) M) (Cmul (Cpow warp i) (eval_low c warp)).
Proof.
  induction c as [|cj c IH]; intros i Hi; simpl.
  - ring.
  - simpl in Hi.
    rewrite eval_low_padd, eval_low_scale, eval_low_pmul, !eval_low_ppow.
    rewrite eval_minus_one, eval_plus_one, IH by lia.
    rewrite RtoC_mul, RtoC_pow.
    replace M with (i + (M - i))%nat at 2 3 by lia.
    rewrite Cpow_add.
    simpl Cpow.
    set (u := Cpow (Cadd z (RtoC 1)) (M - i)).
    transitivity (Cadd (Cmul (Cmul (RtoC cj) u)
                          (Cmul (Cpow (RtoC (2 * fs)) i) (Cpow (Csub z (RtoC 1)) i)))
                    (Cmul (Cmul (Cpow (Cadd z (RtoC 1)) i) u)
                       (Cmul (Cmul warp (Cpow warp i)) (eval_low c warp)))).
    { ring. }
    rewrite <- warp_power. ring.
Qed.

End Bilinear.

Lemma polyval_rev (l : list R) (z : C) : polyval (rev l) z = eval_low l z.
Proof. rewrite polyval_eval_low, rev_involutive. reflexivity. Qed.

Lemma eval_low_div (k : R) (p : list R) (z : C) :
  eval_low (map (fun c => c / k) p) z = Cmul (RtoC (/ k)) (eval_low p z).
Proof.
  induction p as [|a p IH]; cbn [map eval_low].
  - ring.
  - rewrite IH. apply C_eq; cbv [Cadd Csub Copp Cmul RtoC re im Rdiv];
      cbn [fst snd]; ring.
Qed.

Lemma polyval_div (k : R) (p : list R) (z : C) :
  polyval (map (fun c => c / k) p) z = Cmul (RtoC (/ k)) (polyval p z).
Proof. rewrite !polyval_eval_low, <- map_rev. apply eval_low_div. Qed.

Lemma Cpow_nonzero (a : C) (n : nat) : a <> RtoC 0 -> Cpow a n <> RtoC 0.
Proof.
  intros Ha. induction n as [|n IH]; cbn [Cpow].
  - intros E. inversion E. lra.
  - intros E. apply IH.
    transitivity (Cmul (Cinv a) (Cmul a (Cpow a n))).
    + field. exact Ha.
    + rewrite E. ring.
Qed.

Lemma RtoC_nonzero (k : R) : k <> 0 -> RtoC k <> RtoC 0.
Proof. intros Hk E. inversion E. contradiction. Qed.

(** The transfer function that [bilinear] returns is the analog one at
    the warped point. *)
Lemma bilinear_response (b a : list R) (fs : R) (z : C) :
  Cadd z (RtoC 1) <> RtoC 0 ->
  hd 0 (rev (bilinear_low (rev a) 0
               (Nat.max (length b - 1) (length a - 1)) fs)) <> 0 ->
  polyval a (warp fs z) <> RtoC 0 ->
  let (b_z, a_z) := bilinear b a fs in
  response (tf2sos b_z a_z) z
  = Cdiv (polyval b (warp fs z)) (polyval a (warp fs z)).
Proof.
  intros Hz Ha0 Hden. unfold bilinear, response, tf2sos. cbn [num den].
  set (M := Nat.max (length b - 1) (length a - 1)) in *.
  set (a0 := hd 0 (rev (bilinear_low (rev a) 0 M fs))) in *.
  rewrite !polyval_div, !polyval_rev.
  rewrite !(bilinear_low_eval fs z Hz M) by (rewrite length_rev; lia).
  rewrite <- !polyval_eval_low. cbn [Cpow].
  assert (Hu : Cpow (Cadd z (RtoC 1)) M <> RtoC 0)
    by (apply Cpow_nonzero, Hz).
  assert (Hk : RtoC (/ a0) <> RtoC 0)
    by (apply RtoC_nonzero, Rinv_neq_0_compat, Ha0).
  field. repeat split; assumption.
Qed.

(** *** The analog prototype *)

Lemma lead7 (a0 a1 a2 a3 a4 a5 a6 fs : R) :
  hd 0 (rev (bilinear_low [a0; a1; a2; a3; a4; a5; a6] 0 6 fs))
  = re (eval_low [a0; a1; a2; a3; a4; a5; a6] (RtoC (2 * fs))).
Proof.
  cbv [bilinear_low ppow_low pmul_low padd_low map rev app hd Nat.sub
       eval_low Cadd Cmul RtoC re im fst snd pow].
  ring.
Qed.

Lemma DEN_shape : exists a0 a1 a2 a3 a4 a5 a6, rev DEN = [a0; a1; a2; a3; a4; a5; a6].
Proof.
  cbv [DEN polymul pmul_low padd_low map rev app]. repeat eexists.
Qed.

Definition w1 : R := 2 * PI * f1.
Definition w2 : R := 2 * PI * f2.
Definition w3 : R := 2 * PI * f3.
Definition w4 : R := 2 * PI * f4.

Lemma polyval_quad (p q : R) (s : C) :
  polyval [1; p; q] s = Cadd (Cmul s s) (Cadd (Cmul (RtoC p) s) (RtoC q)).
Proof.
  unfold polyval. cbn [fold_left].
  apply C_eq; cbv [Cadd Csub Copp Cmul RtoC re im]; cbn [fst snd]; ring.
Qed.

Lemma polyval_lin (c : R) (s : C) : polyval [1; c] s = Cadd s (RtoC c).
Proof.
  unfold polyval. cbn [fold_left].
  apply C_eq; cbv [Cadd Csub Copp Cmul RtoC re im]; cbn [fst snd]; ring.
Qed.

Lemma polyval_DEN (s : C) :
  polyval DEN s =
  Cmul (Cmul (Cadd s (RtoC w4)) (Cadd s (RtoC w4)))
    (Cmul (Cmul (Cadd s (RtoC w1)) (Cadd s (RtoC w1)))
       (Cmul (Cadd s (RtoC w3)) (Cadd s (RtoC w2)))).
Proof.
  unfold DEN. rewrite !polyval_polymul, !polyval_quad, !polyval_lin.
  unfold w1, w2, w3, w4.
  apply C_eq; cbv [Cadd Csub Copp Cmul RtoC re im]; cbn [fst snd]; ring.
Qed.

Lemma polyval_NUM (s : C) :
  polyval NUM s =
  Cmul (RtoC (w4 ^ 2 * Rpower 10 (A1000 / 20))) (Cpow s 4).
Proof.
  unfold NUM, polyval, w4. cbn [fold_left Cpow].
  apply C_eq; cbv [Cadd Csub Copp Cmul RtoC re im]; cbn [fst snd]; ring.
Qed.

Lemma PI_bounds : 31415 / 10000 < PI < 31417 / 10000.
Proof.
  pose proof (PI_2_3_7_ineq 2) as [Hl Hu].
  unfold sum_f_R0, tg_alt, PI_2_3_7_tg, Ratan_seq in Hl, Hu.
  simpl in Hl, Hu.
  split; lra.
Qed.

Lemma w_pos : 0 < w1 /\ 0 < w2 /\ 0 < w3 /\ 0 < w4.
Proof.
  pose proof PI_RGT_0 as Hpi.
  unfold w1, w2, w3, w4, f1, f2, f3, f4. repeat split; nra.
Qed.

Lemma lead_DEN (fs : R) :
  0 < fs ->
  hd 0 (rev (bilinear_low (rev DEN) 0
               (Nat.max (length NUM - 1) (length DEN - 1)) fs)) <> 0.
Proof.
  intros Hfs.
  assert (Hlen : length DEN = 7%nat).
  { rewrite <- length_rev. destruct DEN_shape as (a0&a1&a2&a3&a4&a5&a6&E).
    rewrite E. reflexivity. }
  rewrite Hlen. change (Nat.max (length NUM - 1) (7 - 1)) with 6%nat.
  destruct DEN_shape as (a0&a1&a2&a3&a4&a5&a6&E).
  rewrite E, lead7, <- E, <- polyval_eval_low, polyval_DEN.
  destruct w_pos as (H1&H2&H3&H4).
  cbv [Cadd Csub Copp Cmul RtoC re im]; cbn [fst snd].
  assert (Hx : 0 < 2 * fs) by lra.
  set (x := 2 * fs) in *.
  match goal with |- ?e <> 0 =>
    replace e with ((x + w4) * (x + w4) * ((x + w1) * (x + w1) * ((x + w3) * (x + w2)))) by ring end.
  apply Rgt_not_eq.
  repeat apply Rmult_lt_0_compat; lra.
Qed.

(** *** Moduli *)

Lemma Cnorm2_mul (a b : C) : Cnorm2 (Cmul a b) = Cnorm2 a * Cnorm2 b.
Proof. cbv [Cnorm2 Cmul re im]; cbn [fst snd]; ring. Qed.

Lemma Cnorm2_nonzero (a : C) : a <> RtoC 0 -> Cnorm2 a <> 0.
Proof. intros Ha E. apply Ha, Cnorm2_zero, E. Qed.

Lemma Cnorm2_inv (a : C) : a <> RtoC 0 -> Cnorm2 (Cinv a) = / Cnorm2 a.
Proof.
  intros Ha. pose proof (Cnorm2_nonzero a Ha) as Hn.
  unfold Cinv. unfold Cnorm2 at 1. cbn [re im fst snd].
  set (n := Cnorm2 a) in *.
  replace (re a / n * (re a / n) + - im a / n * (- im a / n))
    with ((re a * re a + im a * im a) / (n * n)) by (field; exact Hn).
  change (re a * re a + im a * im a) with n. field. exact Hn.
Qed.

Lemma Cnorm2_div (a b : C) :
  b <> RtoC 0 -> Cnorm2 (Cdiv a b) = Cnorm2 a / Cnorm2 b.
Proof.
  intros Hb. unfold Cdiv. rewrite Cnorm2_mul, Cnorm2_inv by exact Hb.
  reflexivity.
Qed.

Lemma Cnorm2_shift (W c : R) : Cnorm2 (Cadd (0, W) (RtoC c)) = W ^ 2 + c ^ 2.
Proof. cbv [Cnorm2 Cadd RtoC re im]; cbn [fst snd]; ring. Qed.

Lemma Cnorm2_pow4 (W : R) : Cnorm2 (Cpow (0, W) 4) = W ^ 8.
Proof. cbv [Cnorm2 Cpow Cmul RtoC re im]; cbn [fst snd]; ring. Qed.

Lemma Cnorm2_RtoC (k : R) : Cnorm2 (RtoC k) = k ^ 2.
Proof. cbv [Cnorm2 RtoC re im]; cbn [fst snd]; ring. Qed.

(** Squared modulus of the analog prototype on the imaginary axis. *)
Definition analog_gain2 (W : R) : R :=
  (w4 ^ 2 * Rpower 10 (A1000 / 20)) ^ 2 * W ^ 8
  / ((W ^ 2 + w4 ^ 2) * (W ^ 2 + w4 ^ 2)
     * ((W ^ 2 + w1 ^ 2) * (W ^ 2 + w1 ^ 2)
        * ((W ^ 2 + w3 ^ 2) * (W ^ 2 + w2 ^ 2)))).

Lemma shift_pos (W c : R) : 0 < c -> 0 < W ^ 2 + c ^ 2.
Proof. intros Hc. nra. Qed.

Lemma Cnorm2_DEN (W : R) :
  Cnorm2 (polyval DEN (0, W))
  = (W ^ 2 + w4 ^ 2) * (W ^ 2 + w4 ^ 2)
    * ((W ^ 2 + w1 ^ 2) * (W ^ 2 + w1 ^ 2)
       * ((W ^ 2 + w3 ^ 2) * (W ^ 2 + w2 ^ 2))).
Proof. rewrite polyval_DEN, !Cnorm2_mul, !Cnorm2_shift. reflexivity. Qed.

Lemma Cnorm2_DEN_pos (W : R) : 0 < Cnorm2 (polyval DEN (0, W)).
Proof.
  rewrite Cnorm2_DEN. destruct w_pos as (H1&H2&H3&H4).
  repeat apply Rmult_lt_0_compat; apply shift_pos; assumption.
Qed.

Lemma polyval_DEN_nonzero (W : R) : polyval DEN (0, W) <> RtoC 0.
Proof.
  intros E. pose proof (Cnorm2_DEN_pos W) as H. rewrite E in H.
  rewrite Cnorm2_RtoC in H. lra.
Qed.

Lemma analog_response (W : R) :
  Cnorm2 (Cdiv (polyval NUM (0, W)) (polyval DEN (0, W))) = analog_gain2 W.
Proof.
  rewrite Cnorm2_div by apply polyval_DEN_nonzero.
  rewrite Cnorm2_DEN, polyval_NUM, Cnorm2_mul, Cnorm2_RtoC, Cnorm2_pow4.
  reflexivity.
Qed.

(** *** The warped frequency *)

Lemma cis_not_minus_one (w : R) :
  1 + cos w <> 0 -> Cadd (cis w) (RtoC 1) <> RtoC 0.
Proof.
  intros H E. apply H. inversion E as [[Hre Him]]. lra.
Qed.

Lemma C_cancel (a b u : C) :
  u <> RtoC 0 -> Cmul a u = Cmul b u -> a = b.
Proof.
  intros Hu E.
  transitivity (Cmul (Cmul a u) (Cinv u)); [field; exact Hu|].
  rewrite E. field. exact Hu.
Qed.

Lemma warp_cis (fs w : R) :
  1 + cos w <> 0 ->
  warp fs (cis w) = (0, 2 * fs * (sin w / (1 + cos w))).
Proof.
  intros Hc. pose proof (cis_not_minus_one w Hc) as Hz.
  apply (C_cancel _ _ (Cadd (cis w) (RtoC 1)) Hz).
  transitivity (Cmul (RtoC (2 * fs)) (Csub (cis w) (RtoC 1))).
  { unfold warp. field. exact Hz. }
  pose proof (sin2_cos2 w) as H. unfold Rsqr in H.
  assert (Hs : sin w * sin w = (1 - cos w) * (1 + cos w)) by lra.
  apply C_eq; cbv [Cadd Csub Copp Cmul RtoC re im cis]; cbn [fst snd].
  - transitivity (2 * fs * (cos w - 1)); [ring|].
    transitivity (- (2 * fs) * ((sin w * sin w) / (1 + cos w)));
      [rewrite Hs|]; field; exact Hc.
  - field. exact Hc.
Qed.

Lemma tan_half (x : R) :
  cos x <> 0 -> sin (2 * x) / (1 + cos (2 * x)) = tan x.
Proof.
  intros Hc. rewrite sin_2a, cos_2a_cos. unfold tan. field.
  split; [exact Hc|]. nra.
Qed.

(** *** The gain of the designed filter *)

Lemma a_weighting_gain_sq (F : R) :
  0 <= SpecWording.a_weighting_gain F /\
  (SpecWording.a_weighting_gain F) ^ 2 = analog_gain2 (2 * PI * F).
Proof.
  unfold SpecWording.a_weighting_gain. cbv zeta.
  assert (Hf : 0 < f1 /\ 0 < f2 /\ 0 < f3 /\ 0 < f4)
    by (unfold f1, f2, f3, f4; repeat split; lra).
  destruct Hf as (H1&H2&H3&H4).
  set (K := Rpower 10 (A1000 / 20)).
  assert (HK : 0 < K) by (apply exp_pos).
  assert (P2 : 0 < F ^ 2 + f2 ^ 2) by (apply shift_pos, H2).
  assert (P3 : 0 < F ^ 2 + f3 ^ 2) by (apply shift_pos, H3).
  assert (P1 : 0 < F ^ 2 + f1 ^ 2) by (apply shift_pos, H1).
  assert (P4 : 0 < F ^ 2 + f4 ^ 2) by (apply shift_pos, H4).
  pose proof (sqrt_lt_R0 _ P2) as S2. pose proof (sqrt_lt_R0 _ P3) as S3.
  pose proof (sqrt_sqrt _ (Rlt_le _ _ P2)) as Q2.
  pose proof (sqrt_sqrt _ (Rlt_le _ _ P3)) as Q3.
  set (s2 := sqrt (F ^ 2 + f2 ^ 2)) in *.
  set (s3 := sqrt (F ^ 2 + f3 ^ 2)) in *.
  pose proof PI_RGT_0 as Hpi.
  split.
  - apply Rmult_le_pos.
    + apply Rmult_le_pos; [lra|]. apply Rmult_le_pos; [nra|].
      replace (F ^ 4) with ((F ^ 2) ^ 2) by ring. apply pow2_ge_0.
    + left. apply Rinv_0_lt_compat.
      repeat apply Rmult_lt_0_compat; assumption.
  - transitivity (K ^ 2 * f4 ^ 4 * F ^ 8
                  / ((F ^ 2 + f1 ^ 2) ^ 2 * (s2 * s2) * (s3 * s3)
                     * (F ^ 2 + f4 ^ 2) ^ 2)).
    { field. repeat split; apply Rgt_not_eq; assumption. }
    rewrite Q2, Q3. unfold analog_gain2, w1, w2, w3, w4. fold K.
    field.
    repeat split; apply Rgt_not_eq; unfold Rgt;
      first [assumption
            | apply shift_pos; apply Rmult_lt_0_compat; [lra|assumption]].
Qed.

Lemma design_gain (fs f : R) (sos : sections) :
  0 < fs -> 0 <= f < fs / 2 ->
  returned (design_a_weighting_sos fs) = Ok sos ->
  gain sos fs f = SpecWording.a_weighting_gain (fs / PI * tan (PI * f / fs)).
Proof.
  intros Hfs Hf Hsos.
  pose proof PI_RGT_0 as Hpi.
  set (x := PI * f / fs).
  assert (Hx : 0 <= x < PI / 2).
  { unfold x. split.
    - apply Rmult_le_pos; [nra|left; apply Rinv_0_lt_compat, Hfs].
    - apply Rmult_lt_reg_r with fs; [exact Hfs|].
      unfold Rdiv. rewrite Rmult_assoc, Rinv_l by lra. nra. }
  assert (Hcx : 0 < cos x) by (apply cos_gt_0; lra).
  assert (Hw : 2 * PI * f / fs = 2 * x) by (unfold x; field; lra).
  assert (Hc : 1 + cos (2 * x) <> 0).
  { rewrite cos_2a_cos. nra. }
  unfold gain. rewrite Hw.
  unfold design_a_weighting_sos in Hsos.
  destruct (Rle_dec fs 0) as [|_]; [lra|].
  pose proof (bilinear_response NUM DEN fs (cis (2 * x))
                (cis_not_minus_one _ Hc) (lead_DEN fs Hfs)) as Hr.
  rewrite (warp_cis fs (2 * x) Hc) in Hr.
  specialize (Hr (polyval_DEN_nonzero _)).
  destruct (bilinear NUM DEN fs) as [b_z a_z].
  simpl in Hsos. inversion Hsos; subst sos. clear Hsos.
  unfold Cmod. rewrite Hr, analog_response, tan_half by lra.
  destruct (a_weighting_gain_sq (fs / PI * tan x)) as [Hpos Hsq].
  replace (2 * fs * tan x) with (2 * PI * (fs / PI * tan x)) by (field; lra).
  rewrite <- Hsq. replace (SpecWording.a_weighting_gain (fs / PI * tan x) ^ 2)
    with (Rsqr (SpecWording.a_weighting_gain (fs / PI * tan x)))
    by (unfold Rsqr; ring).
  apply sqrt_Rsqr, Hpos.
Qed.

(** *** Logarithms and the alignment constant *)

Lemma ln_le_mono (x y : R) : 0 < x -> x <= y -> ln x <= ln y.
Proof.
  intros Hx [Hlt| ->]; [left; apply ln_increasing; assumption|right; reflexivity].
Qed.

(** [v^n <= 10^a / 10^b] gives [log10 v <= (a - b) / n]. *)
Lemma log10_le_of_pow (v : R) (n a b : nat) :
  0 < v -> (0 < n)%nat -> v ^ n * 10 ^ b <= 10 ^ a ->
  log10 v <= (INR a - INR b) / INR n.
Proof.
  intros Hv Hn H.
  assert (Hp : 0 < v ^ n) by (apply pow_lt, Hv).
  assert (H10 : forall k, 0 < 10 ^ k) by (intros k; apply pow_lt; lra).
  apply ln_le_mono in H; [|apply Rmult_lt_0_compat; auto].
  rewrite ln_mult, !ln_pow in H by (auto; lra).
  pose proof ln10_pos as L. unfold log10.
  assert (Hn' : 0 < INR n) by (apply lt_0_INR, Hn).
  apply Rmult_le_reg_r with (INR n * ln 10); [nra|].
  replace (ln v / ln 10 * (INR n * ln 10)) with (INR n * ln v) by (field; lra).
  replace ((INR a - INR b) / INR n * (INR n * ln 10))
    with (INR a * ln 10 - INR b * ln 10) by (field; lra).
  lra.
Qed.

Lemma log10_ge_of_pow (v : R) (n a b : nat) :
  0 < v -> (0 < n)%nat -> 10 ^ a <= v ^ n * 10 ^ b ->
  (INR a - INR b) / INR n <= log10 v.
Proof.
  intros Hv Hn H.
  assert (Hp : 0 < v ^ n) by (apply pow_lt, Hv).
  assert (H10 : forall k, 0 < 10 ^ k) by (intros k; apply pow_lt; lra).
  apply ln_le_mono in H; [|auto].
  rewrite ln_mult, !ln_pow in H by (auto; lra).
  pose proof ln10_pos as L. unfold log10.
  assert (Hn' : 0 < INR n) by (apply lt_0_INR, Hn).
  apply Rmult_le_reg_r with (INR n * ln 10); [nra|].
  replace (ln v / ln 10 * (INR n * ln 10)) with (INR n * ln v) by (field; lra).
  replace ((INR a - INR b) / INR n * (INR n * ln 10))
    with (INR a * ln 10 - INR b * ln 10) by (field; lra).
  lra.
Qed.

Lemma log10_mono (x y : R) : 0 < x -> x <= y -> log10 x <= log10 y.
Proof.
  intros Hx Hxy. unfold log10, Rdiv. apply Rmult_le_compat_r.
  - left. apply Rinv_0_lt_compat, ln10_pos.
  - apply ln_le_mono; assumption.
Qed.

(** The alignment constant squared: [10^(A1000/10)]. *)
Lemma ln10_le_4 : ln 10 <= 4.
Proof.
  assert (H : 2 <= exp 1) by (pose proof (exp_ineq1 1); lra).
  assert (H4 : 10 <= exp 4).
  { replace 4 with (1 + 1 + (1 + 1)) by ring. rewrite !exp_plus.
    assert (H2 : 4 <= exp 1 * exp 1) by nra. nra. }
  rewrite <- (ln_exp 4). apply ln_le_mono; lra.
Qed.

Lemma ln_ge_frac (u : R) : 0 <= u -> u / (1 + u) <= ln (1 + u).
Proof.
  intros Hu.
  pose proof (exp_ineq1_le (- ln (1 + u))) as H.
  rewrite exp_Ropp, exp_ln in H by lra.
  assert (E : u / (1 + u) = 1 - / (1 + u)) by (field; lra).
  lra.
Qed.

Lemma K2_bounds :
  15845 / 10000 <= Rpower 10 (1.9997 / 10) <= 1585 / 1000.
Proof.
  pose proof ln10_pos as L. pose proof ln10_le_4 as L4.
  unfold Rpower. split.
  - (* lower *)
    rewrite <- (exp_ln (15845 / 10000)) by lra.
    assert (H5 : ln (15848 / 10000) <= ln 10 / 5).
    { assert (H : (15848 / 10000) ^ 5 <= 10) by lra.
      apply ln_le_mono in H; [|apply pow_lt; lra].
      rewrite ln_pow in H by lra. simpl INR in H. lra. }
    assert (Hd : ln (15845 / 10000) + 3 / 15848 <= ln (15848 / 10000)).
    { pose proof (ln_ge_frac (3 / 15845) ltac:(lra)) as H.
      replace (1 + 3 / 15845) with ((15848 / 10000) * / (15845 / 10000)) in H
        by (field).
      rewrite ln_mult, ln_Rinv in H by lra.
      replace (3 / 15845 / (15848 / 10000 * / (15845 / 10000)))
        with (3 / 15848) in H by field. lra. }
    assert (Hx : ln (15845 / 10000) <= 1.9997 / 10 * ln 10) by lra.
    destruct Hx as [Hx|Hx]; [left; apply exp_increasing, Hx|right; rewrite Hx; reflexivity].
  - rewrite <- (exp_ln (1585 / 1000)) by lra.
    assert (H5 : ln 10 / 5 <= ln (1585 / 1000)).
    { assert (H : 10 <= (1585 / 1000) ^ 5) by lra.
      apply ln_le_mono in H; [|lra].
      rewrite ln_pow in H by lra. simpl INR in H. lra. }
    assert (Hx : 1.9997 / 10 * ln 10 <= ln (1585 / 1000)) by lra.
    destruct Hx as [Hx|Hx]; [left; apply exp_increasing, Hx|right; rewrite Hx; reflexivity].
Qed.

(** *** The reference curve between two frequencies *)

(** The square of the reference gain without the alignment constant. *)
Definition curve2 (f : R) : R :=
  f4 ^ 4 * f ^ 8
  / ((f ^ 2 + f1 ^ 2) ^ 2 * (f ^ 2 + f2 ^ 2) * (f ^ 2 + f3 ^ 2)
     * (f ^ 2 + f4 ^ 2) ^ 2).

(** [x^2 / (x^2 + c^2)], which grows with [x]. *)
Definition rise (c x : R) : R := x ^ 2 / (x ^ 2 + c ^ 2).

Definition curve2_upper (lo hi : R) : R :=
  f4 ^ 4 * (rise f1 hi * rise f1 hi * rise f2 hi * rise f3 hi)
  / (lo ^ 2 + f4 ^ 2) ^ 2.

Definition curve2_lower (lo hi : R) : R :=
  f4 ^ 4 * (rise f1 lo * rise f1 lo * rise f2 lo * rise f3 lo)
  / (hi ^ 2 + f4 ^ 2) ^ 2.

Lemma rise_mono (c x y : R) : 0 < c -> 0 <= x <= y -> 0 <= rise c x <= rise c y.
Proof.
  intros Hc [Hx Hxy]. unfold rise.
  assert (Px : 0 < x ^ 2 + c ^ 2) by nra.
  assert (Py : 0 < y ^ 2 + c ^ 2) by nra.
  split.
  - apply Rmult_le_pos; [nra|left; apply Rinv_0_lt_compat, Px].
  - apply Rmult_le_reg_r with ((x ^ 2 + c ^ 2) * (y ^ 2 + c ^ 2));
      [apply Rmult_lt_0_compat; assumption|].
    replace (x ^ 2 / (x ^ 2 + c ^ 2) * ((x ^ 2 + c ^ 2) * (y ^ 2 + c ^ 2)))
      with (x ^ 2 * (y ^ 2 + c ^ 2)) by (field; lra).
    replace (y ^ 2 / (y ^ 2 + c ^ 2) * ((x ^ 2 + c ^ 2) * (y ^ 2 + c ^ 2)))
      with (y ^ 2 * (x ^ 2 + c ^ 2)) by (field; lra).
    assert (Hab : x ^ 2 <= y ^ 2) by nra.
    assert (Hk : 0 <= c ^ 2) by nra.
    assert (Ha : 0 <= x ^ 2) by nra.
    generalize dependent (x ^ 2). generalize dependent (y ^ 2).
    generalize dependent (c ^ 2). intros. nra.
Qed.

Lemma f_pos : 0 < f1 /\ 0 < f2 /\ 0 < f3 /\ 0 < f4.
Proof. unfold f1, f2, f3, f4; repeat split; lra. Qed.

Lemma curve2_split (f : R) :
  curve2 f = f4 ^ 4 * (rise f1 f * rise f1 f * rise f2 f * rise f3 f)
             / (f ^ 2 + f4 ^ 2) ^ 2.
Proof.
  destruct f_pos as (H1&H2&H3&H4). unfold curve2, rise.
  field. repeat split; apply Rgt_not_eq; unfold Rgt; apply shift_pos; assumption.
Qed.

Lemma mult4_le (a b c d a' b' c' d' : R) :
  0 <= a <= a' -> 0 <= b <= b' -> 0 <= c <= c' -> 0 <= d <= d' ->
  0 <= a * b * c * d <= a' * b' * c' * d'.
Proof.
  intros Ha Hb Hc Hd.
  assert (H2 : 0 <= a * b <= a' * b').
  { split; [apply Rmult_le_pos; lra|apply Rmult_le_compat; lra]. }
  assert (H3 : 0 <= a * b * c <= a' * b' * c').
  { split; [apply Rmult_le_pos; lra|apply Rmult_le_compat; lra]. }
  split; [apply Rmult_le_pos; lra|apply Rmult_le_compat; lra].
Qed.

Lemma curve2_between (lo hi f : R) :
  0 <= lo -> lo <= f <= hi ->
  curve2_lower lo hi <= curve2 f <= curve2_upper lo hi /\ 0 <= curve2_lower lo hi.
Proof.
  intros Hlo [Hl Hh]. destruct f_pos as (H1&H2&H3&H4).
  rewrite curve2_split. unfold curve2_lower, curve2_upper.
  pose proof (rise_mono f1 lo f H1 ltac:(lra)) as A1.
  pose proof (rise_mono f2 lo f H2 ltac:(lra)) as A2.
  pose proof (rise_mono f3 lo f H3 ltac:(lra)) as A3.
  pose proof (rise_mono f1 f hi H1 ltac:(lra)) as B1.
  pose proof (rise_mono f2 f hi H2 ltac:(lra)) as B2.
  pose proof (rise_mono f3 f hi H3 ltac:(lra)) as B3.
  pose proof (mult4_le _ _ _ _ _ _ _ _ A1 A1 A2 A3) as [Lp Ll].
  pose proof (mult4_le _ _ _ _ _ _ _ _ B1 B1 B2 B3) as [Mp Mu].
  set (rl := rise f1 lo * rise f1 lo * rise f2 lo * rise f3 lo) in *.
  set (rf := rise f1 f * rise f1 f * rise f2 f * rise f3 f) in *.
  set (rh := rise f1 hi * rise f1 hi * rise f2 hi * rise f3 hi) in *.
  assert (F4 : 0 < f4 ^ 4) by (apply pow_lt, H4).
  assert (Dl : 0 < (lo ^ 2 + f4 ^ 2) ^ 2) by (apply pow_lt, shift_pos, H4).
  assert (Df : 0 < (f ^ 2 + f4 ^ 2) ^ 2) by (apply pow_lt, shift_pos, H4).
  assert (Dh : 0 < (hi ^ 2 + f4 ^ 2) ^ 2) by (apply pow_lt, shift_pos, H4).
  assert (Ilf : / (f ^ 2 + f4 ^ 2) ^ 2 <= / (lo ^ 2 + f4 ^ 2) ^ 2).
  { apply Rinv_le_contravar; [exact Dl|]. apply pow_incr. nra. }
  assert (Ifh : / (hi ^ 2 + f4 ^ 2) ^ 2 <= / (f ^ 2 + f4 ^ 2) ^ 2).
  { apply Rinv_le_contravar; [exact Df|]. apply pow_incr. nra. }
  assert (Pl : 0 < / (lo ^ 2 + f4 ^ 2) ^ 2) by (apply Rinv_0_lt_compat, Dl).
  assert (Pf : 0 < / (f ^ 2 + f4 ^ 2) ^ 2) by (apply Rinv_0_lt_compat, Df).
  assert (Ph : 0 < / (hi ^ 2 + f4 ^ 2) ^ 2) by (apply Rinv_0_lt_compat, Dh).
  unfold Rdiv. repeat split.
  - apply Rmult_le_compat;
      [apply Rmult_le_pos; lra | lra
      | apply Rmult_le_compat_l; lra | exact Ifh].
  - apply Rmult_le_compat;
      [apply Rmult_le_pos; lra | lra
      | apply Rmult_le_compat_l; lra | exact Ilf].
  - apply Rmult_le_pos; [apply Rmult_le_pos; lra|lra].
Qed.

(** *** The tangent between two polynomials *)

Definition tan_lo (x : R) : R :=
  (x - x ^ 3 / 6) / (1 - x ^ 2 / 2 + x ^ 4 / 24).
Definition tan_hi (x : R) : R :=
  (x - x ^ 3 / 6 + x ^ 5 / 120) / (1 - x ^ 2 / 2).

Lemma tan_between (x : R) :
  0 <= x <= 1 -> tan_lo x <= tan x <= tan_hi x.
Proof.
  intros [H0 H1]. pose proof PI_bounds as [Pl Pu].
  pose proof (sin_bound x 0 H0 ltac:(lra)) as [Sl Su].
  pose proof (cos_bound x 0 ltac:(lra) ltac:(lra)) as [Cl Cu].
  unfold sin_approx, sin_term, cos_approx, cos_term in *.
  simpl in Sl, Su, Cl, Cu.
  assert (Cpos : 0 < 1 - x ^ 2 / 2) by nra.
  assert (Cc : 0 < cos x) by lra.
  assert (Cu' : 0 < 1 - x ^ 2 / 2 + x ^ 4 / 24).
  { assert (0 <= x ^ 4) by (replace (x ^ 4) with ((x ^ 2) ^ 2) by ring; apply pow2_ge_0). lra. }
  assert (S0 : 0 <= x - x ^ 3 / 6) by nra.
  unfold tan, tan_lo, tan_hi. split.
  - apply Rmult_le_reg_r with ((1 - x ^ 2 / 2 + x ^ 4 / 24) * cos x);
      [apply Rmult_lt_0_compat; assumption|].
    replace ((x - x ^ 3 / 6) / (1 - x ^ 2 / 2 + x ^ 4 / 24)
             * ((1 - x ^ 2 / 2 + x ^ 4 / 24) * cos x))
      with ((x - x ^ 3 / 6) * cos x) by (field; lra).
    replace (sin x / cos x * ((1 - x ^ 2 / 2 + x ^ 4 / 24) * cos x))
      with (sin x * (1 - x ^ 2 / 2 + x ^ 4 / 24)) by (field; lra).
    apply Rle_trans with ((x - x ^ 3 / 6) * (1 - x ^ 2 / 2 + x ^ 4 / 24)).
    + apply Rmult_le_compat_l; [exact S0|]. lra.
    + apply Rmult_le_compat_r; [lra|]. lra.
  - apply Rmult_le_reg_r with ((1 - x ^ 2 / 2) * cos x);
      [apply Rmult_lt_0_compat; assumption|].
    replace (sin x / cos x * ((1 - x ^ 2 / 2) * cos x))
      with (sin x * (1 - x ^ 2 / 2)) by (field; lra).
    replace ((x - x ^ 3 / 6 + x ^ 5 / 120) / (1 - x ^ 2 / 2)
             * ((1 - x ^ 2 / 2) * cos x))
      with ((x - x ^ 3 / 6 + x ^ 5 / 120) * cos x) by (field; lra).
    assert (Sp : 0 <= sin x) by lra.
    apply Rle_trans with (sin x * cos x).
    + apply Rmult_le_compat_l; [exact Sp|]. lra.
    + apply Rmult_le_compat_r; [lra|]. lra.
Qed.

(** *** Levels *)

Definition K2 : R := Rpower 10 (A1000 / 10).

Lemma K2_between : 15845 / 10000 <= K2 <= 1585 / 1000.
Proof. exact K2_bounds. Qed.

Lemma analog_gain2_curve (F : R) : analog_gain2 (2 * PI * F) = K2 * curve2 F.
Proof.
  destruct f_pos as (H1&H2&H3&H4). pose proof PI_RGT_0 as Hpi.
  unfold analog_gain2, K2, curve2, w1, w2, w3, w4.
  replace (A1000 / 10) with (A1000 / 20 + A1000 / 20) by field.
  rewrite Rpower_plus.
  set (K := Rpower 10 (A1000 / 20)).
  field.
  repeat split; apply Rgt_not_eq; unfold Rgt; apply shift_pos;
    first [assumption | (apply Rmult_lt_0_compat; [lra|assumption])].
Qed.

Lemma curve2_pos (F : R) : 0 < F -> 0 < curve2 F.
Proof.
  intros HF. destruct f_pos as (H1&H2&H3&H4). unfold curve2.
  pose proof (shift_pos F f1 H1) as P1. pose proof (shift_pos F f2 H2) as P2.
  pose proof (shift_pos F f3 H3) as P3. pose proof (shift_pos F f4 H4) as P4.
  apply Rdiv_lt_0_compat.
  - apply Rmult_lt_0_compat; apply pow_lt; assumption.
  - apply Rmult_lt_0_compat; [|apply pow_lt, P4].
    apply Rmult_lt_0_compat; [|exact P3].
    apply Rmult_lt_0_compat; [apply pow_lt, P1|exact P2].
Qed.

Lemma K2_pos : 0 < K2.
Proof. apply exp_pos. Qed.

Lemma log10_sq (g : R) : 0 < g -> log10 (g ^ 2) = 2 * log10 g.
Proof.
  intros Hg. unfold log10. rewrite ln_pow by exact Hg. simpl INR.
  unfold Rdiv. ring.
Qed.

(** The reference level at [F] through the square of the gain. *)
Lemma a_weighting_dB (F : R) :
  0 < F -> dB (SpecWording.a_weighting_gain F) = 10 * log10 (K2 * curve2 F).
Proof.
  intros HF. destruct (a_weighting_gain_sq F) as [Hpos Hsq].
  rewrite analog_gain2_curve in Hsq.
  pose proof (Rmult_lt_0_compat _ _ K2_pos (curve2_pos F HF)) as Hv.
  assert (Hg : 0 < SpecWording.a_weighting_gain F).
  { destruct Hpos as [Hlt|Heq]; [exact Hlt|].
    rewrite <- Heq in Hsq. simpl in Hsq. lra. }
  rewrite <- Hsq, log10_sq by exact Hg. unfold dB. ring.
Qed.

Definition PL : R := 31415 / 10000.
Definition PU : R := 31417 / 10000.
Definition KL : R := 15845 / 10000.
Definition KU : R := 1585 / 1000.

Lemma tan_lo_nonneg (x : R) : 0 <= x <= 1 -> 0 <= tan_lo x.
Proof.
  intros [H0 H1]. unfold tan_lo.
  assert (0 <= x ^ 4) by (replace (x ^ 4) with ((x ^ 2) ^ 2) by ring; apply pow2_ge_0).
  apply Rmult_le_pos; [nra|]. left. apply Rinv_0_lt_compat. nra.
Qed.

Lemma tan_mono (x y : R) : 0 <= x -> x <= y -> y <= 1 -> tan x <= tan y.
Proof.
  intros Hx [Hlt|Heq] Hy; [|subst; lra].
  pose proof PI_bounds as [Pl Pu].
  left. apply tan_increasing; lra.
Qed.

(** The warped frequency between two rational bounds. *)
Lemma warped_between (fs f lo hi : R) :
  0 < fs -> 0 < f -> PU * f / fs <= 1 ->
  lo <= fs / PU * tan_lo (PL * f / fs) ->
  fs / PL * tan_hi (PU * f / fs) <= hi ->
  lo <= fs / PI * tan (PI * f / fs) <= hi.
Proof.
  intros Hfs Hf Hx Hlo Hhi. pose proof PI_bounds as [Pl Pu].
  unfold PL, PU in *.
  assert (Hq : 0 < f / fs) by (apply Rdiv_lt_0_compat; assumption).
  assert (Exl : 31415 / 10000 * f / fs = 31415 / 10000 * (f / fs)) by (field; lra).
  assert (Exu : 31417 / 10000 * f / fs = 31417 / 10000 * (f / fs)) by (field; lra).
  assert (Ex : PI * f / fs = PI * (f / fs)) by (field; lra).
  rewrite Exl in *. rewrite Exu in *. rewrite Ex.
  set (q := f / fs) in *.
  assert (Hxl : 0 <= 31415 / 10000 * q <= 1) by nra.
  assert (Hxu : 0 <= 31417 / 10000 * q <= 1) by nra.
  pose proof (tan_between _ Hxl) as [Tl _].
  pose proof (tan_between _ Hxu) as [_ Tu].
  pose proof (tan_lo_nonneg _ Hxl) as Tl0.
  assert (T1 : tan (31415 / 10000 * q) <= tan (PI * q))
    by (apply tan_mono; nra).
  assert (T2 : tan (PI * q) <= tan (31417 / 10000 * q))
    by (apply tan_mono; nra).
  assert (I1 : fs / (31417 / 10000) <= fs / PI).
  { unfold Rdiv. apply Rmult_le_compat_l; [lra|].
    apply Rinv_le_contravar; lra. }
  assert (I2 : fs / PI <= fs / (31415 / 10000)).
  { unfold Rdiv. apply Rmult_le_compat_l; [lra|].
    apply Rinv_le_contravar; lra. }
  assert (P1 : 0 < fs / (31417 / 10000)) by (apply Rdiv_lt_0_compat; lra).
  assert (P2 : 0 < fs / PI) by (apply Rdiv_lt_0_compat; lra).
  split.
  - apply Rle_trans with (1 := Hlo).
    apply Rmult_le_compat; lra.
  - apply Rle_trans with (2 := Hhi).
    apply Rmult_le_compat; try lra.
Qed.

Lemma gain_window (fs f lo hi cl cu : R) (sos : sections) :
  0 < fs -> 0 < f -> PU * f / fs <= 1 ->
  returned (design_a_weighting_sos fs) = Ok sos ->
  0 < lo ->
  lo <= fs / PU * tan_lo (PL * f / fs) ->
  fs / PL * tan_hi (PU * f / fs) <= hi ->
  0 < cl -> cl <= curve2_lower lo hi -> curve2_upper lo hi <= cu ->
  10 * log10 (KL * cl) <= dB (gain sos fs f) <= 10 * log10 (KU * cu).
Proof.
  intros Hfs Hf Hx Hsos Hlo0 Hlo Hhi Hcl0 Hcl Hcu.
  pose proof PI_bounds as [Pl Pu].
  assert (Hhalf : 0 <= f < fs / 2).
  { split; [lra|]. unfold PU in Hx.
    assert (H : 31417 / 10000 * f <= fs).
    { apply Rmult_le_reg_r with (/ fs); [apply Rinv_0_lt_compat, Hfs|].
      rewrite Rinv_r by lra. exact Hx. }
    lra. }
  rewrite (design_gain fs f sos Hfs Hhalf Hsos).
  pose proof (warped_between fs f lo hi Hfs Hf Hx Hlo Hhi) as HF.
  set (F := fs / PI * tan (PI * f / fs)) in *.
  rewrite a_weighting_dB by lra.
  destruct (curve2_between lo hi F ltac:(lra) HF) as [[Cl Cu] _].
  pose proof K2_between as [Kl Ku]. pose proof K2_pos as Kp.
  pose proof (curve2_pos F ltac:(lra)) as Cp.
  unfold KL, KU. split; apply Rmult_le_compat_l; try lra; apply log10_mono.
  - apply Rmult_lt_0_compat; lra.
  - apply Rmult_le_compat; lra.
  - apply Rmult_lt_0_compat; lra.
  - apply Rmult_le_compat; lra.
Qed.

Ltac numeric :=
  unfold PU, PL, KL, KU, tan_lo, tan_hi, curve2_lower, curve2_upper, rise,
    f1, f2, f3, f4; lra.

Lemma gain_window_dB (fs f lo hi cl cu : R) (sos : sections)
    (n a b a' b' : nat) :
  0 < fs -> 0 < f -> PU * f / fs <= 1 ->
  returned (design_a_weighting_sos fs) = Ok sos ->
  0 < lo ->
  lo <= fs / PU * tan_lo (PL * f / fs) ->
  fs / PL * tan_hi (PU * f / fs) <= hi ->
  0 < cl -> cl <= curve2_lower lo hi -> curve2_upper lo hi <= cu ->
  (0 < n)%nat ->
  10 ^ a' <= (KL * cl) ^ n * 10 ^ b' ->
  (KU * cu) ^ n * 10 ^ b <= 10 ^ a ->
  10 * ((INR a' - INR b') / INR n) <= dB (gain sos fs f)
  <= 10 * ((INR a - INR b) / INR n).
Proof.
  intros Hfs Hf Hx Hsos Hlo0 Hlo Hhi Hcl0 Hcl Hcu Hn Hlow Hup.
  destruct (gain_window fs f lo hi cl cu sos Hfs Hf Hx Hsos Hlo0 Hlo Hhi
              Hcl0 Hcl Hcu) as [Gl Gu].
  assert (Hvl : 0 < KL * cl) by (unfold KL; nra).
  assert (Hcu0 : 0 < cu).
  { pose proof (warped_between fs f lo hi Hfs Hf Hx Hlo Hhi) as HF.
    destruct (curve2_between lo hi _ (Rlt_le _ _ Hlo0) HF) as [[C1 C2] C3].
    pose proof (curve2_pos _ (Rlt_le_trans _ _ _ Hlo0 (proj1 HF))). lra. }
  assert (Hvu : 0 < KU * cu) by (unfold KU; nra).
  pose proof (log10_ge_of_pow _ n a' b' Hvl Hn Hlow) as L1.
  pose proof (log10_le_of_pow _ n a b Hvu Hn Hup) as L2.
  split; lra.
Qed.

Lemma level_at_20 (fs : R) (sos : sections) :
  In fs [8000; 25600; 48000; 96000] ->
  returned (design_a_weighting_sos fs) = Ok sos ->
  -52 <= dB (gain sos fs 20) <= -48.
Proof.
  intros Hin Hsos.
  assert (H : 10 * ((INR 0 - INR 26) / INR 5) <= dB (gain sos fs 20)
              <= 10 * ((INR 0 - INR 24) / INR 5)).
  { destruct Hin as [<-|[<-|[<-|[<-|[]]]]].
    - apply (gain_window_dB 8000 20 (199991/10000) (200017/10000)
               (5765997/1000000000000) (577049/100000000000) sos);
        try exact Hsos; try lia; numeric.
    - apply (gain_window_dB 25600 20 (199987/10000) (100007/5000)
               (2882653/500000000000) (5769971/1000000000000) sos);
        try exact Hsos; try lia; numeric.
    - apply (gain_window_dB 48000 20 (199987/10000) (200013/10000)
               (2882653/500000000000) (2884899/500000000000) sos);
        try exact Hsos; try lia; numeric.
    - apply (gain_window_dB 96000 20 (199987/10000) (200013/10000)
               (2882653/500000000000) (2884899/500000000000) sos);
        try exact Hsos; try lia; numeric. }
  simpl in H. lra.
Qed.

Lemma level_at_1000 (fs : R) (sos : sections) :
  In fs [25600; 48000; 96000] ->
  returned (design_a_weighting_sos fs) = Ok sos ->
  -0.05 <= dB (gain sos fs 1000) <= 0.05.
Proof.
  intros Hin Hsos.
  assert (H : 10 * ((INR 0 - INR 1) / INR 200) <= dB (gain sos fs 1000)
              <= 10 * ((INR 1 - INR 0) / INR 200)).
  { destruct Hin as [<-|[<-|[<-|[]]]].
    - apply (gain_window_dB 25600 1000 (50249/50) (100513/100)
               (6332041/10000000) (6332753/10000000) sos);
        try exact Hsos; try lia; numeric.
    - apply (gain_window_dB 48000 1000 (25034/25) (2003/2)
               (252643/400000) (6316743/10000000) sos);
        try exact Hsos; try lia; numeric.
    - apply (gain_window_dB 96000 1000 (100029/100) (100043/100)
               (788917/1250000) (1262401/2000000) sos);
        try exact Hsos; try lia; numeric. }
  rewrite !INR_IZR_INZ in H. simpl in H. lra.
Qed.

Lemma level_at_1000_8000 (sos : sections) :
  returned (design_a_weighting_sos 8000) = Ok sos ->
  0.1 <= dB (gain sos 8000 1000) <= 0.2.
Proof.
  intros Hsos.
  assert (H : 10 * ((INR 1 - INR 0) / INR 100) <= dB (gain sos 8000 1000)
              <= 10 * ((INR 2 - INR 0) / INR 100)).
  { apply (gain_window_dB 8000 1000 (105449/100) (105599/100)
             (1308063/2000000) (6546907/10000000) sos);
      try exact Hsos; try lia; numeric. }
  rewrite !INR_IZR_INZ in H. simpl in H. lra.
Qed.

(** *** Accuracy *)

Lemma log10_mult (x y : R) : 0 < x -> 0 < y -> log10 (x * y) = log10 x + log10 y.
Proof.
  intros Hx Hy. unfold log10. rewrite ln_mult by assumption.
  unfold Rdiv. ring.
Qed.

Lemma warped_quarter : 8148 <= 25600 / PI * tan (PI * 6400 / 25600) <= 8150.
Proof.
  pose proof PI_bounds as [Pl Pu].
  replace (PI * 6400 / 25600) with (PI / 4) by field.
  rewrite tan_PI4, Rmult_1_r.
  split.
  - apply Rmult_le_reg_r with PI; [lra|].
    unfold Rdiv. rewrite Rmult_assoc, Rinv_l by lra. lra.
  - apply Rmult_le_reg_r with PI; [lra|].
    unfold Rdiv. rewrite Rmult_assoc, Rinv_l by lra. lra.
Qed.

Lemma level_at_6400 (sos : sections) :
  returned (design_a_weighting_sos 25600) = Ok sos ->
  dB (gain sos 25600 6400) - dB (SpecWording.a_weighting_gain 6400) <= -0.9.
Proof.
  intros Hsos.
  rewrite (design_gain 25600 6400 sos ltac:(lra) ltac:(lra) Hsos).
  pose proof warped_quarter as HF.
  set (F := 25600 / PI * tan (PI * 6400 / 25600)) in *.
  rewrite !a_weighting_dB by lra.
  destruct (curve2_between 8148 8150 F ltac:(lra) HF) as [[_ Cu] _].
  assert (Hnum : curve2_upper 8148 8150 <= 8 / 10 * curve2 6400)
    by (unfold curve2; numeric).
  pose proof K2_pos as Kp.
  pose proof (curve2_pos F ltac:(lra)) as CF.
  pose proof (curve2_pos 6400 ltac:(lra)) as C6.
  assert (Hle : log10 (K2 * curve2 F)
                <= log10 (8 / 10) + log10 (K2 * curve2 6400)).
  { rewrite <- log10_mult by (try lra; apply Rmult_lt_0_compat; lra).
    apply log10_mono; [apply Rmult_lt_0_compat; lra|]. nra. }
  assert (H8 : log10 (8 / 10) <= (INR 0 - INR 9) / INR 100).
  { apply log10_le_of_pow; [lra|lia|lra]. }
  rewrite !INR_IZR_INZ in H8. simpl in H8. lra.
Qed.

(** C3 fails at 25600 Hz: at 6400 Hz, a quarter of the sample rate, the
    filter is the analog curve at 25600/pi Hz, about 8149 Hz, and lies more
    than 0.3 dB (indeed 0.9 dB) below the reference at 6400 Hz. *)
Lemma design_off_reference_at_6400 :
  (exists sos,
     returned (design_a_weighting_sos 25600) = Ok sos /\
     20 <= 6400 <= 10000 /\
     dB (gain sos 25600 6400) - dB (SpecWording.a_weighting_gain 6400) < -0.3) /\
  ~ SpecWording.meets_accuracy 25600.
Proof.
  destruct (design_returns 25600 ltac:(lra)) as [sos Hsos].
  assert (Hr : returned (design_a_weighting_sos 25600) = Ok sos)
    by (rewrite Hsos; reflexivity).
  pose proof (level_at_6400 sos Hr) as Hl.
  split.
  - exists sos. split; [exact Hr|]. split; lra.
  - intros Hacc. destruct (Hacc sos Hr) as [Hband _].
    specialize (Hband 6400 ltac:(lra)).
    apply Rabs_le_inv in Hband. lra.
Qed.

(** *** The whole band *)

Lemma tan_above (x : R) : 0 <= x <= 1 -> x <= tan x.
Proof.
  intros Hx. destruct (tan_between x Hx) as [Hl _].
  apply Rle_trans with (2 := Hl). unfold tan_lo.
  destruct Hx as [H0 H1].
  assert (H4 : 0 <= x ^ 4)
    by (replace (x ^ 4) with ((x ^ 2) ^ 2) by ring; apply pow2_ge_0).
  assert (Hd : 0 < 1 - x ^ 2 / 2 + x ^ 4 / 24) by nra.
  apply Rmult_le_reg_r with (1 - x ^ 2 / 2 + x ^ 4 / 24); [exact Hd|].
  replace ((x - x ^ 3 / 6) / (1 - x ^ 2 / 2 + x ^ 4 / 24)
           * (1 - x ^ 2 / 2 + x ^ 4 / 24))
    with (x - x ^ 3 / 6) by (field; lra).
  assert (Hx2 : 0 <= x ^ 2 <= 1) by nra.
  assert (Hx3 : 0 <= x ^ 3) by (replace (x ^ 3) with (x * x ^ 2) by ring; nra).
  replace (x ^ 4) with (x ^ 2 * x ^ 2) by ring.
  replace (x ^ 3) with (x * x ^ 2) in * by ring.
  nra.
Qed.

(** Up to the angle [xmax] the tangent is at most [G] times the angle. *)
Lemma tan_below (G xmax x : R) :
  0 <= x <= xmax -> xmax <= 1 ->
  1 - xmax ^ 2 / 6 + (xmax ^ 2) ^ 2 / 120 <= G * (1 - xmax ^ 2 / 2) ->
  1 <= G ->
  tan x <= G * x.
Proof.
  intros [H0 Hm] H1 Hp HG.
  destruct (tan_between x ltac:(lra)) as [_ Hu].
  apply Rle_trans with (1 := Hu). unfold tan_hi.
  assert (Ht : 0 <= x ^ 2 <= xmax ^ 2) by nra.
  assert (Htm : xmax ^ 2 <= 1) by nra.
  assert (Hd : 0 < 1 - x ^ 2 / 2) by nra.
  apply Rmult_le_reg_r with (1 - x ^ 2 / 2); [exact Hd|].
  replace ((x - x ^ 3 / 6 + x ^ 5 / 120) / (1 - x ^ 2 / 2) * (1 - x ^ 2 / 2))
    with (x * (1 - x ^ 2 / 6 + (x ^ 2) ^ 2 / 120)) by (field; lra).
  replace (G * x * (1 - x ^ 2 / 2)) with (x * (G * (1 - x ^ 2 / 2))) by ring.
  apply Rmult_le_compat_l; [exact H0|].
  set (t := x ^ 2) in *. set (m := xmax ^ 2) in *.
  (* G (1 - t/2) - (1 - t/6 + t^2/120) decreases in t *)
  assert (Hdec : (G * (1 - t / 2) - (1 - t / 6 + t ^ 2 / 120))
                 - (G * (1 - m / 2) - (1 - m / 6 + m ^ 2 / 120))
                 = (m - t) * (G / 2 - 1 / 6 + (m + t) / 120)) by field.
  assert (Hnn : 0 <= (m - t) * (G / 2 - 1 / 6 + (m + t) / 120)).
  { apply Rmult_le_pos; lra. }
  lra.
Qed.

(** The warped frequency lies between the frequency and [G] times it. *)
Lemma warped_within (fs f G xmax : R) :
  0 < fs -> 0 < f -> PI * f / fs <= xmax -> xmax <= 1 ->
  1 - xmax ^ 2 / 6 + (xmax ^ 2) ^ 2 / 120 <= G * (1 - xmax ^ 2 / 2) ->
  1 <= G ->
  f <= fs / PI * tan (PI * f / fs) <= G * f.
Proof.
  intros Hfs Hf Hx H1 Hp HG. pose proof PI_RGT_0 as Hpi.
  set (x := PI * f / fs) in *.
  assert (Hx0 : 0 < x).
  { unfold x. apply Rdiv_lt_0_compat; [nra|exact Hfs]. }
  assert (Ef : f = fs / PI * x) by (unfold x; field; lra).
  assert (Hk : 0 < fs / PI) by (apply Rdiv_lt_0_compat; lra).
  pose proof (tan_above x ltac:(lra)) as Ha.
  pose proof (tan_below G xmax x ltac:(lra) H1 Hp HG) as Hb.
  clearbody x. subst f. split.
  - apply Rmult_le_compat_l; lra.
  - replace (G * (fs / PI * x)) with (fs / PI * (G * x)) by ring.
    apply Rmult_le_compat_l; lra.
Qed.

(** The product of the four rising factors of the curve. *)
Definition rises (x : R) : R := rise f1 x * rise f1 x * rise f2 x * rise f3 x.

Lemma rise_le_1 (c x : R) : 0 < c -> 0 <= rise c x <= 1.
Proof.
  intros Hc. unfold rise. assert (P : 0 < x ^ 2 + c ^ 2) by nra.
  split.
  - apply Rmult_le_pos; [nra|left; apply Rinv_0_lt_compat, P].
  - apply Rmult_le_reg_r with (x ^ 2 + c ^ 2); [exact P|].
    replace (x ^ 2 / (x ^ 2 + c ^ 2) * (x ^ 2 + c ^ 2)) with (x ^ 2)
      by (field; lra).
    nra.
Qed.

Lemma rise_pos (c x : R) : 0 < c -> 0 < x -> 0 < rise c x.
Proof.
  intros Hc Hx. unfold rise. apply Rdiv_lt_0_compat; nra.
Qed.

(** A rising factor grows at most as the square of the frequency. *)
Lemma rise_scale (c x y : R) :
  0 < c -> 0 < x -> x <= y -> rise c y <= (y / x) ^ 2 * rise c x.
Proof.
  intros Hc Hx Hxy. unfold rise.
  assert (Px : 0 < x ^ 2 + c ^ 2) by nra.
  assert (Py : 0 < y ^ 2 + c ^ 2) by nra.
  replace ((y / x) ^ 2 * (x ^ 2 / (x ^ 2 + c ^ 2)))
    with (y ^ 2 / (x ^ 2 + c ^ 2)) by (field; lra).
  unfold Rdiv. apply Rmult_le_compat_l; [nra|].
  apply Rinv_le_contravar; [exact Px|nra].
Qed.

Lemma rises_between (x y : R) :
  0 < x -> x <= y ->
  0 < rises x /\ rises x <= rises y /\ rises y <= 1 /\
  rises y <= (y / x) ^ 8 * rises x.
Proof.
  intros Hx Hxy. destruct f_pos as (H1&H2&H3&H4). unfold rises.
  pose proof (rise_pos f1 x H1 Hx) as P1.
  pose proof (rise_pos f2 x H2 Hx) as P2.
  pose proof (rise_pos f3 x H3 Hx) as P3.
  pose proof (rise_mono f1 x y H1 ltac:(lra)) as M1.
  pose proof (rise_mono f2 x y H2 ltac:(lra)) as M2.
  pose proof (rise_mono f3 x y H3 ltac:(lra)) as M3.
  pose proof (rise_le_1 f1 y H1) as L1.
  pose proof (rise_le_1 f2 y H2) as L2.
  pose proof (rise_le_1 f3 y H3) as L3.
  pose proof (rise_scale f1 x y H1 Hx Hxy) as S1.
  pose proof (rise_scale f2 x y H2 Hx Hxy) as S2.
  pose proof (rise_scale f3 x y H3 Hx Hxy) as S3.
  set (q := (y / x) ^ 2) in *.
  assert (Hq : 0 <= q) by (unfold q; apply pow2_ge_0).
  split.
  { apply Rmult_lt_0_compat; [|exact P3].
    apply Rmult_lt_0_compat; [|exact P2].
    apply Rmult_lt_0_compat; exact P1. }
  split; [apply (mult4_le _ _ _ _ _ _ _ _ M1 M1 M2 M3)|].
  split.
  - pose proof (mult4_le _ _ _ _ 1 1 1 1 L1 L1 L2 L3) as [_ H]. lra.
  - replace ((y / x) ^ 8 * (rise f1 x * rise f1 x * rise f2 x * rise f3 x))
      with ((q * rise f1 x) * (q * rise f1 x) * (q * rise f2 x)
            * (q * rise f3 x)) by (unfold q; ring).
    apply (mult4_le (rise f1 y) (rise f1 y) (rise f2 y) (rise f3 y));
      (split; [first [apply (proj1 L1)|apply (proj1 L2)|apply (proj1 L3)]
              |assumption]).
Qed.

Lemma curve2_rises (x : R) :
  curve2 x = f4 ^ 4 * rises x / (x ^ 2 + f4 ^ 2) ^ 2.
Proof. apply curve2_split. Qed.

(** The reference curve at a warped frequency [F] between [f] and
    [G f], against the curve at [f]. *)
Lemma curve2_warped (f F G lo : R) :
  0 < f -> f <= F -> F <= G * f -> 0 < lo ->
  lo * (G ^ 2 * f ^ 2 + f4 ^ 2) ^ 2 <= (f ^ 2 + f4 ^ 2) ^ 2 ->
  lo * curve2 f <= curve2 F /\
  curve2 F <= G ^ 8 * curve2 f /\
  rises f * curve2 F <= curve2 f.
Proof.
  intros Hf HfF HFG Hlo Hlow. destruct f_pos as (H1&H2&H3&H4).
  destruct (rises_between f F Hf HfF) as (Rp&Rm&R1&Rs).
  rewrite !curve2_rises.
  assert (Pf : 0 < f ^ 2 + f4 ^ 2) by nra.
  assert (PF : 0 < F ^ 2 + f4 ^ 2) by nra.
  assert (Pf2 : 0 < (f ^ 2 + f4 ^ 2) ^ 2) by (apply pow_lt, Pf).
  assert (PF2 : 0 < (F ^ 2 + f4 ^ 2) ^ 2) by (apply pow_lt, PF).
  assert (F4 : 0 < f4 ^ 4) by (apply pow_lt, H4).
  assert (HG : 0 < G).
  { apply Rmult_lt_reg_r with f; [exact Hf|]. lra. }
  assert (HFF : F ^ 2 <= G ^ 2 * f ^ 2).
  { replace (G ^ 2 * f ^ 2) with ((G * f) ^ 2) by ring.
    apply pow_incr. lra. }
  assert (Hden : (f ^ 2 + f4 ^ 2) ^ 2 <= (F ^ 2 + f4 ^ 2) ^ 2).
  { apply pow_incr. nra. }
  assert (Hden2 : (F ^ 2 + f4 ^ 2) ^ 2 <= (G ^ 2 * f ^ 2 + f4 ^ 2) ^ 2).
  { apply pow_incr. nra. }
  split; [|split].
  - apply Rmult_le_reg_r with ((f ^ 2 + f4 ^ 2) ^ 2 * (F ^ 2 + f4 ^ 2) ^ 2);
      [apply Rmult_lt_0_compat; assumption|].
    replace (lo * (f4 ^ 4 * rises f / (f ^ 2 + f4 ^ 2) ^ 2)
             * ((f ^ 2 + f4 ^ 2) ^ 2 * (F ^ 2 + f4 ^ 2) ^ 2))
      with (f4 ^ 4 * rises f * (lo * (F ^ 2 + f4 ^ 2) ^ 2)) by (field; lra).
    replace (f4 ^ 4 * rises F / (F ^ 2 + f4 ^ 2) ^ 2
             * ((f ^ 2 + f4 ^ 2) ^ 2 * (F ^ 2 + f4 ^ 2) ^ 2))
      with (f4 ^ 4 * rises F * (f ^ 2 + f4 ^ 2) ^ 2) by (field; lra).
    apply Rmult_le_compat.
    + apply Rmult_le_pos; lra.
    + apply Rmult_le_pos; lra.
    + apply Rmult_le_compat_l; lra.
    + apply Rle_trans with (2 := Hlow). apply Rmult_le_compat_l; lra.
  - assert (Hq : (F / f) ^ 8 <= G ^ 8).
    { apply pow_incr. split.
      - apply Rmult_le_pos; [lra|left; apply Rinv_0_lt_compat, Hf].
      - apply Rmult_le_reg_r with f; [exact Hf|].
        unfold Rdiv. rewrite Rmult_assoc, Rinv_l by lra. lra. }
    assert (Rs' : rises F <= G ^ 8 * rises f).
    { apply Rle_trans with (1 := Rs). apply Rmult_le_compat_r; lra. }
    assert (HG8 : 0 < G ^ 8) by (apply pow_lt, HG).
    apply Rmult_le_reg_r with ((f ^ 2 + f4 ^ 2) ^ 2 * (F ^ 2 + f4 ^ 2) ^ 2);
      [apply Rmult_lt_0_compat; assumption|].
    replace (f4 ^ 4 * rises F / (F ^ 2 + f4 ^ 2) ^ 2
             * ((f ^ 2 + f4 ^ 2) ^ 2 * (F ^ 2 + f4 ^ 2) ^ 2))
      with (f4 ^ 4 * rises F * (f ^ 2 + f4 ^ 2) ^ 2) by (field; lra).
    replace (G ^ 8 * (f4 ^ 4 * rises f / (f ^ 2 + f4 ^ 2) ^ 2)
             * ((f ^ 2 + f4 ^ 2) ^ 2 * (F ^ 2 + f4 ^ 2) ^ 2))
      with (f4 ^ 4 * (G ^ 8 * rises f) * (F ^ 2 + f4 ^ 2) ^ 2) by (field; lra).
    apply Rmult_le_compat.
    + apply Rmult_le_pos; lra.
    + lra.
    + apply Rmult_le_compat_l; lra.
    + exact Hden.
  - apply Rmult_le_reg_r with ((f ^ 2 + f4 ^ 2) ^ 2 * (F ^ 2 + f4 ^ 2) ^ 2);
      [apply Rmult_lt_0_compat; assumption|].
    replace (rises f * (f4 ^ 4 * rises F / (F ^ 2 + f4 ^ 2) ^ 2)
             * ((f ^ 2 + f4 ^ 2) ^ 2 * (F ^ 2 + f4 ^ 2) ^ 2))
      with (f4 ^ 4 * rises f * (rises F * (f ^ 2 + f4 ^ 2) ^ 2))
      by (field; lra).
    replace (f4 ^ 4 * rises f / (f ^ 2 + f4 ^ 2) ^ 2
             * ((f ^ 2 + f4 ^ 2) ^ 2 * (F ^ 2 + f4 ^ 2) ^ 2))
      with (f4 ^ 4 * rises f * (F ^ 2 + f4 ^ 2) ^ 2) by (field; lra).
    apply Rmult_le_compat_l; [apply Rmult_le_pos; lra|].
    apply Rle_trans with (1 * (f ^ 2 + f4 ^ 2) ^ 2).
    + apply Rmult_le_compat_r; lra.
    + lra.
Qed.

Lemma log10_scaled_le (k x y : R) :
  0 < k -> 0 < x -> 0 < y -> y <= k * x -> log10 y <= log10 k + log10 x.
Proof.
  intros Hk Hx Hy H. rewrite <- log10_mult by assumption.
  apply log10_mono; assumption.
Qed.

Lemma log10_scaled_ge (k x y : R) :
  0 < k -> 0 < x -> 0 < y -> k * x <= y -> log10 k + log10 x <= log10 y.
Proof.
  intros Hk Hx Hy H. rewrite <- log10_mult by assumption.
  apply log10_mono; [apply Rmult_lt_0_compat; assumption|exact H].
Qed.

Lemma log10_106 : log10 (106 / 100) <= 3 / 100.
Proof.
  pose proof (log10_le_of_pow (106 / 100) 100 3 0 ltac:(lra) ltac:(lia)) as H.
  rewrite !INR_IZR_INZ in H. simpl in H.
  assert (Hp : (106 / 100) ^ 100 * 1 <= 10 * (10 * (10 * 1))) by lra.
  specialize (H Hp). lra.
Qed.

Lemma log10_935 : - (3 / 100) <= log10 (935 / 1000).
Proof.
  pose proof (log10_ge_of_pow (935 / 1000) 100 0 3 ltac:(lra) ltac:(lia)) as H.
  rewrite !INR_IZR_INZ in H. simpl in H.
  assert (Hp : 1 <= (935 / 1000) ^ 100 * (10 * (10 * (10 * 1)))) by lra.
  specialize (H Hp). lra.
Qed.

(** At 96 kHz the designed filter stays within 0.3 dB of the reference
    curve from 20 Hz to 10 kHz. *)
Lemma band_96000 (sos : sections) (f : R) :
  returned (design_a_weighting_sos 96000) = Ok sos ->
  20 <= f <= 10000 ->
  - 0.3 <= dB (gain sos 96000 f) - dB (SpecWording.a_weighting_gain f) <= 0.3.
Proof.
  intros Hsos [Hlo Hhi]. pose proof PI_bounds as [Pl Pu].
  rewrite (design_gain 96000 f sos ltac:(lra) ltac:(lra) Hsos).
  assert (Hx : PI * f / 96000 <= 3273 / 10000).
  { apply Rmult_le_reg_r with 96000; [lra|].
    unfold Rdiv. rewrite Rmult_assoc, Rinv_l by lra. nra. }
  destruct (warped_within 96000 f (1039 / 1000) (3273 / 10000)
              ltac:(lra) ltac:(lra) Hx ltac:(lra) ltac:(lra) ltac:(lra))
    as [HfF HFG].
  set (F := 96000 / PI * tan (PI * f / 96000)) in *.
  rewrite !a_weighting_dB by lra.
  assert (Hu : f ^ 2 <= 100000000) by nra.
  assert (Hu0 : 0 <= f ^ 2) by nra.
  assert (Hlow : 935 / 1000 * ((1039 / 1000) ^ 2 * f ^ 2 + f4 ^ 2) ^ 2
                 <= (f ^ 2 + f4 ^ 2) ^ 2).
  { assert (Ha : 0 <= 967 / 1000 * ((1039 / 1000) ^ 2 * f ^ 2 + f4 ^ 2)
                 <= f ^ 2 + f4 ^ 2) by (unfold f4; lra).
    apply Rle_trans
      with ((967 / 1000 * ((1039 / 1000) ^ 2 * f ^ 2 + f4 ^ 2)) ^ 2).
    - set (X := (1039 / 1000) ^ 2 * f ^ 2 + f4 ^ 2) in *.
      assert (0 <= X ^ 2) by apply pow2_ge_0. nra.
    - apply pow_incr. exact Ha. }
  destruct (curve2_warped f F (1039 / 1000) (935 / 1000)
              ltac:(lra) HfF HFG ltac:(lra) Hlow) as [Hl [_ Hflat]].
  pose proof (curve2_pos f ltac:(lra)) as Cf.
  pose proof (curve2_pos F ltac:(lra)) as CF.
  pose proof K2_pos as Kp.
  assert (Hup : curve2 F <= 106 / 100 * curve2 f).
  { destruct (Rle_dec f 4000) as [Hsmall|Hbig].
    - assert (Hx1 : PI * f / 96000 <= 131 / 1000).
      { apply Rmult_le_reg_r with 96000; [lra|].
        unfold Rdiv. rewrite Rmult_assoc, Rinv_l by lra. nra. }
      destruct (warped_within 96000 f (1006 / 1000) (131 / 1000)
                  ltac:(lra) ltac:(lra) Hx1 ltac:(lra) ltac:(lra) ltac:(lra))
        as [_ HFG1].
      fold F in HFG1.
      assert (Hlow1 : 1 / 2 * ((1006 / 1000) ^ 2 * f ^ 2 + f4 ^ 2) ^ 2
                      <= (f ^ 2 + f4 ^ 2) ^ 2).
      { assert (Ha : 0 <= 8 / 10 * ((1006 / 1000) ^ 2 * f ^ 2 + f4 ^ 2)
                     <= f ^ 2 + f4 ^ 2) by (unfold f4; lra).
        apply Rle_trans
          with ((8 / 10 * ((1006 / 1000) ^ 2 * f ^ 2 + f4 ^ 2)) ^ 2).
        - set (X := (1006 / 1000) ^ 2 * f ^ 2 + f4 ^ 2) in *.
          assert (0 <= X ^ 2) by apply pow2_ge_0. nra.
        - apply pow_incr. exact Ha. }
      destruct (curve2_warped f F (1006 / 1000) (1 / 2)
                  ltac:(lra) HfF HFG1 ltac:(lra) Hlow1) as [_ [Hpow _]].
      apply Rle_trans with (1 := Hpow).
      apply Rmult_le_compat_r; lra.
    - assert (Hr : 95 / 100 <= rises f).
      { destruct (rises_between 4000 f ltac:(lra) ltac:(lra)) as (_&Hm&_&_).
        apply Rle_trans with (2 := Hm).
        unfold rises, rise, f1, f2, f3. lra. }
      assert (H95 : 95 / 100 * curve2 F <= curve2 f).
      { apply Rle_trans with (2 := Hflat). apply Rmult_le_compat_r; lra. }
      lra. }
  pose proof (log10_scaled_le (106 / 100) (K2 * curve2 f) (K2 * curve2 F)
                ltac:(lra) ltac:(nra) ltac:(nra) ltac:(nra)) as L1.
  pose proof (log10_scaled_ge (935 / 1000) (K2 * curve2 f) (K2 * curve2 F)
                ltac:(lra) ltac:(nra) ltac:(nra) ltac:(nra)) as L2.
  pose proof log10_106. pose proof log10_935. lra.
Qed.

Lemma log10_8_10 : log10 (8 / 10) <= - (9 / 100).
Proof.
  pose proof (log10_le_of_pow (8 / 10) 100 0 9 ltac:(lra) ltac:(lia)) as H.
  rewrite !INR_IZR_INZ in H. simpl in H.
  assert (Hp : (8 / 10) ^ 100 * (10 * (10 * (10 * (10 * (10 * (10 * (10
               * (10 * (10 * 1))))))))) <= 1) by lra.
  specialize (H Hp). lra.
Qed.

(** A warped frequency [F] at which the reference curve is at most 8/10
    of its value at [f] puts the filter 0.9 dB below the reference. *)
Lemma level_below (fs f : R) (sos : sections) :
  0 < fs -> 0 < f < fs / 2 ->
  returned (design_a_weighting_sos fs) = Ok sos ->
  0 < fs / PI * tan (PI * f / fs) ->
  curve2 (fs / PI * tan (PI * f / fs)) <= 8 / 10 * curve2 f ->
  dB (gain sos fs f) - dB (SpecWording.a_weighting_gain f) <= -0.9.
Proof.
  intros Hfs Hf Hsos HF Hc.
  rewrite (design_gain fs f sos Hfs ltac:(lra) Hsos).
  set (F := fs / PI * tan (PI * f / fs)) in *.
  rewrite !a_weighting_dB by lra.
  pose proof K2_pos as Kp.
  pose proof (curve2_pos F HF) as CF.
  pose proof (curve2_pos f ltac:(lra)) as Cf.
  pose proof (log10_scaled_le (8 / 10) (K2 * curve2 f) (K2 * curve2 F)
                ltac:(lra) ltac:(nra) ltac:(nra) ltac:(nra)) as L.
  pose proof log10_8_10. lra.
Qed.

Lemma level_at_10000 (sos : sections) :
  returned (design_a_weighting_sos 48000) = Ok sos ->
  dB (gain sos 48000 10000) - dB (SpecWording.a_weighting_gain 10000) <= -0.9.
Proof.
  intros Hsos.
  assert (HF : 11700 <= 48000 / PI * tan (PI * 10000 / 48000) <= 11840)
    by (apply warped_between; numeric).
  apply level_below; try lra; try exact Hsos.
  destruct (curve2_between 11700 11840 _ ltac:(lra) HF) as [[_ Cu] _].
  apply Rle_trans with (1 := Cu). unfold curve2. numeric.
Qed.

Lemma cot_eighth : 235 / 100 <= tan (PI / 2 - PI / 8).
Proof.
  pose proof PI_bounds as [Pl Pu].
  unfold tan. rewrite (cos_shift (PI / 8)), (sin_shift (PI / 8)).
  pose proof (cos_bound (PI / 8) 0 ltac:(lra) ltac:(lra)) as [Cl _].
  unfold cos_approx, cos_term in Cl. simpl in Cl.
  assert (Cl' : 1 - (PI / 8) ^ 2 / 2 <= cos (PI / 8)) by lra.
  assert (Ss : 0 < sin (PI / 8)) by (apply sin_gt_0; lra).
  assert (Sx : sin (PI / 8) < PI / 8) by (apply sin_lt_x; lra).
  apply Rmult_le_reg_r with (sin (PI / 8)); [exact Ss|].
  replace (cos (PI / 8) / sin (PI / 8) * sin (PI / 8)) with (cos (PI / 8))
    by (field; lra).
  nra.
Qed.

Lemma warped_3000 : 5980 <= 8000 / PI * tan (PI * 3000 / 8000).
Proof.
  pose proof PI_bounds as [Pl Pu]. pose proof cot_eighth as Hc.
  replace (PI * 3000 / 8000) with (PI / 2 - PI / 8) by field.
  apply Rmult_le_reg_r with PI; [lra|].
  replace (8000 / PI * tan (PI / 2 - PI / 8) * PI)
    with (8000 * tan (PI / 2 - PI / 8)) by (field; lra).
  lra.
Qed.

Lemma level_at_3000 (sos : sections) :
  returned (design_a_weighting_sos 8000) = Ok sos ->
  dB (gain sos 8000 3000) - dB (SpecWording.a_weighting_gain 3000) <= -0.9.
Proof.
  intros Hsos. pose proof warped_3000 as HF.
  apply level_below; try lra; try exact Hsos.
  set (F := 8000 / PI * tan (PI * 3000 / 8000)) in *.
  rewrite (curve2_rises F).
  destruct (rises_between 5980 F ltac:(lra) HF) as (_&_&R1&_).
  destruct (rises_between 1 F ltac:(lra) ltac:(lra)) as (R0&Rm&_&_).
  assert (P : 0 < (5980 ^ 2 + f4 ^ 2) ^ 2) by (unfold f4; nra).
  assert (Q : (5980 ^ 2 + f4 ^ 2) ^ 2 <= (F ^ 2 + f4 ^ 2) ^ 2).
  { apply pow_incr. unfold f4. nra. }
  apply Rle_trans with (f4 ^ 4 * 1 / (5980 ^ 2 + f4 ^ 2) ^ 2).
  - unfold Rdiv. apply Rmult_le_compat.
    + apply Rmult_le_pos; [unfold f4; nra|lra].
    + left. apply Rinv_0_lt_compat. lra.
    + apply Rmult_le_compat_l; [unfold f4; nra|exact R1].
    + apply Rinv_le_contravar; assumption.
  - unfold curve2. numeric.
Qed.

(** C3 (as amended).  Of the four sample rates 8000, 25600, 48000 and
    96000 only 96000 gives a filter that meets the accuracy asked for.
    At all four the level at 20 Hz is within 2 dB of minus 50 dB; at
    25600, 48000 and 96000 the level at 1000 Hz is within 0.05 dB of
    0 dB, and at 8000 it lies between 0.1 and 0.2 dB.  The filter designed
    for 96000 is within 0.3 dB of the reference curve at every frequency
    from 20 Hz to 10 kHz.  The filters designed for 48000, 25600 and 8000
    are not: they lie at least 0.9 dB below the reference at 10000 Hz,
    at 6400 Hz and at 3000 Hz respectively. *)
Theorem design_accuracy_by_rate :
  (forall fs sos,
     In fs [8000; 25600; 48000; 96000] ->
     returned (design_a_weighting_sos fs) = Ok sos ->
     Rabs (dB (gain sos fs 20) + 50) <= 2) /\
  (forall fs sos,
     In fs [25600; 48000; 96000] ->
     returned (design_a_weighting_sos fs) = Ok sos ->
     Rabs (dB (gain sos fs 1000)) <= 0.05) /\
  (forall sos,
     returned (design_a_weighting_sos 8000) = Ok sos ->
     0.1 <= dB (gain sos 8000 1000) <= 0.2) /\
  (forall sos f,
     returned (design_a_weighting_sos 96000) = Ok sos ->
     20 <= f <= 10000 ->
     Rabs (dB (gain sos 96000 f) - dB (SpecWording.a_weighting_gain f))
     <= 0.3) /\
  (forall fs f sos,
     In (fs, f) [(48000, 10000); (25600, 6400); (8000, 3000)] ->
     returned (design_a_weighting_sos fs) = Ok sos ->
     20 <= f <= 10000 /\ f < fs / 2 /\
     dB (gain sos fs f) - dB (SpecWording.a_weighting_gain f) <= -0.9) /\
  (forall fs,
     In fs [8000; 25600; 48000; 96000] ->
     SpecWording.meets_accuracy fs <-> fs = 96000).
Proof.
  assert (H20 : forall fs sos,
            In fs [8000; 25600; 48000; 96000] ->
            returned (design_a_weighting_sos fs) = Ok sos ->
            Rabs (dB (gain sos fs 20) + 50) <= 2).
  { intros fs sos Hin Hsos.
    pose proof (level_at_20 fs sos Hin Hsos) as H. apply Rabs_le. lra. }
  assert (H1000 : forall fs sos,
            In fs [25600; 48000; 96000] ->
            returned (design_a_weighting_sos fs) = Ok sos ->
            Rabs (dB (gain sos fs 1000)) <= 0.05).
  { intros fs sos Hin Hsos.
    pose proof (level_at_1000 fs sos Hin Hsos) as H. apply Rabs_le. lra. }
  assert (Hband : forall sos f,
            returned (design_a_weighting_sos 96000) = Ok sos ->
            20 <= f <= 10000 ->
            Rabs (dB (gain sos 96000 f) - dB (SpecWording.a_weighting_gain f))
            <= 0.3).
  { intros sos f Hsos Hf.
    pose proof (band_96000 sos f Hsos Hf) as H. apply Rabs_le. lra. }
  assert (Hoff : forall fs f sos,
            In (fs, f) [(48000, 10000); (25600, 6400); (8000, 3000)] ->
            returned (design_a_weighting_sos fs) = Ok sos ->
            20 <= f <= 10000 /\ f < fs / 2 /\
            dB (gain sos fs f) - dB (SpecWording.a_weighting_gain f) <= -0.9).
  { intros fs f sos Hin Hsos.
    destruct Hin as [E|[E|[E|[]]]]; injection E as <- <-;
      (split; [lra|]); (split; [lra|]).
    - exact (level_at_10000 sos Hsos).
    - exact (level_at_6400 sos Hsos).
    - exact (level_at_3000 sos Hsos). }
  assert (Hnot : forall fs f,
            In (fs, f) [(48000, 10000); (25600, 6400); (8000, 3000)] ->
            0 < fs -> ~ SpecWording.meets_accuracy fs).
  { intros fs f Hin Hfs Hacc.
    destruct (design_returns fs Hfs) as [sos Hsos].
    assert (Hr : returned (design_a_weighting_sos fs) = Ok sos)
      by (rewrite Hsos; reflexivity).
    destruct (Hoff fs f sos Hin Hr) as (Hf & _ & Hlow).
    destruct (Hacc sos Hr) as [Hb _]. specialize (Hb f Hf).
    apply Rabs_le_inv in Hb. lra. }
  split; [exact H20|]. split; [exact H1000|].
  split; [exact level_at_1000_8000|]. split; [exact Hband|].
  split; [exact Hoff|].
  intros fs Hin. split.
  - intros Hacc. destruct Hin as [<-|[<-|[<-|[<-|[]]]]].
    + exfalso. apply (Hnot 8000 3000); [simpl; tauto|lra|exact Hacc].
    + exfalso. apply (Hnot 25600 6400); [simpl; tauto|lra|exact Hacc].
    + exfalso. apply (Hnot 48000 10000); [simpl; tauto|lra|exact Hacc].
    + reflexivity.
  - intros -> sos Hsos. split; [|split].
    + intros f Hf. exact (Hband sos f Hsos Hf).
    + apply H1000; [simpl; tauto|exact Hsos].
    + apply H20; [simpl; tauto|exact Hsos].
Qed.

Lemma design_accuracy_by_rate_witness :
  In 96000 [8000; 25600; 48000; 96000] /\
  In 96000 [25600; 48000; 96000] /\
  In (48000, 10000) [(48000, 10000); (25600, 6400); (8000, 3000)] /\
  20 <= 5000 <= 10000 /\
  (exists sos,
     returned (design_a_weighting_sos 96000) = Ok sos /\
     Rabs (dB (gain sos 96000 20) + 50) <= 2 /\
     Rabs (dB (gain sos 96000 1000)) <= 0.05 /\
     Rabs (dB (gain sos 96000 5000) - dB (SpecWording.a_weighting_gain 5000))
     <= 0.3) /\
  (exists sos,
     returned (design_a_weighting_sos 48000) = Ok sos /\
     dB (gain sos 48000 10000) - dB (SpecWording.a_weighting_gain 10000)
     <= -0.9) /\
  (exists sos,
     returned (design_a_weighting_sos 8000) = Ok sos /\
     0.1 <= dB (gain sos 8000 1000) <= 0.2) /\
  SpecWording.meets_accuracy 96000.
Proof.
  assert (I4 : In 96000 [8000; 25600; 48000; 96000]) by (simpl; tauto).
  assert (I3 : In 96000 [25600; 48000; 96000]) by (simpl; tauto).
  assert (I2 : In (48000, 10000) [(48000, 10000); (25600, 6400); (8000, 3000)])
    by (simpl; tauto).
  assert (Hf : 20 <= 5000 <= 10000) by lra.
  destruct design_accuracy_by_rate as (H20 & H1000 & H8000 & Hband & Hoff & Hacc).
  split; [exact I4|]. split; [exact I3|]. split; [exact I2|].
  split; [exact Hf|].
  destruct (design_returns 96000 ltac:(lra)) as [s96 E96].
  destruct (design_returns 48000 ltac:(lra)) as [s48 E48].
  destruct (design_returns 8000 ltac:(lra)) as [s8 E8].
  assert (R96 : returned (design_a_weighting_sos 96000) = Ok s96)
    by (rewrite E96; reflexivity).
  assert (R48 : returned (design_a_weighting_sos 48000) = Ok s48)
    by (rewrite E48; reflexivity).
  assert (R8 : returned (design_a_weighting_sos 8000) = Ok s8)
    by (rewrite E8; reflexivity).
  split.
  { exists s96. split; [exact R96|]. split; [exact (H20 96000 s96 I4 R96)|].
    split; [exact (H1000 96000 s96 I3 R96)|exact (Hband s96 5000 R96 Hf)]. }
  split.
  { exists s48. split; [exact R48|].
    exact (proj2 (proj2 (Hoff 48000 10000 s48 I2 R48))). }
  split.
  { exists s8. split; [exact R8|exact (H8000 s8 R8)]. }
  exact (proj2 (Hacc 96000 I4) eq_refl).
Defined.

End ResponseFacts.

(** ** More on the token sanitising (app/utils.py, [sanitize_token]) *)

Module TokenFacts.
Import PyStr Utils FilenameFacts.

(** A character that the sanitising keeps as it is: neither whitespace nor
    in the removed class. *)
Definition kept_char (c : char) : bool :=
  negb (py_isspace c) && negb (windows_illegal c).

(** A token in sanitised form: 1 to 60 legal characters, no whitespace but
    single spaces, none of them at either end. *)
Definition clean (t : str) : bool :=
  match t with
  | [] => false
  | c :: _ =>
      (length t <=? 60)%nat
      && forallb (fun c => negb (windows_illegal c)
                           && (negb (py_isspace c) || (c =? SPACE)%N)) t
      && no_ws_pair t
      && negb (py_isspace c)
      && negb (py_isspace (last t c))
  end.

Lemma find_app (f : char -> bool) (a b : str) :
  find f (a ++ b) = match find f a with Some c => Some c | None => find f b end.
Proof.
  induction a as [|x a IH]; simpl; [reflexivity|].
  destruct (f x); [reflexivity|exact IH].
Qed.

Lemma find_kept_lstrip (s : str) : find kept_char (lstrip s) = find kept_char s.
Proof.
  induction s as [|c s IH]; simpl; [reflexivity|].
  destruct (py_isspace c) eqn:Hc.
  - unfold kept_char at 2. rewrite Hc. simpl. exact IH.
  - reflexivity.
Qed.

Lemma lstrip_all_space (s : str) :
  Forall (fun c => py_isspace c = true) s -> lstrip s = [].
Proof.
  induction 1 as [|c s Hc _ IH]; simpl; [reflexivity|].
  rewrite Hc. exact IH.
Qed.

(** What [lstrip] removes is whitespace. *)
Lemma lstrip_split (s : str) :
  exists ws, s = ws ++ lstrip s /\ Forall (fun c => py_isspace c = true) ws.
Proof.
  induction s as [|c s [ws [E Hws]]]; simpl.
  - exists []. split; [reflexivity|constructor].
  - destruct (py_isspace c) eqn:Hc.
    + exists (c :: ws). split; [simpl; f_equal; exact E|].
      constructor; assumption.
    + exists []. split; [reflexivity|constructor].
Qed.

Lemma rstrip_split (s : str) :
  exists ws, s = rstrip s ++ ws /\ Forall (fun c => py_isspace c = true) ws.
Proof.
  unfold rstrip. destruct (lstrip_split (rev s)) as [ws [E Hws]].
  exists (rev ws). split.
  - rewrite <- rev_app_distr, <- E, rev_involutive. reflexivity.
  - apply Forall_rev, Hws.
Qed.

Lemma find_kept_spaces (ws : str) :
  Forall (fun c => py_isspace c = true) ws -> find kept_char ws = None.
Proof.
  induction 1 as [|c s Hc _ IH]; simpl; [reflexivity|].
  unfold kept_char at 1. rewrite Hc. simpl. exact IH.
Qed.

Lemma find_kept_rstrip (s : str) : find kept_char (rstrip s) = find kept_char s.
Proof.
  destruct (rstrip_split s) as [ws [E Hws]].
  rewrite E at 2. rewrite find_app, (find_kept_spaces ws Hws).
  destruct (find kept_char (rstrip s)); reflexivity.
Qed.

Lemma find_kept_strip (s : str) : find kept_char (strip s) = find kept_char s.
Proof. unfold strip. rewrite find_kept_rstrip. apply find_kept_lstrip. Qed.

Lemma kept_char_SPACE : kept_char SPACE = false.
Proof. reflexivity. Qed.

Lemma find_kept_sub_ws_runs (s : str) : forall f,
  find kept_char (sub_ws_runs f s) = find kept_char s.
Proof.
  induction s as [|c s IH]; intros f; simpl; [reflexivity|].
  destruct (py_isspace c) eqn:Hc.
  - assert (Hk : kept_char c = false) by (unfold kept_char; rewrite Hc; reflexivity).
    rewrite Hk. destruct f; simpl; rewrite ?kept_char_SPACE; apply IH.
  - simpl. rewrite IH. reflexivity.
Qed.

Lemma find_kept_filter (s : str) :
  find kept_char (sub_class_empty windows_illegal s) = find kept_char s.
Proof.
  unfold sub_class_empty.
  induction s as [|c s IH]; simpl; [reflexivity|].
  destruct (windows_illegal c) eqn:Hc; simpl.
  - assert (Hk : kept_char c = false)
      by (unfold kept_char; rewrite Hc; apply andb_false_r).
    rewrite Hk. exact IH.
  - rewrite IH. reflexivity.
Qed.

(** The text before the cut: stripped, collapsed, filtered, stripped. *)
Definition before_cut (t : str) : str :=
  strip (sub_class_empty windows_illegal (sub_ws_runs false (strip t))).

Lemma find_kept_before_cut (t : str) :
  find kept_char (before_cut t) = find kept_char t.
Proof.
  unfold before_cut.
  rewrite find_kept_strip, find_kept_filter, find_kept_sub_ws_runs.
  apply find_kept_strip.
Qed.

Lemma before_cut_head (t : str) (c : char) (r : str) :
  before_cut t = c :: r -> kept_char c = true.
Proof.
  intros E. unfold kept_char.
  rewrite (strip_head _ c r E). simpl.
  assert (Hin : In c (before_cut t)) by (rewrite E; left; reflexivity).
  unfold before_cut in Hin. apply strip_In in Hin.
  pose proof (filter_legal (sub_ws_runs false (strip t))) as Hl.
  rewrite Forall_forall in Hl. rewrite (Hl c Hin). reflexivity.
Qed.

(** X1. A token in which every character is whitespace or removed
    becomes the placeholder NA; any other token comes out starting with
    the first character of the input that is neither. *)
Theorem sanitize_token_first_kept (t : str) :
  sanitize_token t =
    match find kept_char t with
    | None => lit "NA"
    | Some c => c :: tl (sanitize_token t)
    end.
Proof.
  rewrite sanitize_token_unfold at 1.
  rewrite sanitize_token_unfold.
  fold (before_cut t).
  rewrite <- (find_kept_before_cut t).
  destruct (before_cut t) as [|c r] eqn:E; [reflexivity|].
  simpl find. rewrite (before_cut_head t c r E). reflexivity.
Qed.

Lemma lstrip_id (s : str) :
  (forall c r, s = c :: r -> py_isspace c = false) -> lstrip s = s.
Proof.
  destruct s as [|c r]; [reflexivity|]. intros H. simpl.
  rewrite (H c r eq_refl). reflexivity.
Qed.

Lemma rev_head_last (s : str) (d c : char) (r : str) :
  rev s = c :: r -> last s d = c.
Proof.
  intros E. assert (Es : s = rev r ++ [c]).
  { rewrite <- (rev_involutive s), E. reflexivity. }
  rewrite Es. apply last_last.
Qed.

Lemma rstrip_id (s : str) (d : char) :
  s <> [] -> py_isspace (last s d) = false -> rstrip s = s.
Proof.
  intros Hs Hl. unfold rstrip. rewrite lstrip_id; [apply rev_involutive|].
  intros c r E. rewrite <- (rev_head_last s d c r E). exact Hl.
Qed.

Lemma rstrip_last (s : str) (d : char) :
  rstrip s <> [] -> py_isspace (last (rstrip s) d) = false.
Proof.
  unfold rstrip. destruct (lstrip (rev s)) as [|c u] eqn:E; [contradiction|].
  intros _. simpl rev. rewrite last_last. exact (lstrip_head _ _ _ E).
Qed.

Lemma sub_ws_runs_id (s : str) : forall f,
  (f = true -> forall c r, s = c :: r -> py_isspace c = false) ->
  no_ws_pair s = true ->
  (forall c, In c s -> py_isspace c = true -> c = SPACE) ->
  sub_ws_runs f s = s.
Proof.
  induction s as [|c s IH]; intros f Hf Hp Hsp; [reflexivity|].
  cbn [sub_ws_runs]. destruct (py_isspace c) eqn:Hc.
  - destruct f; [rewrite (Hf eq_refl c s eq_refl) in Hc; discriminate|].
    rewrite (Hsp c (or_introl eq_refl) Hc). f_equal.
    apply IH.
    + intros _ b r E. subst s.
      change (negb (py_isspace c && py_isspace b) && no_ws_pair (b :: r) = true)
        in Hp.
      rewrite Hc in Hp. apply andb_true_iff in Hp. destruct Hp as [Hp _].
      destruct (py_isspace b); [discriminate|reflexivity].
    + exact (no_ws_pair_cons _ _ Hp).
    + intros x Hx. apply Hsp. right; exact Hx.
  - f_equal. apply IH.
    + discriminate.
    + exact (no_ws_pair_cons _ _ Hp).
    + intros x Hx. apply Hsp. right; exact Hx.
Qed.

Lemma sub_ws_runs_length (s : str) : forall f,
  length (sub_ws_runs f s) <= length s.
Proof.
  induction s as [|c s IH]; intros f; simpl; [lia|].
  pose proof (IH true) as Ht. pose proof (IH false) as Hf.
  destruct (py_isspace c); [destruct f|]; simpl; lia.
Qed.

Lemma strip_length (s : str) : length (strip s) <= length s.
Proof.
  destruct (strip_infix s) as [a [b E]]. rewrite E at 2.
  rewrite !length_app. lia.
Qed.

Lemma strip_full (s : str) : length s <= length (strip s) -> strip s = s.
Proof.
  destruct (strip_infix s) as [a [b E]]. intros H.
  rewrite E in H at 1. rewrite !length_app in H.
  destruct a; [|simpl in H; lia]. destruct b; [|simpl in H; lia].
  rewrite app_nil_r in E. simpl in E. symmetry; exact E.
Qed.

Lemma before_cut_length (t : str) : length (before_cut t) <= length (strip t).
Proof.
  unfold before_cut.
  pose proof (strip_length (sub_class_empty windows_illegal
                              (sub_ws_runs false (strip t)))) as H1.
  pose proof (filter_length_le (fun c => negb (windows_illegal c))
                (sub_ws_runs false (strip t))) as H2.
  pose proof (sub_ws_runs_length (strip t) false) as H3.
  unfold sub_class_empty in *. lia.
Qed.

Lemma clean_spec (t : str) :
  clean t = true <->
  (exists c r, t = c :: r /\ py_isspace c = false /\
               py_isspace (last t c) = false) /\
  length t <= 60 /\
  Forall (fun c => windows_illegal c = false) t /\
  (forall c, In c t -> py_isspace c = true -> c = SPACE) /\
  no_ws_pair t = true.
Proof.
  unfold clean. destruct t as [|c r].
  - split; [discriminate|]. intros [[c [r [E _]]] _]. discriminate.
  - rewrite !andb_true_iff, Nat.leb_le, forallb_forall, Forall_forall,
      !negb_true_iff.
    split.
    + intros [[[[Hlen Hall] Hp] Hh] Hl].
      split; [exists c, r; auto|]. split; [exact Hlen|]. split.
      * intros x Hx. specialize (Hall x Hx).
        apply andb_true_iff in Hall. destruct Hall as [Hi _].
        apply negb_true_iff in Hi. exact Hi.
      * split; [|exact Hp]. intros x Hx Hs. specialize (Hall x Hx).
        apply andb_true_iff in Hall. destruct Hall as [_ Hor].
        rewrite Hs in Hor. simpl in Hor. apply N.eqb_eq in Hor. exact Hor.
    + intros [[c' [r' [E [Hh Hl]]]] [Hlen [Hleg [Hsp Hp]]]].
      inversion E; subst c' r'.
      repeat split; try assumption.
      intros x Hx. rewrite (Hleg x Hx). simpl.
      destruct (py_isspace x) eqn:Hs; [|reflexivity].
      simpl. apply N.eqb_eq. apply Hsp; assumption.
Qed.

Lemma clean_fixed (t : str) : clean t = true -> sanitize_token t = t.
Proof.
  intros H. apply clean_spec in H.
  destruct H as [[c [r [E [Hh Hl]]]] [Hlen [Hleg [Hsp Hp]]]].
  assert (Hne : t <> []) by (rewrite E; discriminate).
  assert (Hstrip : strip t = t).
  { unfold strip. rewrite lstrip_id.
    - apply (rstrip_id t c Hne Hl).
    - intros c' r' E'. rewrite E in E'. inversion E'; subst. exact Hh. }
  rewrite sanitize_token_unfold, Hstrip.
  rewrite sub_ws_runs_id; [|discriminate|exact Hp|exact Hsp].
  unfold sub_class_empty. rewrite filter_all.
  - rewrite Hstrip. rewrite E. rewrite <- E.
    destruct t as [|c0 r0]; [contradiction|].
    apply firstn_all2. exact Hlen.
  - intros x Hx. rewrite Forall_forall in Hleg. rewrite (Hleg x Hx).
    reflexivity.
Qed.

Lemma fixed_clean (t : str) : sanitize_token t = t -> clean t = true.
Proof.
  intros H. pose proof (sanitize_token_sanitized t) as S. rewrite H in S.
  destruct S as [Hleg Hlen Hsp Hh Hp].
  apply clean_spec.
  destruct t as [|c r]; [simpl in Hlen; lia|].
  assert (Hl : py_isspace (last (c :: r) c) = false).
  { rewrite sanitize_token_unfold in H. fold (before_cut (c :: r)) in H.
    destruct (before_cut (c :: r)) as [|c0 r0] eqn:E.
    - rewrite <- H. reflexivity.
    - assert (Hfull : length (c :: r) <= length (strip (c :: r))).
      { pose proof (before_cut_length (c :: r)) as Hb. rewrite E in Hb.
        rewrite <- H at 1. rewrite length_firstn. lia. }
      apply strip_full in Hfull. rewrite <- Hfull at 1.
      unfold strip. apply rstrip_last.
      fold (strip (c :: r)). rewrite Hfull. discriminate. }
  split; [exists c, r; split; [reflexivity|]; split;
            [exact (Hh c r eq_refl)|exact Hl]|].
  split; [lia|]. split; [exact Hleg|]. split; [exact Hsp|].
  apply Hp. intros x Hx _. rewrite Forall_forall in Hleg. apply Hleg, Hx.
Qed.

(** X2. The tokens that the sanitising leaves unchanged are exactly the
    clean ones: 1 to 60 characters, none of them removed, no whitespace
    but single spaces, and none at either end. *)
Theorem sanitize_token_fixed_points (t : str) :
  sanitize_token t = t <-> clean t = true.
Proof. split; [apply fixed_clean|apply clean_fixed]. Qed.

End TokenFacts.

(** ** Stem and suffix (app/utils.py, [increment_path]) *)

Module PathFacts.
Import Py PyStr Utils.

Definition DOT : char := 46%N.

Lemma rfind_dot_none (s : str) : rfind_dot s = None <-> ~ In DOT s.
Proof.
  induction s as [|c s IH]; simpl; [tauto|].
  destruct (rfind_dot s) as [i|].
  - split; [discriminate|]. intros H. exfalso.
    assert (Hn : ~ In DOT s) by tauto.
    apply IH in Hn. discriminate.
  - destruct (N.eqb_spec c 46) as [E|E].
    + split; [discriminate|]. intros H. exfalso. apply H. left. exact E.
    + split; [|reflexivity]. intros _ [H|H]; [contradiction|].
      apply (proj1 IH eq_refl), H.
Qed.

Lemma rfind_dot_last (x e : str) :
  ~ In DOT e -> rfind_dot (x ++ DOT :: e) = Some (length x).
Proof.
  intros He. induction x as [|c x IH]; simpl.
  - rewrite (proj2 (rfind_dot_none e) He). reflexivity.
  - simpl in IH. rewrite IH. reflexivity.
Qed.

Lemma rfind_dot_some (s : str) : forall i,
  rfind_dot s = Some i ->
  exists x e, s = x ++ DOT :: e /\ length x = i /\ ~ In DOT e.
Proof.
  induction s as [|c s IH]; intros i; simpl; [discriminate|].
  destruct (rfind_dot s) as [j|] eqn:E.
  - intros H; inversion H; subst.
    destruct (IH j eq_refl) as [x [e [Es [Hl He]]]].
    exists (c :: x), e. split; [simpl; f_equal; exact Es|].
    split; [simpl; f_equal; exact Hl|exact He].
  - destruct (N.eqb_spec c 46) as [Ec|Ec]; [|discriminate].
    intros H; inversion H; subst.
    exists [], s. split; [reflexivity|]. split; [reflexivity|].
    apply rfind_dot_none, E.
Qed.

Lemma split_point_ext (x e : str) :
  x <> [] -> e <> [] -> ~ In DOT e ->
  split_point (x ++ DOT :: e) = length x.
Proof.
  intros Hx He Hd. unfold split_point. rewrite (rfind_dot_last x e Hd).
  rewrite length_app. simpl length.
  destruct x as [|c x]; [contradiction|]. destruct e as [|d e]; [contradiction|].
  simpl length.
  assert (H0 : (0 <? S (length x)) = true) by (apply Nat.ltb_lt; lia).
  assert (H1 : (S (length x) <? S (length x) + S (S (length e)) - 1) = true)
    by (apply Nat.ltb_lt; lia).
  rewrite H0, H1. reflexivity.
Qed.

(** A name that ends in a dot and an extension without further dots, with
    something before the dot. *)
Lemma name_with_extension (p : path) (x e : str) :
  name p = x ++ DOT :: e -> x <> [] -> e <> [] -> ~ In DOT e ->
  stem p = x /\ suffix p = DOT :: e /\
  forall n, candidate_name p n = x ++ lit " (" ++ str_of_nat n ++ lit ")." ++ e.
Proof.
  intros En Hx He Hd.
  assert (Hs : stem p = x).
  { unfold stem. rewrite En, (split_point_ext x e Hx He Hd).
    rewrite firstn_app, firstn_all, Nat.sub_diag. simpl. apply app_nil_r. }
  assert (Hf : suffix p = DOT :: e).
  { unfold suffix. rewrite En, (split_point_ext x e Hx He Hd).
    rewrite skipn_app, skipn_all, Nat.sub_diag. reflexivity. }
  split; [exact Hs|]. split; [exact Hf|].
  intros n. unfold candidate_name. rewrite Hs, Hf. reflexivity.
Qed.

(** X3. Stem and suffix split the name; the suffix is empty or is the part
    from the last dot on, which then is neither the first nor the last
    character of the name.  For a name with such an extension, the
    candidate of the collision loop carries the counter between the part
    before the last dot and the extension. *)
Theorem stem_suffix_split (p : path) :
  stem p ++ suffix p = name p /\
  (suffix p = [] \/
   exists e, suffix p = DOT :: e /\ e <> [] /\ ~ In DOT e /\ stem p <> []) /\
  (forall x e, name p = x ++ DOT :: e -> x <> [] -> e <> [] -> ~ In DOT e ->
     stem p = x /\ suffix p = DOT :: e /\
     forall n, candidate_name p n
               = x ++ lit " (" ++ str_of_nat n ++ lit ")." ++ e).
Proof.
  split; [apply firstn_skipn|]. split.
  - unfold stem, suffix, split_point.
    destruct (rfind_dot (name p)) as [i|] eqn:E.
    2:{ left. apply skipn_all. }
    destruct (0 <? i) eqn:H0; simpl; [|left; apply skipn_all].
    destruct (i <? length (name p) - 1) eqn:H1; [|left; apply skipn_all].
    right. apply Nat.ltb_lt in H0, H1.
    destruct (rfind_dot_some _ _ E) as [x [e [Es [Hl He]]]].
    rewrite Es in *. rewrite length_app in H1. simpl in H1.
    exists e.
    assert (Hsk : skipn i (x ++ DOT :: e) = DOT :: e).
    { rewrite <- Hl. rewrite skipn_app, skipn_all, Nat.sub_diag. reflexivity. }
    assert (Hfi : firstn i (x ++ DOT :: e) = x).
    { rewrite <- Hl. rewrite firstn_app, firstn_all, Nat.sub_diag.
      simpl. apply app_nil_r. }
    rewrite Hsk, Hfi. split; [reflexivity|].
    split; [destruct e; [simpl in H1; lia|discriminate]|].
    split; [exact He|]. destruct x; [simpl in Hl; lia|discriminate].
  - intros x e. apply name_with_extension.
Qed.

Lemma stem_suffix_split_witness :
  let p := {| parent := []; name := lit "a.b.tdms" |} in
  stem p = lit "a.b" /\ suffix p = lit ".tdms" /\
  candidate_name p 2 = lit "a.b (2).tdms".
Proof.
  cbv zeta.
  destruct (proj2 (proj2 (stem_suffix_split
                            {| parent := []; name := lit "a.b.tdms" |}))
              (lit "a.b") (lit "tdms")) as [Hs [Hf Hc]].
  - reflexivity.
  - discriminate.
  - discriminate.
  - vm_compute. intros H. repeat (destruct H as [H|H]; [discriminate|]).
    exact H.
  - split; [exact Hs|]. split; [exact Hf|]. apply Hc.
Defined.

End PathFacts.

(** ** Starting a recording (app/main_window.py, [start_recording]) *)

Module StartFacts.
Import Py PyStr Utils NiDaqmx MainWindow IncrementFacts FilenameFacts
       TokenFacts PathFacts.

Definition legal (s : str) : Prop :=
  Forall (fun c => windows_illegal c = false) s.

(** Only whitespace, if anything. *)
Definition blank (t : str) : Prop := Forall (fun c => py_isspace c = true) t.

Lemma strip_blank (t : str) : is_empty (strip t) = true <-> blank t.
Proof.
  split.
  - intros H. destruct (strip t) as [|c r] eqn:E; [|discriminate].
    unfold strip in E.
    destruct (lstrip_split t) as [a [Ea Ha]].
    destruct (rstrip_split (lstrip t)) as [b [Eb Hb]].
    rewrite E in Eb. simpl in Eb. rewrite Eb in Ea. rewrite Ea.
    apply Forall_app. split; assumption.
  - intros H. unfold strip. rewrite (lstrip_all_space t H). reflexivity.
Qed.

Lemma legal_lit_uint (d : Decimal.uint) : legal (lit (NilEmpty.string_of_uint d)).
Proof.
  unfold legal.
  induction d; simpl; constructor; try reflexivity; assumption.
Qed.

Lemma legal_app (a b : str) : legal a -> legal b -> legal (a ++ b).
Proof. intros Ha Hb. apply Forall_app. split; assumption. Qed.

Lemma legal_zero_pad (w n : nat) : legal (zero_pad w n).
Proof.
  unfold zero_pad. apply legal_app; [|apply legal_lit_uint].
  unfold legal. apply Forall_forall. intros c Hc.
  apply repeat_spec in Hc. subst c. reflexivity.
Qed.

Lemma legal_today (d : date) : legal (today_yyyy_mm_dd d).
Proof.
  unfold today_yyyy_mm_dd.
  apply legal_app; [apply legal_zero_pad|].
  apply legal_app; [repeat constructor|].
  apply legal_app; [apply legal_zero_pad|].
  apply legal_app; [repeat constructor|apply legal_zero_pad].
Qed.

Lemma legal_sanitize (t : str) : legal (sanitize_token t).
Proof. apply (san_legal _ _ (sanitize_token_sanitized t)). Qed.

(** The recording name without its extension. *)
Definition recording_stem (d : date) (project unit state loc : str) : str :=
  today_yyyy_mm_dd d ++ lit " - " ++ sanitize_token project
  ++ lit " - " ++ sanitize_token unit ++ lit " - " ++ sanitize_token state
  ++ lit " - " ++ sanitize_token loc.

Lemma recording_filename_stem (d : date) (project unit state loc : str) :
  recording_filename d project unit state loc
  = recording_stem d project unit state loc ++ DOT :: lit "tdms".
Proof.
  unfold recording_filename, build_tdms_filename, recording_stem.
  rewrite <- !app_assoc. reflexivity.
Qed.

Lemma legal_recording_stem (d : date) (project unit state loc : str) :
  legal (recording_stem d project unit state loc).
Proof.
  unfold recording_stem.
  apply legal_app; [apply legal_today|].
  apply legal_app; [repeat constructor|].
  apply legal_app; [apply legal_sanitize|].
  apply legal_app; [repeat constructor|].
  apply legal_app; [apply legal_sanitize|].
  apply legal_app; [repeat constructor|].
  apply legal_app; [apply legal_sanitize|].
  apply legal_app; [repeat constructor|apply legal_sanitize].
Qed.

Lemma recording_stem_nonempty (d : date) (project unit state loc : str) :
  recording_stem d project unit state loc <> [].
Proof.
  unfold recording_stem. intros E.
  apply app_eq_nil in E. destruct E as [_ E]. discriminate.
Qed.

(** On an existing path with a name, the collision loop returns a free
    candidate. *)
Lemma increment_existing (fs : filesystem) (p : path) :
  name p <> [] -> path_exists fs p = true ->
  exists N, 2 <= N /\
    increment_path fs p
    = Some (Ok {| parent := parent p; name := candidate_name p N |}) /\
    path_exists fs {| parent := parent p; name := candidate_name p N |} = false.
Proof.
  intros Hn He. unfold increment_path, increment_path_fuel. rewrite He.
  simpl negb. cbv iota.
  destruct (increment_loop_enough fs p Hn (S (length fs)))
    as [k [Hfree [_ Hloop]]]; [lia|].
  exists (2 + k). split; [lia|]. split; assumption.
Qed.

Section Start.
Variable f : form.
Variable s : surroundings.

(** The path that [start_recording] first builds. *)
Definition wanted : path :=
  {| parent := base_dir s;
     name := recording_filename (today s) (strip (le_project f))
               (strip (le_unit f)) (strip (le_state f))
               (strip (le_location f)) |}.

Definition wanted_stem : str :=
  recording_stem (today s) (strip (le_project f)) (strip (le_unit f))
    (strip (le_state f)) (strip (le_location f)).

Lemma wanted_name : name wanted = wanted_stem ++ DOT :: lit "tdms".
Proof. apply recording_filename_stem. Qed.

Lemma wanted_named : name wanted <> [].
Proof.
  rewrite wanted_name. intros E. apply app_eq_nil in E.
  destruct E as [_ E]. discriminate.
Qed.

Lemma wanted_candidate (n : nat) :
  candidate_name wanted n
  = wanted_stem ++ lit " (" ++ str_of_nat n ++ lit ").tdms".
Proof.
  destruct (name_with_extension wanted wanted_stem (lit "tdms") wanted_name)
    as [_ [_ H]].
  - apply recording_stem_nonempty.
  - discriminate.
  - vm_compute. intros H. repeat (destruct H as [H|H]; [discriminate|]).
    exact H.
  - apply H.
Qed.

(** The collision handling on the wanted path. *)
Definition resolved : option (result (option path)) :=
  if path_exists (files s) wanted then
    if String.eqb (_ask_file_exists (clicked s)) "cancel" then Some (Ok None)
    else if String.eqb (_ask_file_exists (clicked s)) "increment" then
      match increment_path (files s) wanted with
      | None => None
      | Some (Raise e) => Some (Raise e)
      | Some (Ok p) => Some (Ok (Some p))
      end
    else Some (Ok (Some wanted))
  else Some (Ok (Some wanted)).

(** The cases of the collision handling. *)
Lemma resolved_cases :
  (path_exists (files s) wanted = false /\ resolved = Some (Ok (Some wanted)))
  \/ (path_exists (files s) wanted = true /\ clicked s = btn_overwrite /\
      resolved = Some (Ok (Some wanted)))
  \/ (path_exists (files s) wanted = true /\
      (clicked s = btn_cancel \/ clicked s = no_button) /\
      resolved = Some (Ok None))
  \/ (path_exists (files s) wanted = true /\ clicked s = btn_increment /\
      exists N, 2 <= N /\
        let p := {| parent := base_dir s;
                    name := wanted_stem ++ lit " (" ++ str_of_nat N
                            ++ lit ").tdms" |} in
        resolved = Some (Ok (Some p)) /\ path_exists (files s) p = false).
Proof.
  unfold resolved. destruct (path_exists (files s) wanted) eqn:He; [|auto].
  right. destruct (clicked s) eqn:Hc; simpl.
  - right. right. split; [reflexivity|]. split; [reflexivity|].
    destruct (increment_existing (files s) wanted wanted_named He)
      as [N [HN [Hi Hf]]].
    exists N. split; [exact HN|]. cbv zeta.
    rewrite Hi. rewrite wanted_candidate in *. split; [reflexivity|exact Hf].
  - left. auto.
  - right. left. auto.
  - right. left. auto.
Qed.

(** Whether the required fields are filled in and a channel is chosen. *)
Definition filled : bool :=
  negb (is_empty (strip (le_project f)))
  && negb (is_empty (strip (le_unit f)))
  && negb (is_empty (strip (le_state f)) || is_empty (strip (le_location f)))
  && negb (is_empty (strip (le_path f)))
  && negb (is_empty (strip (cb_channel f))
           || startswith_paren (strip (cb_channel f))).

(** Whether the storage folder is there once the method has dealt with
    it. *)
Definition folder_ready : bool :=
  base_dir_exists s
  || create_folder s && match mkdir_error s with None => true | _ => false end.

Lemma start_recording_ready :
  filled = true -> folder_ready = true ->
  start_recording f s =
    match resolved with
    | None => None
    | Some (Raise e) => Some (Raised e)
    | Some (Ok None) => Some Returned
    | Some (Ok (Some p)) =>
        Some (Started
                {| mic_cfg :=
                     {| Models.physical_channel := strip (cb_channel f);
                        Models.sensitivity_mV_per_Pa := sb_sens f;
                        Models.microphone_id := strip (le_mic_id f) |};
                   duration_s := sb_duration f;
                   tdms_path := p;
                   logging_operation := CREATE_OR_REPLACE |})
    end.
Proof.
  unfold filled, folder_ready, start_recording. intros Hf Hd.
  repeat (apply andb_true_iff in Hf; destruct Hf as [Hf ?]).
  repeat match goal with
         | H : negb _ = true |- _ => apply negb_true_iff in H; rewrite H
         end.
  cbv zeta.
  destruct (base_dir_exists s); simpl in Hd.
  - reflexivity.
  - apply andb_true_iff in Hd. destruct Hd as [Hd1 Hd2]. rewrite Hd1.
    simpl negb. cbv iota.
    destruct (mkdir_error s); [discriminate|]. reflexivity.
Qed.

Lemma start_recording_not_ready (l : launch) :
  start_recording f s = Some (Started l) ->
  filled = true /\ folder_ready = true.
Proof.
  unfold filled, folder_ready, start_recording, missing.
  destruct (is_empty (strip (le_project f))); [discriminate|].
  destruct (is_empty (strip (le_unit f))); [discriminate|].
  destruct (is_empty (strip (le_state f)) || is_empty (strip (le_location f)));
    [discriminate|].
  destruct (is_empty (strip (le_path f))); [discriminate|].
  destruct (is_empty (strip (cb_channel f))
            || startswith_paren (strip (cb_channel f))); [discriminate|].
  cbv zeta.
  destruct (base_dir_exists s); [intros _; split; reflexivity|].
  destruct (create_folder s); [|discriminate]. simpl.
  destruct (mkdir_error s); [discriminate|]. intros _; split; reflexivity.
Qed.

Lemma start_recording_unfilled :
  filled = false ->
  exists msg, start_recording f s = Some (Error_box "Missing info" msg).
Proof.
  unfold filled, start_recording, missing. intros H.
  destruct (is_empty (strip (le_project f))); [eexists; reflexivity|].
  destruct (is_empty (strip (le_unit f))); [eexists; reflexivity|].
  destruct (is_empty (strip (le_state f)) || is_empty (strip (le_location f)));
    [eexists; reflexivity|].
  destruct (is_empty (strip (le_path f))); [eexists; reflexivity|].
  destruct (is_empty (strip (cb_channel f))
            || startswith_paren (strip (cb_channel f)));
    [eexists; reflexivity|discriminate].
Qed.

Lemma start_recording_no_folder :
  filled = true -> folder_ready = false ->
  start_recording f s = Some Returned \/
  exists msg, start_recording f s = Some (Error_box "Cannot create folder" msg).
Proof.
  unfold filled, folder_ready, start_recording. intros Hf Hd.
  repeat (apply andb_true_iff in Hf; destruct Hf as [Hf ?]).
  repeat match goal with
         | H : negb _ = true |- _ => apply negb_true_iff in H; rewrite H
         end.
  cbv zeta.
  destruct (base_dir_exists s); [discriminate|].
  destruct (create_folder s); simpl; [|left; reflexivity].
  destruct (mkdir_error s); [right; eexists; reflexivity|discriminate].
Qed.

Lemma filled_blank :
  filled = false <->
  blank (le_project f) \/ blank (le_unit f) \/ blank (le_state f) \/
  blank (le_location f) \/ blank (le_path f) \/ blank (cb_channel f) \/
  startswith_paren (strip (cb_channel f)) = true.
Proof.
  unfold filled. rewrite <- !strip_blank.
  destruct (is_empty (strip (le_project f))),
           (is_empty (strip (le_unit f))),
           (is_empty (strip (le_state f))),
           (is_empty (strip (le_location f))),
           (is_empty (strip (le_path f))),
           (is_empty (strip (cb_channel f))),
           (startswith_paren (strip (cb_channel f)));
    simpl; split; intros H; try reflexivity; try discriminate; auto 10;
    repeat (destruct H as [H|H]; try discriminate); discriminate.
Qed.

End Start.

(** X4. When [start_recording] starts a worker, the target file lies in
    the storage folder, its name holds no character that is illegal in a
    file name and ends in .tdms, and the logging operation is
    create-or-replace.  The target is the wanted path when that is free or
    when the user chose to overwrite; when the user chose to increment, it
    is a path that does not exist, named by the wanted name with a counter
    of at least 2 in parentheses before the extension.  Nothing is started
    on an existing file without one of these two choices. *)
Theorem start_recording_target (f : form) (s : surroundings) (l : launch) :
  start_recording f s = Some (Started l) ->
  parent (tdms_path l) = base_dir s /\
  legal (name (tdms_path l)) /\
  (exists base, name (tdms_path l) = base ++ lit ".tdms") /\
  logging_operation l = CREATE_OR_REPLACE /\
  ((path_exists (files s) (wanted f s) = false /\ tdms_path l = wanted f s)
   \/ (path_exists (files s) (wanted f s) = true /\
       clicked s = btn_overwrite /\ tdms_path l = wanted f s)
   \/ (path_exists (files s) (wanted f s) = true /\
       clicked s = btn_increment /\
       path_exists (files s) (tdms_path l) = false /\
       exists N, 2 <= N /\
         name (tdms_path l)
         = wanted_stem f s ++ lit " (" ++ str_of_nat N ++ lit ").tdms")).
Proof.
  intros H. destruct (start_recording_not_ready f s l H) as [Hf Hd].
  rewrite (start_recording_ready f s Hf Hd) in H.
  assert (Hw : legal (name (wanted f s)) /\
               exists base, name (wanted f s) = base ++ lit ".tdms").
  { rewrite wanted_name. split.
    - apply legal_app; [apply legal_recording_stem|repeat constructor].
    - exists (wanted_stem f s). reflexivity. }
  destruct (resolved_cases f s)
    as [[He Hr]|[[He [Hc Hr]]|[[He [Hc Hr]]|[He [Hc [N [HN [Hr Hfree]]]]]]]];
    rewrite Hr in H; try discriminate; inversion H; subst l; clear H;
    cbn [tdms_path logging_operation].
  - split; [reflexivity|]. split; [apply Hw|]. split; [apply Hw|].
    split; [reflexivity|]. left. auto.
  - split; [reflexivity|]. split; [apply Hw|]. split; [apply Hw|].
    split; [reflexivity|]. right. left. auto.
  - cbn [parent name]. split; [reflexivity|]. split.
    + apply legal_app; [apply legal_recording_stem|].
      constructor; [reflexivity|]. constructor; [reflexivity|].
      apply legal_app; [apply legal_lit_uint|repeat constructor].
    + split.
      * exists (wanted_stem f s ++ lit " (" ++ str_of_nat N ++ lit ")").
        rewrite <- !app_assoc. reflexivity.
      * split; [reflexivity|]. right. right.
        split; [exact He|]. split; [exact Hc|]. split; [exact Hfree|].
        exists N. split; [exact HN|reflexivity].
Qed.

(** A form filled in for the PIT5 example, in a folder where the wanted
    file and its first increment exist. *)
Definition pit5_form : form :=
  {| le_project := lit " PIT5 "; le_unit := lit "U1";
     le_state := lit "Full Load"; le_location := lit "G1";
     sb_duration := 1; le_path := lit "D:/rec";
     cb_channel := lit "cDAQ1Mod1/ai0"; sb_sens := 45.6;
     le_mic_id := lit "VHM-COM0266" |}.

Definition pit5_around (b : button) : surroundings :=
  {| today := jan15; base_dir := demo_dir; base_dir_text := lit "D:/rec";
     base_dir_exists := true; create_folder := false; mkdir_error := None;
     files := demo_fs; clicked := b |}.

Lemma pit5_started :
  exists l, start_recording pit5_form (pit5_around btn_increment)
            = Some (Started l).
Proof.
  rewrite start_recording_ready by reflexivity.
  assert (He : path_exists (files (pit5_around btn_increment))
                 (wanted pit5_form (pit5_around btn_increment)) = true)
    by (vm_compute; reflexivity).
  destruct (resolved_cases pit5_form (pit5_around btn_increment))
    as [[He' _]|[[_ [Hc _]]|[[_ [Hc _]]|[_ [_ [N [_ [Hr _]]]]]]]].
  - rewrite He in He'. discriminate.
  - cbn in Hc. discriminate.
  - cbn in Hc. destruct Hc; discriminate.
  - rewrite Hr. eexists. reflexivity.
Qed.

Lemma start_recording_target_witness :
  exists l,
    start_recording pit5_form (pit5_around btn_increment) = Some (Started l) /\
    path_exists demo_fs (tdms_path l) = false /\
    logging_operation l = CREATE_OR_REPLACE.
Proof.
  destruct pit5_started as [l Hl]. exists l. split; [exact Hl|].
  destruct (start_recording_target pit5_form (pit5_around btn_increment) l Hl)
    as [_ [_ [_ [Hop [[He _]|[[_ [Hc _]]|[_ [_ [Hfree _]]]]]]]]].
  - discriminate.
  - discriminate.
  - split; [exact Hfree|exact Hop].
Defined.

(** X5. When the file that [start_recording] builds exists, the collision
    loop that the answer Increment runs on it terminates with a path that
    does not exist and raises nothing, the built name never being empty;
    and when the dialog is cancelled or closed, no worker is started. *)
Theorem start_recording_answers (f : form) (s : surroundings) :
  path_exists (files s) (wanted f s) = true ->
  (exists p, increment_path (files s) (wanted f s) = Some (Ok p) /\
             path_exists (files s) p = false) /\
  (clicked s = btn_cancel \/ clicked s = no_button ->
   forall l, start_recording f s <> Some (Started l)).
Proof.
  intros He. split.
  - destruct (increment_existing (files s) (wanted f s) (wanted_named f s) He)
      as [N [_ [Hi Hf]]].
    eexists. split; [exact Hi|exact Hf].
  - intros Hc l H.
    destruct (start_recording_not_ready f s l H) as [Hf Hd].
    rewrite (start_recording_ready f s Hf Hd) in H.
    destruct (resolved_cases f s)
      as [[He' Hr]|[[_ [Hc' Hr]]|[[_ [_ Hr]]|[_ [Hc' _]]]]].
    + rewrite He in He'. discriminate.
    + rewrite Hc' in Hc. destruct Hc; discriminate.
    + rewrite Hr in H. discriminate.
    + rewrite Hc' in Hc. destruct Hc; discriminate.
Qed.

Lemma start_recording_answers_witness :
  path_exists (files (pit5_around btn_cancel))
    (wanted pit5_form (pit5_around btn_cancel)) = true /\
  start_recording pit5_form (pit5_around btn_cancel) = Some Returned /\
  (exists p, increment_path (files (pit5_around btn_cancel))
               (wanted pit5_form (pit5_around btn_cancel)) = Some (Ok p) /\
             path_exists (files (pit5_around btn_cancel)) p = false).
Proof.
  assert (He : path_exists (files (pit5_around btn_cancel))
                 (wanted pit5_form (pit5_around btn_cancel)) = true)
    by (vm_compute; reflexivity).
  split; [exact He|].
  destruct (start_recording_answers pit5_form (pit5_around btn_cancel) He)
    as [Hinc Hno].
  split; [|exact Hinc].
  rewrite start_recording_ready by reflexivity.
  destruct (resolved_cases pit5_form (pit5_around btn_cancel))
    as [[He' _]|[[_ [Hc _]]|[[_ [_ Hr]]|[_ [Hc _]]]]].
  - rewrite He in He'. discriminate.
  - cbn in Hc. discriminate.
  - rewrite Hr. reflexivity.
  - cbn in Hc. discriminate.
Defined.

(** X6. [start_recording] refuses with the box titled Missing info exactly
    when the project, the unit, the state, the location or the storage
    path is blank, or the channel is blank or starts with a parenthesis
    (the entries that stand for no channel). *)
Theorem start_recording_missing_info (f : form) (s : surroundings) :
  (exists msg, start_recording f s = Some (Error_box "Missing info" msg)) <->
  blank (le_project f) \/ blank (le_unit f) \/ blank (le_state f) \/
  blank (le_location f) \/ blank (le_path f) \/ blank (cb_channel f) \/
  startswith_paren (strip (cb_channel f)) = true.
Proof.
  rewrite <- filled_blank. split.
  - intros [msg E]. destruct (filled f) eqn:Hf; [|reflexivity]. exfalso.
    destruct (folder_ready s) eqn:Hd.
    + rewrite (start_recording_ready f s Hf Hd) in E.
      destruct (resolved f s) as [[[p|]|e]|]; discriminate.
    + destruct (start_recording_no_folder f s Hf Hd) as [E'|[m E']];
        rewrite E' in E; discriminate.
  - apply start_recording_unfilled.
Qed.

End StartFacts.

(** ** Cancellation (app/ni_recorder.py) *)

Module CancelFacts.
Import Py PyStr PyNum NiDaqmx NumFacts EstimateFacts CaptureFacts.
Local Open Scope R_scope.

#[local] Arguments do_call : simpl never.
#[local] Arguments log_event : simpl never.
#[local] Arguments pass_time : simpl never.
#[local] Arguments is_done : simpl never.

(** What the device offers in a row of sleeps: the samples arriving in
    each, a negative number counting as none. *)
Fixpoint offered (arrivals : list Z) : Z :=
  match arrivals with
  | [] => 0
  | a :: rest => Z.max 0 a + offered rest
  end.

Lemma offered_nonneg (arrivals : list Z) : (0 <= offered arrivals)%Z.
Proof. induction arrivals as [|a r IH]; simpl; lia. Qed.

Lemma offered_firstn_mono (arrivals : list Z) : forall j k,
  (j <= k)%nat ->
  (offered (firstn j arrivals) <= offered (firstn k arrivals))%Z.
Proof.
  induction arrivals as [|a r IH]; intros j k Hjk.
  - rewrite !firstn_nil. lia.
  - destruct j as [|j]; [simpl firstn at 1; simpl offered at 1;
                         apply offered_nonneg|].
    destruct k as [|k]; [lia|]. simpl.
    specialize (IH j k ltac:(lia)). lia.
Qed.

Lemma acquired_pass_time (base n : Z) (dt : R) (k : Z) (w : world) :
  armed base n w ->
  acquired (pass_time dt k w) = Z.min n (acquired w + Z.max 0 k).
Proof.
  intros [H1 H2 H3 H4 H5]. unfold pass_time; simpl. rewrite H4, H1. lia.
Qed.

(** The polling loop of the recorder, counted: it sleeps [j] times, and
    the container then holds, beyond the [base] it started with, what the
    device offered meanwhile, up to the configured number.  It ends on a
    completed acquisition or on a stop request seen at turn [j]. *)
Lemma ni_poll_count (base n : Z) (ev : bool) (ticks : list tick) :
  forall w w', armed base n w -> NiRecorder.poll ev ticks w = Some w' ->
  exists j, (j < length ticks)%nat /\
    logged w' = (base + Z.min n (acquired w
                                 + offered (map arriving (firstn j ticks))))%Z /\
    (logged w' = (base + n)%Z \/
     (ev = true /\ exists t, nth_error ticks j = Some t /\ stop_set t = true)).
Proof.
  induction ticks as [|t rest IH]; intros w w' Ha; simpl; [discriminate|].
  destruct (ev && stop_set t) eqn:Hs.
  - intros H; inversion H; subst. exists 0%nat.
    split; [lia|].
    change (logged (do_call Task_stop w)) with (logged w).
    destruct Ha as [H1 H2 H3 H4 H5]. cbn [firstn map offered]. split; [lia|].
    right. apply andb_true_iff in Hs. destruct Hs as [-> Hs].
    split; [reflexivity|]. exists t. split; [reflexivity|exact Hs].
  - destruct (is_done (do_call Is_task_done w)) eqn:Hd.
    + intros H; inversion H; subst. exists 0%nat.
      pose proof (armed_done base n _ (armed_is_task_done base n w Ha) Hd)
        as Hl.
      split; [lia|].
      split; [|left; exact Hl].
      rewrite Hl. change (acquired w) with (acquired (do_call Is_task_done w)).
      destruct (armed_is_task_done base n w Ha) as [H1 H2 H3 H4 H5].
      cbn [firstn map offered]. lia.
    + intros H.
      pose proof (armed_is_task_done base n w Ha) as Ha1.
      pose proof (armed_pass_time base n 0.02 (arriving t) _ Ha1) as Ha2.
      destruct (IH _ _ Ha2 H) as [j [Hj [Hl Hend]]].
      pose proof (acquired_pass_time base n 0.02 (arriving t) _ Ha1) as Hacq.
      change (acquired (do_call Is_task_done w)) with (acquired w) in Hacq.
      exists (S j). split; [lia|]. split.
      * rewrite Hl, Hacq. cbn [firstn map offered].
        pose proof (offered_nonneg (map arriving (firstn j rest))) as Ho.
        destruct Ha as [H1 H2 H3 H4 H5]. lia.
      * destruct Hend as [Hend|[Hev [t' [Ht' Hs']]]]; [left; exact Hend|].
        right. split; [exact Hev|]. exists t'. split; assumption.
Qed.

Lemma setup_acquired (n : Z) (w : world) (ch path grp : str) (lvl sens : R)
    (rate : Z) (op : LoggingOperation) :
  acquired
    (do_call Task_start
      (do_call (Configure_logging path grp op)
        (do_call (Cfg_samp_clk_timing_finite rate n)
          (do_call (Set_ai_microphone_sensitivity sens)
            (do_call Set_ai_coupling_AC
              (do_call (Add_ai_microphone_chan ch lvl 0.004)
                (do_call Task_create w))))))) = 0%Z.
Proof. reflexivity. Qed.

(** The capture routine, counted. *)
Lemma record_count (ch path : str) (sens d : R) (ev : bool) (grp : str)
    (vmax : R) (op : LoggingOperation) (ticks : list tick) (w : world)
    (t : R) (w' : world) :
  NiRecorder.record_microphone_to_tdms ch path sens d ev grp vmax op ticks w
    = Some (Ok t, w') ->
  (0 < py_round (25600 * d))%Z /\
  samps_per_chan w' = py_round (25600 * d) /\
  exists j, (j < length ticks)%nat /\
    logged w' = (kept op w
                 + Z.min (py_round (25600 * d))
                     (offered (map arriving (firstn j ticks))))%Z /\
    (logged w' = (kept op w + py_round (25600 * d))%Z \/
     (ev = true /\ exists tk, nth_error ticks j = Some tk /\ stop_set tk = true)).
Proof.
  unfold NiRecorder.record_microphone_to_tdms.
  change (IZR NiRecorder.SAMPLE_RATE) with 25600.
  destruct (py_round (25600 * d) <=? 0)%Z eqn:Hr; [discriminate|].
  apply Z.leb_gt in Hr.
  destruct (NiRecorder.estimate_max_spl_db vmax sens) as [lvl|e];
    [|discriminate].
  destruct (NiRecorder.poll ev ticks _) as [wp|] eqn:Hp; [|discriminate].
  intros H. inversion H; subst. clear H. split; [exact Hr|].
  assert (Hnn : (0 <= py_round (25600 * d))%Z) by lia.
  pose proof (setup_armed _ w ch path grp lvl sens NiRecorder.SAMPLE_RATE
                op Hnn) as Hs.
  split.
  { change (samps_per_chan (do_call Task_close wp))
      with (samps_per_chan wp).
    rewrite (ni_poll_length ev ticks _ _ Hp). exact (armed_length _ _ _ Hs). }
  destruct (ni_poll_count _ _ ev ticks _ _ Hs Hp) as [j [Hj [Hl Hend]]].
  rewrite setup_acquired in Hl.
  exists j. split; [exact Hj|].
  change (logged (do_call Task_close wp)) with (logged wp).
  split; [rewrite Hl; f_equal|exact Hend].
Qed.

(** X7. Whenever the capture routine returns, it has added to the
    container what the device offered during the sleeps of the polling
    loop, up to the number of samples it configured and never more; what
    the container held before is kept by a logging operation that appends
    and dropped by one that starts the file anew.  Fewer samples than
    configured are added only if a stop request was seen. *)
Theorem record_counts_offered (ch path : str) (sens d : R) (ev : bool)
    (grp : str) (vmax : R) (op : LoggingOperation) (ticks : list tick)
    (w : world) (t : R) (w' : world) :
  NiRecorder.record_microphone_to_tdms ch path sens d ev grp vmax op ticks w
    = Some (Ok t, w') ->
  exists j, (j < length ticks)%nat /\
    logged w' = (kept op w
                 + Z.min (samps_per_chan w')
                     (offered (map arriving (firstn j ticks))))%Z /\
    (kept op w <= logged w' <= kept op w + samps_per_chan w')%Z /\
    ((logged w' < kept op w + samps_per_chan w')%Z ->
     ev = true /\ exists tk, nth_error ticks j = Some tk /\ stop_set tk = true).
Proof.
  intros H. destruct (record_count _ _ _ _ _ _ _ _ _ _ _ _ H)
    as [Hpos [Hn [j [Hj [Hl Hend]]]]].
  rewrite Hn.
  exists j. split; [exact Hj|]. split; [exact Hl|]. split.
  - pose proof (offered_nonneg (map arriving (firstn j ticks))). lia.
  - intros Hlt. destruct Hend as [E|E]; [lia|exact E].
Qed.

(** An append of three samples to a container that holds five. *)
Definition five_logged : world :=
  {| events := []; samps_per_chan := 0; acquired := 0; logging := false;
     logged := 5; started := false; now := 0 |}.

Definition three_appended : option (result R * world) :=
  NiRecorder.record_microphone_to_tdms (lit "cDAQ1Mod1/ai0") (lit "out.tdms")
    50 (3 / 25600) true (lit "RawRecord") 5 OPEN_OR_CREATE
    [quiet 2; quiet 2; quiet 0] five_logged.

Lemma three_appended_runs :
  exists t w', three_appended = Some (Ok t, w') /\ logged w' = 8%Z.
Proof.
  unfold three_appended, NiRecorder.record_microphone_to_tdms.
  change (IZR NiRecorder.SAMPLE_RATE) with 25600.
  rewrite (py_round_value (25600 * (3 / 25600)) 3)
    by (apply Rabs_def1; lra).
  destruct (estimate_max_spl_db_ok 5 50) as [lvl [E _]]. rewrite E.
  run_driver.
  do 2 eexists. split; reflexivity.
Qed.

Lemma record_counts_offered_witness :
  (exists t w',
     three_samples = Some (Ok t, w') /\
     (0 <= logged w' <= 0 + samps_per_chan w')%Z) /\
  (exists t w',
     three_appended = Some (Ok t, w') /\
     (5 <= logged w' <= 5 + samps_per_chan w')%Z).
Proof.
  split.
  - destruct three_samples_runs as [t [w' [E _]]].
    destruct (record_counts_offered _ _ _ _ _ _ _ _ _ _ _ _ E)
      as [j [_ [_ [Hb _]]]].
    exists t, w'. split; [exact E|exact Hb].
  - destruct three_appended_runs as [t [w' [E _]]].
    destruct (record_counts_offered _ _ _ _ _ _ _ _ _ _ _ _ E)
      as [j [_ [_ [Hb _]]]].
    exists t, w'. split; [exact E|exact Hb].
Defined.

(** *** Cancelling after [k] sleeps *)

Definition stop_now : tick := {| stop_set := true; arriving := 0 |}.

(** The stop request is set after [k] sleeps, during which the device
    delivers the first [k] of [arrivals]. *)
Definition stop_after (k : nat) (arrivals : list Z) : list tick :=
  map quiet (firstn k arrivals) ++ [stop_now].

Lemma poll_stop_returns (l : list Z) : forall w,
  exists w', NiRecorder.poll true (map quiet l ++ [stop_now]) w = Some w'.
Proof.
  induction l as [|a l IH]; intros w; simpl.
  - eexists; reflexivity.
  - destruct (is_done (do_call Is_task_done w)); [eexists; reflexivity|].
    apply IH.
Qed.

Lemma arriving_quiet (l : list Z) : map arriving (map quiet l) = l.
Proof. induction l as [|a l IH]; simpl; [reflexivity|]. f_equal. exact IH. Qed.

Lemma nth_error_quiet (l : list Z) : forall j tk,
  nth_error (map quiet l ++ [stop_now]) j = Some tk ->
  stop_set tk = true -> j = length l.
Proof.
  induction l as [|a l IH]; intros [|j] tk; simpl.
  - reflexivity.
  - destruct j; discriminate.
  - intros E; inversion E; subst. discriminate.
  - intros E Hs. f_equal. exact (IH j tk E Hs).
Qed.

Lemma firstn_quiet (l : list Z) (j : nat) :
  (j <= length l)%nat ->
  map arriving (firstn j (map quiet l ++ [stop_now])) = firstn j l.
Proof.
  intros Hj. rewrite firstn_app, length_map.
  replace (j - length l)%nat with 0%nat by lia.
  simpl. rewrite app_nil_r, firstn_map, arriving_quiet. reflexivity.
Qed.

(** A capture cancelled after [k] sleeps returns, having added the
    samples that were offered in the meantime, up to the configured
    number. *)
Lemma cancelled_count (ch path : str) (sens d : R) (grp : str)
    (vmax : R) (op : LoggingOperation) (arrivals : list Z) (w : world)
    (k : nat) :
  1 / 2 < 25600 * d ->
  exists t w',
    NiRecorder.record_microphone_to_tdms ch path sens d true grp vmax op
      (stop_after k arrivals) w = Some (Ok t, w') /\
    samps_per_chan w' = py_round (25600 * d) /\
    logged w' = (kept op w
                 + Z.min (py_round (25600 * d)) (offered (firstn k arrivals)))%Z.
Proof.
  intros Hd.
  assert (Hrun : exists t w',
            NiRecorder.record_microphone_to_tdms ch path sens d true grp vmax
              op (stop_after k arrivals) w = Some (Ok t, w')).
  { unfold NiRecorder.record_microphone_to_tdms.
    change (IZR NiRecorder.SAMPLE_RATE) with 25600.
    destruct (py_round (25600 * d) <=? 0)%Z eqn:Hr.
    { apply Z.leb_le, py_round_nonpos in Hr. lra. }
    destruct (estimate_max_spl_db_ok vmax sens) as [lvl [E _]]. rewrite E.
    unfold stop_after.
    match goal with |- context [NiRecorder.poll true _ ?w0] =>
      destruct (poll_stop_returns (firstn k arrivals) w0) as [wp Hp] end.
    rewrite Hp. do 2 eexists. reflexivity. }
  destruct Hrun as [t [w' Hrun]]. exists t, w'. split; [exact Hrun|].
  destruct (record_count _ _ _ _ _ _ _ _ _ _ _ _ Hrun)
    as [Hpos [Hn [j [Hj [Hl Hend]]]]].
  split; [exact Hn|].
  unfold stop_after in Hj, Hl, Hend.
  rewrite length_app, length_map in Hj. simpl in Hj.
  set (l := firstn k arrivals) in *.
  assert (Hjl : (j <= length l)%nat) by lia.
  rewrite (firstn_quiet l j Hjl) in Hl.
  destruct Hend as [Hfull|[_ [tk [Hnth Hs]]]].
  - rewrite Hfull in Hl.
    pose proof (offered_firstn_mono l j (length l) Hjl) as Hm.
    rewrite firstn_all in Hm. rewrite Hfull. lia.
  - rewrite (nth_error_quiet l j tk Hnth Hs), firstn_all in Hl. exact Hl.
Qed.

(** X8. A capture that is not rejected, with a stop request set after
    [k] sleeps, returns normally, having added to the container the
    samples offered during those sleeps, up to the number it configured.
    So a cancelled capture never adds more than the configured number,
    and it does not add less when the stop request comes later. *)
Theorem cancel_count_monotone (ch path : str) (sens d : R) (grp : str)
    (vmax : R) (op : LoggingOperation) (arrivals : list Z) (w : world) :
  1 / 2 < 25600 * d ->
  (forall k, exists t w',
     NiRecorder.record_microphone_to_tdms ch path sens d true grp vmax op
       (stop_after k arrivals) w = Some (Ok t, w') /\
     logged w' = (kept op w
                  + Z.min (samps_per_chan w')
                      (offered (firstn k arrivals)))%Z) /\
  (forall k1 k2 r1 w1 r2 w2,
     (k1 <= k2)%nat ->
     NiRecorder.record_microphone_to_tdms ch path sens d true grp vmax op
       (stop_after k1 arrivals) w = Some (r1, w1) ->
     NiRecorder.record_microphone_to_tdms ch path sens d true grp vmax op
       (stop_after k2 arrivals) w = Some (r2, w2) ->
     samps_per_chan w1 = samps_per_chan w2 /\
     (logged w1 <= logged w2 <= kept op w + samps_per_chan w2)%Z).
Proof.
  intros Hd. split.
  { intros k.
    destruct (cancelled_count ch path sens d grp vmax op arrivals w k Hd)
      as [t [w' [E [Hn L]]]].
    exists t, w'. split; [exact E|]. rewrite Hn. exact L. }
  intros k1 k2 r1 w1 r2 w2 Hk H1 H2.
  destruct (cancelled_count ch path sens d grp vmax op arrivals w k1 Hd)
    as [t1 [w1' [E1 [N1 L1]]]].
  destruct (cancelled_count ch path sens d grp vmax op arrivals w k2 Hd)
    as [t2 [w2' [E2 [N2 L2]]]].
  rewrite E1 in H1. rewrite E2 in H2.
  inversion H1; subst. inversion H2; subst.
  pose proof (offered_firstn_mono arrivals k1 k2 Hk).
  split; [congruence|]. rewrite N2. lia.
Qed.

Lemma cancel_count_monotone_witness :
  1 / 2 < 25600 * (3 / 25600) /\
  (exists t w',
     NiRecorder.record_microphone_to_tdms (lit "cDAQ1Mod1/ai0")
       (lit "out.tdms") 50 (3 / 25600) true (lit "RawRecord") 5
       CREATE_OR_REPLACE (stop_after 1 [2; 2; 0]%Z) idle = Some (Ok t, w') /\
     logged w' = (0 + Z.min (samps_per_chan w') 2)%Z) /\
  (exists t w',
     NiRecorder.record_microphone_to_tdms (lit "cDAQ1Mod1/ai0")
       (lit "out.tdms") 50 (3 / 25600) true (lit "RawRecord") 5
       OPEN_OR_CREATE (stop_after 1 [2; 2; 0]%Z) five_logged
     = Some (Ok t, w') /\
     logged w' = (5 + Z.min (samps_per_chan w') 2)%Z).
Proof.
  assert (Hd : 1 / 2 < 25600 * (3 / 25600)) by lra.
  split; [exact Hd|]. split.
  - exact (proj1 (cancel_count_monotone (lit "cDAQ1Mod1/ai0") (lit "out.tdms")
                    50 (3 / 25600) (lit "RawRecord") 5 CREATE_OR_REPLACE
                    [2; 2; 0]%Z idle Hd) 1%nat).
  - exact (proj1 (cancel_count_monotone (lit "cDAQ1Mod1/ai0") (lit "out.tdms")
                    50 (3 / 25600) (lit "RawRecord") 5 OPEN_OR_CREATE
                    [2; 2; 0]%Z five_logged Hd) 1%nat).
Defined.

End CancelFacts.

(** ** A sensitivity of zero (daq_worker.py, app/ni_recorder.py) *)

Module ProgressFacts.
Import Py PyStr PyNum NiDaqmx NumFacts EstimateFacts CaptureFacts.
Local Open Scope R_scope.

#[local] Arguments do_call : simpl never.
#[local] Arguments log_event : simpl never.
#[local] Arguments pass_time : simpl never.
#[local] Arguments is_done : simpl never.

(** X10. A sensitivity of zero makes the worker thread fail with a
    division by zero, after it has created the task and before it has
    configured anything; the task is closed again.  No other sensitivity
    gives this error.  The capture routine of the recorder does not fail
    on a zero sensitivity: it configures the channel with a maximum level
    of 140 dB. *)
Theorem zero_sensitivity (ch path fname : str) (d : R) (ticks : list tick)
    (late : Z) (w : world) :
  DaqWorker.run ch 0 d path fname ticks late w
  = Some (Raise (ZeroDivisionError "float division by zero"),
          do_call Task_close (do_call Task_create w)) /\
  (forall sens msg w',
     DaqWorker.run ch sens d path fname ticks late w
     = Some (Raise (ZeroDivisionError msg), w') -> sens = 0) /\
  (forall ev grp vmax op r w',
     NiRecorder.record_microphone_to_tdms ch path 0 d ev grp vmax op ticks w
     = Some (r, w') ->
     r = Raise too_small \/
     ((exists t, r = Ok t) /\
      In (Add_ai_microphone_chan ch 140 0.004) (events w'))).
Proof.
  split; [|split].
  - unfold DaqWorker.run, py_div.
    destruct (Req_dec_T 0 0) as [_|N]; [reflexivity|contradiction].
  - intros sens msg w'. unfold DaqWorker.run, py_div.
    destruct (Req_dec_T sens 0) as [E|_]; [intros _; exact E|].
    destruct (DaqWorker.poll ticks _) as [wp|]; [|discriminate].
    destruct (is_done _); discriminate.
  - intros ev grp vmax op r w'.
    unfold NiRecorder.record_microphone_to_tdms.
    destruct (_ <=? 0)%Z; [intros H; injection H as <- _; left; reflexivity|].
    destruct (estimate_max_spl_db_ok vmax 0) as [lvl [E [H140 _]]].
    rewrite E, (H140 ltac:(lra)).
    destruct (NiRecorder.poll ev ticks _) as [wp|] eqn:Hp; [|discriminate].
    intros H; injection H as <- <-. right. split; [eexists; reflexivity|].
    rewrite events_do_call. right.
    apply ni_poll_events in Hp. destruct Hp as [more Hm]. rewrite Hm.
    apply in_or_app. right. rewrite !events_do_call. simpl. tauto.
Qed.

End ProgressFacts.

(** ** The recorder's worker object (app/recorder_worker.py) *)

Module WorkerFacts.
Import Py PyStr PyNum NiDaqmx NumFacts EstimateFacts CaptureFacts CancelFacts
       Models RecorderWorker.
Local Open Scope R_scope.

#[local] Arguments do_call : simpl never.

(** The capture routine raises only its own error, and then it has not
    touched the world. *)
Lemma record_raises (ch path : str) (sens d : R) (ev : bool) (grp : str)
    (vmax : R) (op : LoggingOperation) (ticks : list tick) (w : world)
    (e : exn) (w' : world) :
  NiRecorder.record_microphone_to_tdms ch path sens d ev grp vmax op ticks w
    = Some (Raise e, w') ->
  e = too_small /\ w' = w /\ 25600 * d <= 1 / 2.
Proof.
  unfold NiRecorder.record_microphone_to_tdms.
  change (IZR NiRecorder.SAMPLE_RATE) with 25600.
  destruct (py_round (25600 * d) <=? 0)%Z eqn:Hr.
  - apply Z.leb_le, py_round_nonpos in Hr.
    intros H; injection H as <- <-. auto.
  - destruct (estimate_max_spl_db_ok vmax sens) as [lvl [E _]]. rewrite E.
    destruct (NiRecorder.poll ev ticks _); discriminate.
Qed.

Lemma record_closes (ch path : str) (sens d : R) (ev : bool) (grp : str)
    (vmax : R) (op : LoggingOperation) (ticks : list tick) (w : world)
    (t : R) (w' : world) :
  NiRecorder.record_microphone_to_tdms ch path sens d ev grp vmax op ticks w
    = Some (Ok t, w') ->
  hd_error (events w') = Some Task_close.
Proof.
  unfold NiRecorder.record_microphone_to_tdms.
  destruct (_ <=? 0)%Z; [discriminate|].
  destruct (NiRecorder.estimate_max_spl_db vmax sens); [|discriminate].
  destruct (NiRecorder.poll ev ticks _); [|discriminate].
  intros H; injection H as _ <-. rewrite events_do_call. reflexivity.
Qed.

(** What the worker makes of the outcome of the capture: the result
    object, or the text of the exception. *)
Definition last_signal (record_meta : RecordMeta) (tdms_path timestamp : str)
    (captured : result R) : signal :=
  match captured with
  | Ok elapsed =>
      finished {| result_tdms_path := tdms_path;
                  result_duration_s := elapsed;
                  result_timestamp_iso := timestamp;
                  result_unit_state := unit_state record_meta;
                  result_location := location record_meta |}
  | Raise e => error (str_of_exn e)
  end.

(** X11. Whenever the worker object returns from [run], it has emitted
    exactly three signals: the status Recording, the status Idle, and
    then the outcome of the capture, which is the result with the path it
    was given, the elapsed time, the time stamp and the state and location
    of the record, or the error with the text of whatever exception the
    capture raised.  With driver calls that do not fail, the capture
    raises only its own error, exactly when the duration is at most half a
    sample period, and then no driver call has been made; otherwise the
    result is emitted after the task has been closed. *)
Theorem worker_signals (mic_cfg : MicConfig) (record_meta : RecordMeta)
    (ev : bool) (tdms_path : str) (op : LoggingOperation) (timestamp : str)
    (ticks : list tick) (w : world) (signals : list signal) (w' : world) :
  run mic_cfg record_meta ev tdms_path op timestamp ticks w
    = Some (signals, w') ->
  exists captured,
    NiRecorder.record_microphone_to_tdms
      (physical_channel mic_cfg) tdms_path (sensitivity_mV_per_Pa mic_cfg)
      (duration_s record_meta) ev (lit "RawRecord") 5 op ticks w
    = Some (captured, w') /\
    signals = [status "Recording"; status "Idle";
               last_signal record_meta tdms_path timestamp captured] /\
    ((25600 * duration_s record_meta <= 1 / 2 /\
      captured = Raise too_small /\ w' = w)
     \/
     (1 / 2 < 25600 * duration_s record_meta /\
      (exists elapsed, captured = Ok elapsed) /\
      hd_error (events w') = Some Task_close)).
Proof.
  unfold run.
  destruct (NiRecorder.record_microphone_to_tdms _ _ _ _ _ _ _ _ _ _)
    as [[[t|e] w1]|] eqn:E; [| |discriminate].
  - intros H; injection H as <- <-. exists (Ok t).
    split; [reflexivity|]. split; [reflexivity|]. right.
    destruct (record_count _ _ _ _ _ _ _ _ _ _ _ _ E) as [Hpos _].
    split.
    + destruct (Rle_dec (25600 * duration_s record_meta) (1 / 2)) as [Hle|Hgt];
        [|lra].
      apply py_round_nonpos in Hle. lia.
    + split; [eexists; reflexivity|].
      exact (record_closes _ _ _ _ _ _ _ _ _ _ _ _ E).
  - intros H; injection H as <- <-. exists (Raise e).
    split; [reflexivity|]. split; [reflexivity|]. left.
    destruct (record_raises _ _ _ _ _ _ _ _ _ _ _ _ E) as [-> [-> Hd]].
    split; [exact Hd|]. split; reflexivity.
Qed.

Definition demo_mic : MicConfig :=
  {| physical_channel := lit "cDAQ1Mod1/ai0";
     sensitivity_mV_per_Pa := 50; microphone_id := [] |}.

Definition demo_meta (d : R) : RecordMeta :=
  {| unit := lit "U1"; unit_state := lit "Full Load";
     location := lit "G1"; duration_s := d |}.

Lemma worker_signals_witness :
  (exists signals w',
     run demo_mic (demo_meta 0) true (lit "out.tdms") CREATE_OR_REPLACE
       (lit "2025-01-15T10:00:00") [quiet 1] idle = Some (signals, w') /\
     signals = [status "Recording"; status "Idle";
                error "Duration too small; total_samples <= 0"] /\
     w' = idle) /\
  (exists signals w' r,
     run demo_mic (demo_meta (3 / 25600)) true (lit "out.tdms")
       CREATE_OR_REPLACE (lit "2025-01-15T10:00:00")
       [quiet 2; quiet 2; quiet 0] idle = Some (signals, w') /\
     signals = [status "Recording"; status "Idle"; finished r] /\
     result_tdms_path r = lit "out.tdms" /\
     result_unit_state r = lit "Full Load" /\
     hd_error (events w') = Some Task_close).
Proof.
  split.
  - destruct (run demo_mic (demo_meta 0) true (lit "out.tdms")
                CREATE_OR_REPLACE (lit "2025-01-15T10:00:00") [quiet 1] idle)
      as [[signals w']|] eqn:E.
    + exists signals, w'. split; [reflexivity|].
      destruct (worker_signals _ _ _ _ _ _ _ _ _ _ E)
        as [captured [_ [Hs [[_ [Hc Hw]]|[Hd _]]]]].
      * subst captured. split; [exact Hs|exact Hw].
      * simpl in Hd. lra.
    + exfalso. unfold run, NiRecorder.record_microphone_to_tdms in E.
      cbn [demo_meta duration_s] in E.
      change (IZR NiRecorder.SAMPLE_RATE) with 25600 in E.
      assert (Hr : (py_round (25600 * 0) <=? 0)%Z = true)
        by (apply Z.leb_le, py_round_nonpos; lra).
      rewrite Hr in E. discriminate.
  - destruct three_samples_runs as [t [w1 [E1 _]]].
    assert (E : run demo_mic (demo_meta (3 / 25600)) true (lit "out.tdms")
                  CREATE_OR_REPLACE (lit "2025-01-15T10:00:00")
                  [quiet 2; quiet 2; quiet 0] idle
                = Some ([status "Recording"; status "Idle";
                         last_signal (demo_meta (3 / 25600)) (lit "out.tdms")
                           (lit "2025-01-15T10:00:00") (Ok t)], w1)).
    { unfold run. cbn [demo_mic demo_meta physical_channel
                       sensitivity_mV_per_Pa duration_s].
      unfold three_samples in E1. rewrite E1. reflexivity. }
    destruct (worker_signals _ _ _ _ _ _ _ _ _ _ E)
      as [captured [_ [Hs [[Hd _]|[_ [[el Hc] Hcl]]]]]].
    + simpl in Hd. lra.
    + do 3 eexists. split; [exact E|]. split; [reflexivity|].
      split; [reflexivity|]. split; [reflexivity|exact Hcl].
Defined.

End WorkerFacts.

(** ** The sampling rate read from a channel
       (GGHydroSoundAnalyzer/main.py) *)

Module RateFacts.
Import Py PyNum NumPy TdmsChannel.
Local Open Scope R_scope.

Lemma positive_fin (x : float) (r : R) : x = Fin r -> positive x = true -> 0 < r.
Proof.
  intros -> H. simpl in H. unfold is_pos in H.
  destruct (Rlt_dec 0 r); [assumption|discriminate].
Qed.

Lemma first_fs_positive (keys : list string) (props : properties) (x : float) :
  first_fs keys props = Some x -> positive x = true.
Proof.
  induction keys as [|k keys IH]; simpl; [discriminate|].
  destruct (lookup k props) as [v|]; [|exact IH].
  destruct (py_float v) as [f|]; [|exact IH].
  destruct (positive f) eqn:Hp; [|exact IH].
  intros H; injection H as <-. exact Hp.
Qed.

(** X18. A rate read from the properties of a channel is never negative
    and never not-a-number.  It is positive, finite or infinite, except
    in one case: a time increment of plus infinity gives the rate zero. *)
Theorem sampling_rate_sign (props : properties) (x : float) :
  try_get_sampling_rate_from_tdms_channel props = Some x ->
  positive x = true \/
  (x = Fin 0 /\ first_dt dt_keys props = Some PInf).
Proof.
  unfold try_get_sampling_rate_from_tdms_channel. cbv zeta. intros H.
  assert (Hcase :
    (exists d, first_dt dt_keys props = Some d /\ truthy d = true /\
               positive d = true /\ x = fdiv (Fin 1) d) \/
    first_fs fs_keys props = Some x).
  { destruct (first_dt dt_keys props) as [d|]; [|right; exact H].
    destruct (truthy d) eqn:Ht; [|right; exact H].
    destruct (positive d) eqn:Hp; [|right; exact H].
    simpl in H. injection H as <-. left. exists d. auto. }
  clear H.
  destruct Hcase as [[d [Hd [Ht [Hp ->]]]]|Hfs].
  - destruct d as [r| | |]; try discriminate.
    + left. pose proof (positive_fin _ r eq_refl Hp) as Hr.
      simpl. unfold is_zero. destruct (Req_dec_T r 0) as [E|_]; [lra|].
      simpl. unfold is_pos.
      destruct (Rlt_dec 0 (1 / r)) as [_|N]; [reflexivity|].
      exfalso. apply N. apply Rdiv_lt_0_compat; lra.
    + right. split; [reflexivity|exact Hd].
  - left. exact (first_fs_positive _ _ _ Hfs).
Qed.

Lemma sampling_rate_sign_witness :
  try_get_sampling_rate_from_tdms_channel
    [("wf_increment"%string, Number PInf)] = Some (Fin 0) /\
  positive (Fin 0) = false /\
  (exists x,
     try_get_sampling_rate_from_tdms_channel
       [("wf_increment"%string, Number (Fin (-1)));
        ("fs"%string, Number NaN); ("sample_rate"%string, Number PInf)]
     = Some x /\ positive x = true).
Proof.
  assert (H0 : positive (Fin 0) = false).
  { simpl. unfold is_pos. destruct (Rlt_dec 0 0); [lra|reflexivity]. }
  split; [|split; [exact H0|]].
  - destruct (try_get_sampling_rate_from_tdms_channel
                [("wf_increment"%string, Number PInf)]) as [x|] eqn:E.
    + destruct (sampling_rate_sign _ x E) as [Hp|[-> _]]; [|reflexivity].
      unfold try_get_sampling_rate_from_tdms_channel in E. simpl in E.
      injection E as <-. rewrite H0 in Hp. discriminate.
    + discriminate.
  - destruct (try_get_sampling_rate_from_tdms_channel
                [("wf_increment"%string, Number (Fin (-1)));
                 ("fs"%string, Number NaN);
                 ("sample_rate"%string, Number PInf)]) as [x|] eqn:E.
    + exists x. split; [reflexivity|].
      destruct (sampling_rate_sign _ x E) as [Hp|[_ Hd]]; [exact Hp|].
      unfold dt_keys in Hd. simpl in Hd. discriminate.
    + exfalso. unfold try_get_sampling_rate_from_tdms_channel in E.
      simpl in E. unfold is_zero, is_pos in E.
      destruct (Req_dec_T (-1) 0) as [E0|_]; [lra|].
      destruct (Rlt_dec 0 (-1)) as [E0|_]; [lra|].
      simpl in E. discriminate.
Defined.

(** A key under which there is nothing that converts to a float. *)
Definition unusable (props : properties) (k : string) : Prop :=
  lookup k props = None \/ lookup k props = Some Other.

Lemma first_dt_skips (props : properties) (before rest : list string) :
  Forall (unusable props) before ->
  first_dt (before ++ rest) props = first_dt rest props.
Proof.
  induction 1 as [|k before Hk _ IH]; [reflexivity|]. simpl.
  destruct Hk as [-> | ->]; exact IH.
Qed.

(** X19. The time increment takes precedence over a stored rate, and the
    increment keys are tried in their order: when one of them holds a
    positive finite number and none of the keys before it holds anything
    that converts, the rate is the inverse of that number, whatever the
    other properties are. *)
Theorem increment_takes_precedence (props : properties)
    (before after : list string) (key : string) (dt : R) :
  dt_keys = before ++ key :: after ->
  Forall (unusable props) before ->
  lookup key props = Some (Number (Fin dt)) -> 0 < dt ->
  try_get_sampling_rate_from_tdms_channel props = Some (Fin (1 / dt)).
Proof.
  intros Hk Hb Hl Hdt. unfold try_get_sampling_rate_from_tdms_channel.
  cbv zeta. rewrite Hk, (first_dt_skips props before (key :: after) Hb).
  simpl first_dt. rewrite Hl. simpl py_float. cbv iota.
  unfold truthy, positive, is_zero, is_pos.
  destruct (Req_dec_T dt 0) as [E|_]; [lra|].
  destruct (Rlt_dec 0 dt) as [_|N]; [|contradiction]. simpl.
  unfold is_zero. destruct (Req_dec_T dt 0) as [E|_]; [lra|reflexivity].
Qed.

Lemma increment_takes_precedence_witness :
  try_get_sampling_rate_from_tdms_channel
    [("fs"%string, Number (Fin 48000)); ("wf_increment"%string, Other);
     ("dt"%string, Number (Fin (1 / 25600)))]
  = Some (Fin (1 / (1 / 25600))).
Proof.
  apply (increment_takes_precedence _ ["wf_increment"%string]
           ["Waveform dt"%string; "wf dt"%string] "dt"%string (1 / 25600)).
  - reflexivity.
  - constructor; [right; reflexivity|constructor].
  - reflexivity.
  - lra.
Defined.

Lemma first_fs_agree (props props' : properties) (keys : list string) :
  (forall k, In k keys -> lookup k props = lookup k props') ->
  first_fs keys props = first_fs keys props'.
Proof.
  induction keys as [|k keys IH]; intros H; [reflexivity|]. simpl.
  rewrite <- (H k (or_introl eq_refl)).
  rewrite IH by (intros k' Hk'; apply H; right; exact Hk'). reflexivity.
Qed.

(** X20. The first increment key that converts decides alone: once the
    key wf_increment holds a number, the keys dt, Waveform dt and wf dt
    are not looked at, even when that number is zero, negative or
    not-a-number and one of them holds a usable increment.  The rate then
    comes from the rate keys only. *)
Theorem first_increment_shadows (props props' : properties) (d : float) :
  lookup "wf_increment" props = Some (Number d) ->
  lookup "wf_increment" props' = Some (Number d) ->
  (forall k, In k fs_keys -> lookup k props = lookup k props') ->
  try_get_sampling_rate_from_tdms_channel props
  = try_get_sampling_rate_from_tdms_channel props' /\
  (truthy d && positive d = false ->
   try_get_sampling_rate_from_tdms_channel props = first_fs fs_keys props).
Proof.
  intros H1 H2 Hfs. unfold try_get_sampling_rate_from_tdms_channel.
  cbv zeta. unfold dt_keys. simpl first_dt. rewrite H1, H2. simpl py_float.
  cbv iota. rewrite (first_fs_agree props props' fs_keys Hfs).
  split; [reflexivity|]. intros ->. reflexivity.
Qed.

Lemma first_increment_shadows_witness :
  try_get_sampling_rate_from_tdms_channel
    [("wf_increment"%string, Number NaN);
     ("dt"%string, Number (Fin (1 / 25600)))]
  = None.
Proof.
  destruct (first_increment_shadows
              [("wf_increment"%string, Number NaN);
               ("dt"%string, Number (Fin (1 / 25600)))]
              [("wf_increment"%string, Number NaN)] NaN
              eq_refl eq_refl) as [_ H].
  - intros k Hk. simpl in Hk.
    repeat (destruct Hk as [<-|Hk]; [reflexivity|]). destruct Hk.
  - rewrite H by reflexivity. reflexivity.
Defined.

End RateFacts.

(** ** The driver calls of a capture, in order (app/ni_recorder.py) *)

Module TraceFacts.
Import Py PyStr PyNum NiDaqmx NumFacts EstimateFacts CaptureFacts.
Local Open Scope R_scope.

#[local] Arguments do_call : simpl never.
#[local] Arguments log_event : simpl never.
#[local] Arguments pass_time : simpl never.
#[local] Arguments is_done : simpl never.

(** The calls of the polling loop, oldest first: [j] queries that found
    the task still running, and then either the stop or the query that
    found it done. *)
Definition polling (j : nat) (stopped : bool) : list event :=
  repeat Is_task_done j ++ [if stopped then Task_stop else Is_task_done].

Lemma ni_poll_trace (ev : bool) (ticks : list tick) :
  forall w w', NiRecorder.poll ev ticks w = Some w' ->
  exists j stopped,
    (j < length ticks)%nat /\
    rev (events w') = rev (events w) ++ polling j stopped /\
    (stopped = true -> ev = true).
Proof.
  induction ticks as [|t rest IH]; intros w w'; simpl; [discriminate|].
  destruct (ev && stop_set t) eqn:Hs.
  - intros H; injection H as <-. exists 0%nat, true.
    split; [lia|]. rewrite events_do_call. split; [reflexivity|].
    intros _. apply andb_true_iff in Hs. tauto.
  - destruct (is_done (do_call Is_task_done w)).
    + intros H; injection H as <-. exists 0%nat, false.
      split; [lia|]. rewrite events_do_call. split; [reflexivity|discriminate].
    + intros H. destruct (IH _ _ H) as [j [stopped [Hj [He Hst]]]].
      exists (S j), stopped. split; [lia|]. split; [|exact Hst].
      rewrite He, events_pass_time, events_do_call. unfold polling.
      simpl. rewrite <- !app_assoc. reflexivity.
Qed.

(** X22. The driver calls of a capture that returns are, in this order:
    the task is created, the microphone channel is added with the
    estimated maximum level and 4 mA excitation, the coupling and the
    sensitivity are set, the finite acquisition at 25600 Hz and the
    logging are configured, the task is started; then come the queries of
    the polling loop, ended by a query that found the task done or by
    one stop; and the task is closed.  The task is stopped only when a stop
    event was passed, once, and nothing but the close follows. *)
Theorem record_trace (ch path : str) (sens d : R) (ev : bool) (grp : str)
    (vmax : R) (op : LoggingOperation) (ticks : list tick) (w : world)
    (t : R) (w' : world) :
  NiRecorder.record_microphone_to_tdms ch path sens d ev grp vmax op ticks w
    = Some (Ok t, w') ->
  exists lvl j stopped,
    NiRecorder.estimate_max_spl_db vmax sens = Ok lvl /\
    (j < length ticks)%nat /\
    (stopped = true -> ev = true) /\
    rev (events w') =
      rev (events w)
      ++ [Task_create; Add_ai_microphone_chan ch lvl 0.004;
          Set_ai_coupling_AC; Set_ai_microphone_sensitivity sens;
          Cfg_samp_clk_timing_finite 25600 (py_round (25600 * d));
          Configure_logging path grp op; Task_start]
      ++ polling j stopped ++ [Task_close].
Proof.
  unfold NiRecorder.record_microphone_to_tdms.
  change (IZR NiRecorder.SAMPLE_RATE) with 25600.
  destruct (py_round (25600 * d) <=? 0)%Z; [discriminate|].
  destruct (NiRecorder.estimate_max_spl_db vmax sens) as [lvl|e];
    [|discriminate].
  destruct (NiRecorder.poll ev ticks _) as [wp|] eqn:Hp; [|discriminate].
  intros H; injection H as _ <-.
  destruct (ni_poll_trace ev ticks _ _ Hp) as [j [stopped [Hj [He Hst]]]].
  exists lvl, j, stopped. split; [reflexivity|]. split; [exact Hj|].
  split; [exact Hst|].
  rewrite events_do_call. cbn [rev]. rewrite He, !events_do_call.
  cbn [rev]. rewrite <- !app_assoc. reflexivity.
Qed.

Lemma record_trace_witness :
  exists t w' lvl j stopped,
    three_samples = Some (Ok t, w') /\
    rev (events w') =
      rev (events idle)
      ++ [Task_create; Add_ai_microphone_chan (lit "cDAQ1Mod1/ai0") lvl 0.004;
          Set_ai_coupling_AC; Set_ai_microphone_sensitivity 50;
          Cfg_samp_clk_timing_finite 25600 (py_round (25600 * (3 / 25600)));
          Configure_logging (lit "out.tdms") (lit "RawRecord")
            CREATE_OR_REPLACE; Task_start]
      ++ polling j stopped ++ [Task_close].
Proof.
  destruct three_samples_runs as [t [w' [E _]]].
  destruct (record_trace _ _ _ _ _ _ _ _ _ _ _ _ E)
    as [lvl [j [stopped [_ [_ [_ He]]]]]].
  exists t, w', lvl, j, stopped. split; [exact E|exact He].
Defined.

End TraceFacts.


